(** * Dependency analysis of the Viper IDE client: graph construction,
      bypass resolution, highlight queries and the line-content format.

    The development follows the class [DependencyAnalysis] of the client.
    The revision with bypass resolution and external dependencies is the
    one embedded; where the earlier revision of a function matters, it is
    embedded next to the current one under a name that starts with
    [legacy].

    Conventions of the embedding.
    - JavaScript numbers that hold line numbers are integers of [Z].
    - Strings that are only compared for equality (node ids, file names,
      labels, category names, set keys, CSS classes) are [string].  Text
      whose characters are inspected (source lines and the records of
      lines.csv) is a list of UTF-16 code units, [list N].
    - [Map<K,V>] is a [gmap]; a [Set] that is only tested for membership
      is a [gset]; a [Set] or array that is iterated keeps its insertion
      order as a list.
    - A row of nodes.csv or edges.csv is the list of its fields, already
      split at the delimiter and trimmed; the length checks of the source
      are kept.  The regular expressions that read the position field are
      parameters of the section that uses them. *)

From Stdlib Require Import ZArith NArith Ascii Decimal DecimalString DecimalZ DecimalN DecimalPos.
From stdpp Require Import gmap strings list fin_maps sorting.

Open Scope Z_scope.

#[local] Set Warnings "-clear-no-such-hyp".

(** ** JavaScript primitives used by the code *)

Module JS.

(** [Number.MAX_SAFE_INTEGER] and [Number.isSafeInteger(n)] for an
    integer [n]: the integers that a number holds exactly.  Line
    numbers are such integers. *)
Definition maxSafeInteger : Z := 2 ^ 53 - 1.

Definition isSafeInteger (n : Z) : Prop :=
  - maxSafeInteger ≤ n ≤ maxSafeInteger.

(** [`${n}`] for a safe integer [n]: the decimal numeral, with a leading
    minus sign below zero.  (Beyond the safe integers a number prints
    the shortest numeral that reads back to it, and from 10^21 on in
    exponent form; what is stated about the text of a number read back
    from a file assumes [isSafeInteger].) *)
Definition showZ (z : Z) : string := NilZero.string_of_int (Z.to_int z).

(** [set.add(x)] on a [Set] that is iterated later: insertion order is
    kept, an element already present is not added again. *)
Definition setAdd `{EqDecision A} (x : A) (s : list A) : list A :=
  if decide (x ∈ s) then s else s ++ [x].

(** [new Set(array)], in iteration order. *)
Definition setOfArray `{EqDecision A} (l : list A) : list A :=
  foldl (λ s x, setAdd x s) [] l.

(** Longest prefix whose elements satisfy [f], and what follows it. *)
Fixpoint takeWhile {A} (f : A → bool) (l : list A) : list A :=
  match l with
  | [] => []
  | x :: r => if f x then x :: takeWhile f r else []
  end.

Fixpoint dropWhile {A} (f : A → bool) (l : list A) : list A :=
  match l with
  | [] => []
  | x :: r => if f x then dropWhile f r else l
  end.

(** The UTF-16 code units of a string of the embedding. *)
Fixpoint codeUnits (s : string) : list N :=
  match s with
  | EmptyString => []
  | String a r => N_of_ascii a :: codeUnits r
  end.

(** [array[i]] for an index known to be in range (the callers check the
    length first); a missing field reads as the empty string. *)
Definition field (parts : list string) (i : nat) : string :=
  default "" (parts !! i).

(** The string has no comma. *)
Fixpoint commaFree (s : string) : Prop :=
  match s with
  | EmptyString => True
  | String c s' => c ≠ ","%char ∧ commaFree s'
  end.

End JS.

(** ** Graph construction: [loadGraphFromCSV] *)

Module Graph.

Import JS.

Definition Edge : Type := Z * Z.
Definition source (e : Edge) : Z := fst e.
Definition target (e : Edge) : Z := snd e.

(** [getNodeCategories(nodeType, assumptionType)] *)
Definition getNodeCategories (nodeType assumptionType : string) : list string :=
  let c1 :=
    if decide (nodeType = "Assumption") then
      if decide (assumptionType = "Explicit") then ["ExplicitAssumption"]
      else ["ImplicitAssumption"]
    else [] in
  let c2 :=
    if decide (nodeType = "Assertion") then
      if decide (assumptionType = "Explicit") then ["ExplicitAssertion"]
      else if decide (assumptionType = "ImplicitPostcondition"
                      ∨ assumptionType = "ExplicitPostcondition")
           then ["ExplicitAssertionPostcondition"]
           else ["ImplicitAssertion"]
    else [] in
  let c3 := if decide (nodeType = "Infeasible") then ["Infeasible"] else [] in
  let categories := c1 ++ c2 ++ c3 in
  if decide (0 < length categories)%nat then categories else ["Unknown"].

(** [`${sourceLine},${targetLine}`], the key of both edge sets. *)
Definition edgeKey (s t : Z) : string := showZ s +:+ "," +:+ showZ t.

(** [shouldBypass(categories)] *)
Definition shouldBypass (categories : list string) : bool :=
  bool_decide ("ExplicitAssertion" ∈ categories).

(** The three maps filled while reading nodes.csv. *)
Record NodeTables := mkNodeTables {
  nodeCategories : gmap Z (list string);
  nodeIdToLine : gmap string Z;
  nodeIdToFile : gmap string string
}.

Definition emptyNodeTables : NodeTables := mkNodeTables ∅ ∅ ∅.

(** What the loop over edges.csv accumulates. *)
Record EdgeTables := mkEdgeTables {
  externalDependenciesByFile : gmap Z (gmap string (list Z));
  rawEdges : list Edge;
  seenEdgeKeys : gset string
}.

Definition emptyEdgeTables : EdgeTables := mkEdgeTables ∅ [] ∅.

(** What the rewrite pass accumulates.  [nodes] is iterated when the
    result is built, so it keeps insertion order. *)
Record Resolved := mkResolved {
  nodes : list Z;
  edges : list Edge;
  resolvedEdgeKeys : gset string
}.

Definition emptyResolved : Resolved := mkResolved [] [] ∅.

(** One vertex of the result (the fields computed from the line text are
    in [LinesCsv]). *)
Record NodeData := mkNodeData {
  lineNumber : Z;
  categoriesOf : list string;
  externalDependencyCount : nat;
  externalDependencies : gmap string (list Z)
}.

Record GraphData := mkGraphData {
  graphNodes : list NodeData;
  graphEdges : list Edge
}.

Section Load.

(** The position regular expressions of [loadGraphFromCSV]:
    [(file @ line N)] or [file @ line N] at the end of the field;
    the file name is returned trimmed. *)
Variable matchPosition : string → option (string * Z).

(** [path.basename(analyzedFileUri.fsPath)] *)
Variable analyzedFileName : string.

(** Body of the loop over the rows of nodes.csv. *)
Definition nodeStep (tb : NodeTables) (parts : list string) : NodeTables :=
  if decide (length parts < 7)%nat then tb else
  let nodeId := field parts 0 in
  let nodeType := field parts 1 in
  let assumptionType := field parts 2 in
  let position := field parts 6 in
  match matchPosition position with
  | None => tb
  | Some (fileName, lineNumber) =>
    let files := <[nodeId := fileName]> (nodeIdToFile tb) in
    let lines := <[nodeId := lineNumber]> (nodeIdToLine tb) in
    if decide (fileName = analyzedFileName) then
      let categories := getNodeCategories nodeType assumptionType in
      let merged :=
        match nodeCategories tb !! lineNumber with
        | Some existing => setOfArray (existing ++ categories)
        | None => categories
        end in
      mkNodeTables (<[lineNumber := merged]> (nodeCategories tb)) lines files
    else mkNodeTables (nodeCategories tb) lines files
  end.

(** [nodesRows] is the content of nodes.csv, header included, or
    [None] when the file does not exist. *)
Definition loadNodes (nodesRows : option (list (list string))) : NodeTables :=
  match nodesRows with
  | None => emptyNodeTables
  | Some rows => foldl nodeStep emptyNodeTables (drop 1 rows)
  end.

Section Edges.

Variable tb : NodeTables.

(** The external-dependency part of the loop body. *)
Definition trackExternal (ext : gmap Z (gmap string (list Z)))
    (sourceId targetId : string) : gmap Z (gmap string (list Z)) :=
  match nodeIdToLine tb !! targetId, nodeIdToFile tb !! sourceId with
  | Some targetLine, Some sourceFile =>
    if decide (nodeIdToFile tb !! targetId = Some analyzedFileName
               ∧ sourceFile ≠ "" ∧ sourceFile ≠ analyzedFileName) then
      let fileMap := default ∅ (ext !! targetLine) in
      let lineArray := default [] (fileMap !! sourceFile) in
      let lineArray' :=
        match nodeIdToLine tb !! sourceId with
        | Some l => if decide (l ∈ lineArray) then lineArray else lineArray ++ [l]
        | None => lineArray
        end in
      <[targetLine := <[sourceFile := lineArray']> fileMap]> ext
    else ext
  | _, _ => ext
  end.

(** The condition under which a row contributes an intra-file edge. *)
Definition intraFileEdge (sourceId targetId : string) : option Edge :=
  match nodeIdToLine tb !! sourceId, nodeIdToLine tb !! targetId with
  | Some sourceLine, Some targetLine =>
    if decide (nodeIdToFile tb !! sourceId = Some analyzedFileName
               ∧ nodeIdToFile tb !! targetId = Some analyzedFileName
               ∧ sourceLine ≠ targetLine)
    then Some (sourceLine, targetLine) else None
  | _, _ => None
  end.

(** Body of the loop over the rows of edges.csv. *)
Definition edgeStep (et : EdgeTables) (parts : list string) : EdgeTables :=
  if decide (length parts < 2)%nat then et else
  let sourceId := field parts 0 in
  let targetId := field parts 1 in
  let ext := trackExternal (externalDependenciesByFile et) sourceId targetId in
  match intraFileEdge sourceId targetId with
  | Some (sourceLine, targetLine) =>
    let key := edgeKey sourceLine targetLine in
    if decide (key ∈ seenEdgeKeys et) then
      mkEdgeTables ext (rawEdges et) (seenEdgeKeys et)
    else
      mkEdgeTables ext (rawEdges et ++ [(sourceLine, targetLine)])
                   ({[key]} ∪ seenEdgeKeys et)
  | None => mkEdgeTables ext (rawEdges et) (seenEdgeKeys et)
  end.

Definition loadEdges (edgesRows : option (list (list string))) : EdgeTables :=
  match edgesRows with
  | None => emptyEdgeTables
  | Some rows => foldl edgeStep emptyEdgeTables (drop 1 rows)
  end.

End Edges.

End Load.

(** *** Bypass resolution *)

(** The loop that fills [parentMap] from the raw edges. *)
Definition parentStep (pm : gmap Z (list Z)) (e : Edge) : gmap Z (list Z) :=
  <[target e := setAdd (source e) (default [] (pm !! target e))]> pm.

Definition buildParentMap (raw : list Edge) : gmap Z (list Z) :=
  foldl parentStep ∅ raw.

Section Resolve.

Variable categories : gmap Z (list string).
Variable parentMap : gmap Z (list Z).

(** [for (const parent of parents) realSources.push(...rec(parent, visited))]:
    the visited set is shared by all the calls of one resolution. *)
Fixpoint resolveParents (rec : Z → gset Z → option (list Z * gset Z))
    (parents : list Z) (realSources : list Z) (visited : gset Z)
    : option (list Z * gset Z) :=
  match parents with
  | [] => Some (realSources, visited)
  | parent :: rest =>
    match rec parent visited with
    | None => None
    | Some (found, visited') =>
      resolveParents rec rest (realSources ++ found) visited'
    end
  end.

(** [resolveRealSources(line, visited)].  The recursion of the source
    is bounded by [fuel]; [None] means that the bound was reached.
    [realSourcesOf_enough_fuel] shows that the bound used by the rewrite
    pass is never reached. *)
Fixpoint resolveRealSources (fuel : nat) (line : Z) (visited : gset Z)
    : option (list Z * gset Z) :=
  match fuel with
  | O => None
  | S fuel' =>
    if decide (line ∈ visited) then Some ([], visited) else
    let visited := {[line]} ∪ visited in
    if negb (shouldBypass (default [] (categories !! line)))
    then Some ([line], visited)
    else
      match parentMap !! line with
      | None => Some ([line], visited)
      | Some parents =>
        if decide (length parents = 0)%nat then Some ([line], visited)
        else resolveParents (resolveRealSources fuel') parents [] visited
      end
  end.

End Resolve.

(** [rawParent raw line p]: the raw edge set has an edge from [p] to
    [line]. *)
Definition rawParent (raw : list Edge) (line p : Z) : Prop := (p, line) ∈ raw.

(** Bound on the recursion of one resolution: at most one call per
    distinct line on the current path, and every line on the path other
    than the first is the source of a raw edge. *)
Definition resolveFuel (raw : list Edge) : nat := S (S (length raw)).

Section Rebuild.

Variable categories : gmap Z (list string).
Variable raw : list Edge.

(** [resolveRealSources(edge.source, new Set())].  The second case of the
    match is never taken ([realSourcesOf_enough_fuel]). *)
Definition realSourcesOf (line : Z) : list Z :=
  match resolveRealSources categories (buildParentMap raw)
                           (resolveFuel raw) line ∅ with
  | Some (realSources, _) => realSources
  | None => []
  end.

(** Body of the inner loop over the real sources of one raw edge. *)
Definition emitStep (tgt : Z) (rs : Resolved) (realSource : Z) : Resolved :=
  if decide (realSource = tgt) then rs else
  let key := edgeKey realSource tgt in
  if decide (key ∈ resolvedEdgeKeys rs) then rs else
  mkResolved (setAdd tgt (setAdd realSource (nodes rs)))
             (edges rs ++ [(realSource, tgt)])
             ({[key]} ∪ resolvedEdgeKeys rs).

(** Body of the loop that rebuilds the edges with bypass applied. *)
Definition rebuildStep (rs : Resolved) (edge : Edge) : Resolved :=
  foldl (emitStep (target edge)) rs (realSourcesOf (source edge)).

Definition rebuildEdges : Resolved := foldl rebuildStep emptyResolved raw.

(** The second loop over the raw edges, which keeps every raw endpoint
    as a vertex. *)
Definition addEndpoints (ns : list Z) (edge : Edge) : list Z :=
  setAdd (target edge) (setAdd (source edge) ns).

Definition allNodes : list Z := foldl addEndpoints (nodes rebuildEdges) raw.

End Rebuild.

(** The per-vertex record of the result: the categories of the line
    (Unknown when it has none), the number of external lines that
    justify it and, per file, their sorted list (the empty map stands for
    the missing field). *)
Definition nodeData (tb : NodeTables) (et : EdgeTables) (id : Z) : NodeData :=
  let fileMap := default ∅ (externalDependenciesByFile et !! id) in
  mkNodeData id
    (default ["Unknown"] (nodeCategories tb !! id))
    (map_fold (λ _ lines count, (count + length lines)%nat) 0%nat fileMap)
    (merge_sort Z.le <$> fileMap).

(** [loadGraphFromCSV(csvPath, analyzedFileUri)].  [translatedExists]
    is [fs.existsSync(csvPath)]; the two tables are the contents of
    nodes.csv and edges.csv, [None] when the file is missing. *)
Definition loadGraphFromCSV (matchPosition : string → option (string * Z))
    (analyzedFileName : string) (translatedExists : bool)
    (nodesRows edgesRows : option (list (list string))) : GraphData :=
  if translatedExists then
    let tb := loadNodes matchPosition analyzedFileName nodesRows in
    let et := loadEdges analyzedFileName tb edgesRows in
    let rs := rebuildEdges (nodeCategories tb) (rawEdges et) in
    mkGraphData (nodeData tb et <$> allNodes (nodeCategories tb) (rawEdges et))
                (edges rs)
  else mkGraphData [] [].

(** The intermediate tables of a run, named for the statements below. *)
Definition nodeTablesOf matchPosition analyzedFileName nodesRows : NodeTables :=
  loadNodes matchPosition analyzedFileName nodesRows.

Definition rawEdgesOf matchPosition analyzedFileName nodesRows edgesRows
    : list Edge :=
  rawEdges (loadEdges analyzedFileName
              (loadNodes matchPosition analyzedFileName nodesRows) edgesRows).

(** *** Vocabulary of the statements about the graph *)

(** The parents recorded for a line, none when the map has no entry. *)
Definition parentsOf (pm : gmap Z (list Z)) (line : Z) : list Z :=
  default [] (pm !! line).

(** A line has no parents for the code when its entry in the parent
    map is missing or empty. *)
Definition noParents (pm : gmap Z (list Z)) (line : Z) : Prop :=
  parentsOf pm line = [].

(** The line carries the ExplicitAssertion category. *)
Definition bypassed (categories : gmap Z (list string)) (line : Z) : Prop :=
  "ExplicitAssertion" ∈ default [] (categories !! line).

(** A line at which a resolution stops. *)
Definition terminal (categories : gmap Z (list string)) (pm : gmap Z (list Z))
    (line : Z) : Prop :=
  ¬ bypassed categories line ∨ noParents pm line.

(** [parent pm line p]: there is an entry of [p] among the parents of
    [line]. *)
Definition parent (pm : gmap Z (list Z)) (line p : Z) : Prop :=
  p ∈ parentsOf pm line.

(** The key set of the rewrite pass holds exactly the keys of its edges. *)
Definition keyed (rs : Resolved) : Prop :=
  ∀ r t, edgeKey r t ∈ resolvedEdgeKeys rs ↔ (r, t) ∈ edges rs.

(** Every endpoint of an edge of the rewrite pass is one of its
    vertices. *)
Definition covered (rs : Resolved) : Prop :=
  ∀ e, e ∈ edges rs → source e ∈ nodes rs ∧ target e ∈ nodes rs.

(** A row that reaches the edge part of the loop body: it has at
    least two fields and they resolve to the edge [e]. *)
Definition contributes (analyzedFileName : string) (tb : NodeTables)
    (parts : list string) (e : Edge) : Prop :=
  (2 ≤ length parts)%nat ∧
  intraFileEdge analyzedFileName tb (field parts 0) (field parts 1) = Some e.

(** The key set of the loop over edges.csv holds exactly the keys of the
    raw edges. *)
Definition keyedRaw (et : EdgeTables) : Prop :=
  ∀ s t, edgeKey s t ∈ seenEdgeKeys et ↔ (s, t) ∈ rawEdges et.

(** The line belongs to some trace node of the analyzed file. *)
Definition inAnalyzedFile (analyzedFileName : string) (tb : NodeTables)
    (line : Z) : Prop :=
  ∃ id, nodeIdToLine tb !! id = Some line
        ∧ nodeIdToFile tb !! id = Some analyzedFileName.

End Graph.

(** ** The derived edge file: [translateEdgesToLineNumbers] *)

Module Translate.

Import JS.

(** [`${sourceLine},${targetLine},${label}`], both the key of
    [seenEdges] and the row written to edges_translated.csv. *)
Definition edgeKey (s t : Z) (label : string) : string :=
  showZ s +:+ "," +:+ showZ t +:+ "," +:+ label.

(** The array of output lines after the header, and the set of keys. *)
Record Rows := mkRows {
  translatedEdges : list string;
  seenEdges : gset string
}.

(** The content written to edges_translated.csv: the header line of
    edges.csv (as its fields) followed by the translated rows. *)
Record Translated := mkTranslated {
  header : list string;
  translatedRows : list string
}.

Section Translate.

(** The pattern of [translateEdgesToLineNumbers] on the position field
    (the word line, a space and digits, anywhere in the field),
    followed by [parseInt]. *)
Variable matchLine : string → option Z.

(** Body of the loop over the rows of nodes.csv. *)
Definition nodeStep (nodeToLine : gmap string Z) (parts : list string)
    : gmap string Z :=
  if decide (length parts < 7)%nat then nodeToLine else
  let nodeId := field parts 0 in
  let position := field parts 6 in
  match matchLine position with
  | Some lineNumber => <[nodeId := lineNumber]> nodeToLine
  | None => nodeToLine
  end.

(** Body of the loop over the rows of edges.csv. *)
Definition edgeStep (nodeToLine : gmap string Z) (st : Rows)
    (parts : list string) : Rows :=
  if decide (length parts < 3)%nat then st else
  let sourceId := field parts 0 in
  let targetId := field parts 1 in
  let label := field parts 2 in
  match nodeToLine !! sourceId, nodeToLine !! targetId with
  | Some sourceLine, Some targetLine =>
    if decide (sourceLine ≠ targetLine) then
      let key := edgeKey sourceLine targetLine label in
      if decide (key ∈ seenEdges st) then st
      else mkRows (translatedEdges st ++ [key]) ({[key]} ∪ seenEdges st)
    else st
  | _, _ => st
  end.

Definition buildNodeToLine (rows : list (list string)) : gmap string Z :=
  foldl nodeStep ∅ (drop 1 rows).

(** [translateEdgesToLineNumbers(exportDir)].  The arguments are the
    contents of nodes.csv and edges.csv, [None] for a missing or empty
    file; the result is the content written, [None] when the
    translation is skipped. *)
Definition translateEdgesToLineNumbers
    (nodesRows edgesRows : option (list (list string))) : option Translated :=
  match nodesRows, edgesRows with
  | Some nrows, Some erows =>
    let nodeToLine := buildNodeToLine nrows in
    let st := foldl (edgeStep nodeToLine) (mkRows [] ∅) (drop 1 erows) in
    Some (mkTranslated (default [] (head erows)) (translatedEdges st))
  | _, _ => None
  end.

End Translate.

(** *** Vocabulary of the statements about the derived file *)

(** A data row that passes the checks of the loop body and yields the
    output row [k]. *)
Definition yields (nodeToLine : gmap string Z) (parts : list string)
    (k : string) : Prop :=
  (3 ≤ length parts)%nat ∧
  ∃ s t, nodeToLine !! field parts 0 = Some s ∧
         nodeToLine !! field parts 1 = Some t ∧
         s ≠ t ∧ k = edgeKey s t (field parts 2).

(** The key set holds exactly the rows written so far. *)
Definition keyedRows (st : Rows) : Prop :=
  ∀ k, k ∈ seenEdges st ↔ k ∈ translatedEdges st.

End Translate.

(** ** The line-content records: [exportLinesToCSV] and the reader of
       lines.csv in [loadGraphFromCSV] *)

Module LinesCsv.

Import JS.

Open Scope N_scope.

Definition Text : Type := list N.

Definition quote : N := 34.
Definition comma : N := 44.
Definition newline : N := 10.

(** The code units removed by [String.prototype.trim]: WhiteSpace and
    LineTerminator of the language. *)
Definition isWhiteSpace (c : N) : bool :=
  (c =? 9) || (c =? 10) || (c =? 11) || (c =? 12) || (c =? 13) || (c =? 32)
  || (c =? 160) || (c =? 5760) || ((8192 <=? c) && (c <=? 8202))
  || (c =? 8232) || (c =? 8233) || (c =? 8239) || (c =? 8287)
  || (c =? 12288) || (c =? 65279).

(** The code units that [.] of a regular expression does not match. *)
Definition isLineTerminator (c : N) : bool :=
  (c =? 10) || (c =? 13) || (c =? 8232) || (c =? 8233).

(** A decimal digit. *)
Definition isDigit (c : N) : bool := (48 <=? c) && (c <=? 57).

(** [s.trim()] *)
Definition trim (s : Text) : Text :=
  reverse (dropWhile isWhiteSpace (reverse (dropWhile isWhiteSpace s))).

(** The replacement of [exportLinesToCSV]: every double quote of the
    text is replaced by two. *)
Fixpoint escapeQuotes (s : Text) : Text :=
  match s with
  | [] => []
  | c :: r =>
    if c =? quote then quote :: quote :: escapeQuotes r
    else c :: escapeQuotes r
  end.

(** The replacement of the reader: every pair of adjacent double quotes
    is replaced by one; the pairs are taken from left to right and do
    not overlap. *)
Fixpoint unescapeQuotes (s : Text) : Text :=
  match s with
  | [] => []
  | c1 :: r1 =>
    match r1 with
    | c2 :: r2 =>
      if (c1 =? quote) && (c2 =? quote) then quote :: unescapeQuotes r2
      else c1 :: unescapeQuotes r1
    | [] => [c1]
    end
  end.

(** The row of lines.csv for the line at [index] (counted from 0): the
    number [index + 1], a comma, and the escaped trimmed text between
    double quotes. *)
Definition encodeLine (index : nat) (line : Text) : Text :=
  codeUnits (showZ (Z.of_nat index + 1))
  ++ [comma; quote] ++ escapeQuotes (trim line) ++ [quote].

(** [parseInt] on a run of decimal digits. *)
Definition parseInt (digits : Text) : Z :=
  foldl (λ acc c, acc * 10 + (Z.of_N c - 48))%Z 0%Z digits.

(** Position of the last double quote of a text. *)
Fixpoint lastQuote (s : Text) : option nat :=
  match s with
  | [] => None
  | c :: r =>
    match lastQuote r with
    | Some k => Some (S k)
    | None => if c =? quote then Some O else None
    end
  end.

(** The pattern of the reader, anchored at the start of the row: one or
    more digits (group 1), a comma, a double quote, any characters
    (group 2, greedy) and a double quote.  The digits are the longest
    run of digits at the start; the greedy group runs to the first line
    terminator or the end and gives back up to the last double quote
    before that point. *)
Definition matchRecord (record : Text) : option (Text * Text) :=
  let digits := takeWhile isDigit record in
  match digits, dropWhile isDigit record with
  | _ :: _, c1 :: c2 :: body =>
    if (c1 =? comma) && (c2 =? quote) then
      let run := takeWhile (λ c, negb (isLineTerminator c)) body in
      match lastQuote run with
      | Some k => Some (digits, take k run)
      | None => None
      end
    else None
  | _, _ => None
  end.

(** Body of the loop over the rows of lines.csv: the entry added to
    [lineContents], if the row matches. *)
Definition decodeLine (record : Text) : option (Z * Text) :=
  match matchRecord record with
  | Some (digits, body) => Some (parseInt digits, unescapeQuotes body)
  | None => None
  end.

(** [split] at the newline character. *)
Fixpoint splitLines (s : Text) : list Text :=
  match s with
  | [] => [[]]
  | c :: r =>
    if c =? newline then [] :: splitLines r
    else match splitLines r with
         | first :: others => (c :: first) :: others
         | [] => [[c]]
         end
  end.

(** [join] with the newline character. *)
Fixpoint joinLines (lines : list Text) : Text :=
  match lines with
  | [] => []
  | [line] => line
  | line :: others => line ++ newline :: joinLines others
  end.

(** [exportLinesToCSV(fileUri)]: the content written to lines.csv for a
    file with content [fileContent]. *)
Definition exportLinesToCSV (fileContent : Text) : Text :=
  joinLines (imap encodeLine (splitLines fileContent)).

(** The first part of [loadGraphFromCSV]: the map [lineContents] read
    from lines.csv ([None] when the file does not exist). *)
Definition lineStep (lineContents : gmap Z Text) (line : Text) : gmap Z Text :=
  match decodeLine line with
  | Some (lineNum, content) => <[lineNum := content]> lineContents
  | None => lineContents
  end.

Definition loadLineContents (linesContent : option Text) : gmap Z Text :=
  match linesContent with
  | None => ∅
  | Some content => foldl lineStep ∅ (splitLines (trim content))
  end.

(** *** Vocabulary of the statements about the records *)

(** The text has no line terminator. *)
Definition noLineTerminator (s : Text) : Prop :=
  Forall (λ c, isLineTerminator c = false) s.

(** The text has no newline character. *)
Definition noNewline (s : Text) : Prop := Forall (λ c, (c =? newline) = false) s.

End LinesCsv.

(** ** The editor side: [highlightLines] *)

Module Editor.

Import JS.

(** The five decoration types created by the module. *)
Inductive DecorationType :=
| selectedDecoration
| directDependencyDecoration
| indirectDependencyDecoration
| directDependantDecoration
| indirectDependantDecoration.

(** A range of the editor: start and end position. *)
Record Range := mkRange {
  startLine : Z;
  startCharacter : Z;
  endLine : Z;
  endCharacter : Z
}.

(** A text document: its path and the text of its lines. *)
Record TextDocument := mkTextDocument {
  fsPath : string;
  lineTexts : list string
}.

Definition lineCount (doc : TextDocument) : Z := Z.of_nat (length (lineTexts doc)).

(** [document.lineAt(line).range]; the editor raises an error when
    [line] is not in [0, lineCount). *)
Definition lineAt (doc : TextDocument) (line : Z) : option Range :=
  if decide (0 ≤ line < lineCount doc) then
    match lineTexts doc !! Z.to_nat line with
    | Some text => Some (mkRange line 0 line (Z.of_nat (String.length text)))
    | None => None
    end
  else None.

Record TextEditor := mkTextEditor { document : TextDocument }.

(** [vscode.window]: the active editor and the visible editors. *)
Record Window := mkWindow {
  activeTextEditor : option TextEditor;
  visibleTextEditors : list TextEditor
}.

(** The static fields of the class that [highlightLines] and the
    message handler read or write. *)
Record Extension := mkExtension {
  analyzedFileUri : option string;
  highlightsEnabled : bool;
  isUpdatingHighlights : bool
}.

(** The calls made on the editor and the window, in order.  (Calls of
    the logger are not recorded.) *)
Inductive Event :=
| SetDecorations (editor : TextEditor) (decoration : DecorationType)
                 (ranges : list Range)
| RevealRange (editor : TextEditor) (range : Range)
| ShowWarningMessage (message : string)
| ShowErrorMessage (message : string)
| ResetUpdatingAfter (milliseconds : Z).

(** Computations of the body of a [try] block: the calls made so far
    and either a value or the error raised. *)
Definition Try (A : Type) : Type := list Event * (A + string).

Definition ret {A} (x : A) : Try A := ([], inl x).
Definition raise {A} (error : string) : Try A := ([], inr error).
Definition emit (e : Event) : Try unit := ([e], inl tt).
Definition bind {A B} (k : A → Try B) (m : Try A) : Try B :=
  match m with
  | (events, inl x) => let '(events', r) := k x in (events ++ events', r)
  | (events, inr error) => (events, inr error)
  end.

#[export] Instance Try_ret : MRet Try := @ret.
#[export] Instance Try_bind : MBind Try := @bind.

(** [lineAt] inside a [try] block. *)
Definition rangeOfLine (doc : TextDocument) (line : Z) : Try Range :=
  match lineAt doc line with
  | Some range => ret range
  | None => raise "Illegal value for line"
  end.

(** [array.map(n => document.lineAt(n - 1).range)] *)
Fixpoint rangesOfLines (doc : TextDocument) (ns : list Z) : Try (list Range) :=
  match ns with
  | [] => ret []
  | n :: rest =>
    range ← rangeOfLine doc (n - 1);
    ranges ← rangesOfLines doc rest;
    ret (range :: ranges)
  end.

(** [clearEditorDecorations(editor)] *)
Definition clearEditorDecorations (editor : TextEditor) : list Event :=
  [ SetDecorations editor directDependencyDecoration [];
    SetDecorations editor indirectDependencyDecoration [];
    SetDecorations editor directDependantDecoration [];
    SetDecorations editor indirectDependantDecoration [];
    SetDecorations editor selectedDecoration [] ].

Definition emitAll (events : list Event) : Try unit := (events, inl tt).

Section Highlight.

Variable window : Window.
Variable ext : Extension.

Definition showsAnalyzedFile (e : TextEditor) : bool :=
  bool_decide (analyzedFileUri ext = Some (fsPath (document e))).

(** The editor of the analyzed file: the active one if it shows that
    file, else the first visible editor that does. *)
Definition findEditor : option TextEditor :=
  match activeTextEditor window with
  | Some e =>
    if showsAnalyzedFile e then Some e
    else List.find showsAnalyzedFile (visibleTextEditors window)
  | None => List.find showsAnalyzedFile (visibleTextEditors window)
  end.

(** [neighbors.filter(n => n >= 1 && n <= lineCount && n !== lineNumber)] *)
Definition keptNeighbors (count lineNumber : Z) (ns : list Z) : list Z :=
  filter (λ n, 1 ≤ n ∧ n ≤ count ∧ n ≠ lineNumber) ns.

(** What follows the range check in both revisions: the three
    decoration lists are computed, then applied, then the selected
    line is revealed. *)
Definition decorate (editor : TextEditor) (clearFirst : bool)
    (lineNumber : Z) (neighbors indirectNeighbors : list Z)
    (showDependents : bool) : Try unit :=
  let doc := document editor in
  let count := lineCount doc in
  (if clearFirst then emitAll (clearEditorDecorations editor) else ret tt);;
  selected ← rangeOfLine doc (lineNumber - 1);
  directLines ← rangesOfLines doc (keptNeighbors count lineNumber neighbors);
  indirectLines ←
    rangesOfLines doc (keptNeighbors count lineNumber indirectNeighbors);
  let directDecoration :=
    if showDependents then directDependantDecoration
    else directDependencyDecoration in
  let indirectDecoration :=
    if showDependents then indirectDependantDecoration
    else indirectDependencyDecoration in
  (if clearFirst then ret tt else emitAll (clearEditorDecorations editor));;
  emit (SetDecorations editor directDecoration directLines);;
  emit (SetDecorations editor indirectDecoration indirectLines);;
  emit (SetDecorations editor selectedDecoration [selected]);;
  revealed ← rangeOfLine doc (lineNumber - 1);
  emit (RevealRange editor revealed).

Definition outOfRangeMessage (lineNumber : Z) : string :=
  "Line " +:+ showZ lineNumber +:+ " is out of range".

(** The body of the [try] block of [highlightLines]. *)
Definition highlightBody (lineNumber : Z) (neighbors indirectNeighbors : list Z)
    (showDependents : bool) : Try unit :=
  match findEditor with
  | None => ret tt
  | Some editor =>
    let count := lineCount (document editor) in
    if decide (lineNumber < 0 ∨ lineNumber > count) then
      emit (ShowWarningMessage (outOfRangeMessage lineNumber))
    else if decide (lineNumber = 0) then
      emitAll (clearEditorDecorations editor)
    else
      decorate editor true lineNumber neighbors indirectNeighbors showDependents
  end.

(** [try { body } catch (error) { showErrorMessage } finally { timer }]:
    the flag is set on entry and the timer that resets it is started
    on every exit. *)
Definition tryCatchFinally (body : Try unit) : list Event * Extension :=
  let '(events, result) := body in
  let caught :=
    match result with
    | inl _ => []
    | inr error => [ShowErrorMessage ("Error highlighting lines: " +:+ error)]
    end in
  (events ++ caught ++ [ResetUpdatingAfter 100],
   mkExtension (analyzedFileUri ext) (highlightsEnabled ext) true).

(** [highlightLines(lineNumber, neighbors, indirectNeighbors, showDependents)] *)
Definition highlightLines (lineNumber : Z) (neighbors indirectNeighbors : list Z)
    (showDependents : bool) : list Event * Extension :=
  tryCatchFinally
    (highlightBody lineNumber neighbors indirectNeighbors showDependents).

(** The earlier revision of [highlightLines] (client/src): the range
    check rejects every line below 1 and the decorations are cleared
    after the three lists are computed. *)
Definition legacyHighlightBody (lineNumber : Z)
    (neighbors indirectNeighbors : list Z) (showDependents : bool) : Try unit :=
  match findEditor with
  | None => ret tt
  | Some editor =>
    let count := lineCount (document editor) in
    if decide (lineNumber < 1 ∨ lineNumber > count) then
      emit (ShowWarningMessage (outOfRangeMessage lineNumber))
    else
      decorate editor false lineNumber neighbors indirectNeighbors showDependents
  end.

Definition legacyHighlightLines (lineNumber : Z)
    (neighbors indirectNeighbors : list Z) (showDependents : bool)
    : list Event * Extension :=
  tryCatchFinally
    (legacyHighlightBody lineNumber neighbors indirectNeighbors showDependents).

End Highlight.

(** The line numbers (counted from 1) of a list of ranges. *)
Definition linesOf (ranges : list Range) : list Z :=
  (λ r, startLine r + 1) <$> ranges.

End Editor.

(** ** The graph view: the script of the webview *)

Module Webview.

(** The CSS classes of every vertex of the view. *)
Definition ClassMap : Type := Z → gset string.

(** The classes removed at the start of every highlight. *)
Definition highlightClasses : gset string :=
  list_to_set ["selected"; "direct"; "indirect"; "direct-dependent";
               "indirect-dependent"; "dimmed"; "filtered"].

(** [cy.elements().removeClass(...)] and [cy.elements().addClass(c)],
    on the vertices. *)
Definition removeClassEverywhere (cs : gset string) (m : ClassMap) : ClassMap :=
  λ n, m n ∖ cs.

Definition addClassEverywhere (c : string) (m : ClassMap) : ClassMap :=
  λ n, {[c]} ∪ m n.

(** [collection.addClass(c)] and [collection.removeClass(c)] for the
    collection of the vertices [ids]. *)
Definition addClass (ids : list Z) (c : string) (m : ClassMap) : ClassMap :=
  λ n, if decide (n ∈ ids) then {[c]} ∪ m n else m n.

Definition removeClass (ids : list Z) (c : string) (m : ClassMap) : ClassMap :=
  λ n, if decide (n ∈ ids) then m n ∖ {[c]} else m n.

Definition hasClass (m : ClassMap) (n : Z) (c : string) : bool :=
  bool_decide (c ∈ m n).

(** The message [highlightLines] posted to the extension. *)
Record Message := mkMessage {
  lineNumber : Z;
  neighbors : list Z;
  indirectNeighbors : list Z;
  messageShowDependents : bool
}.

(** The variables of the script. *)
Record State := mkState {
  showIndirect : bool;
  showDependents : bool;
  selectedNode : option Z;
  filterState : gmap string bool;
  classes : ClassMap
}.

(** The initial value of [filterState]. *)
Definition initialFilterState : gmap string bool :=
  <["ExplicitAssumption" := true]>
    (<["ImplicitAssumption" := true]>
       (<["ExplicitAssertion" := true]>
          (<["ImplicitAssertion" := true]> ∅))).

Definition checkboxes : list string :=
  ["ExplicitAssumption"; "ImplicitAssumption"; "ExplicitAssertion";
   "ImplicitAssertion"].

Definition initialState : State := mkState false false None initialFilterState (λ _, ∅).

Section Cy.

(** [cy.nodes()]: the id of every vertex with its [nodeCategories]. *)
Variable cyNodes : list (Z * list string).

(** The traversal functions of the graph library, as the ids of the
    vertices of the collection they return: [incomers], [outgoers]
    (one edge away) and [predecessors], [successors] (any number of
    edges away). *)
Variables incomers outgoers predecessors successors : Z → list Z.

(** The body of the [forEach] of [applyFilters], for one vertex with
    categories [categories] and classes [cls]. *)
Definition applyFiltersNode (fs : gmap string bool) (categories : list string)
    (cls : gset string) : gset string :=
  let isHighlightedDependency :=
    "direct" ∈ cls ∨ "indirect" ∈ cls ∨ "direct-dependent" ∈ cls
    ∨ "indirect-dependent" ∈ cls in
  if decide (¬ isHighlightedDependency ∨ "selected" ∈ cls) then cls
  else
    let isVisible :=
      existsb (λ category, bool_decide (fs !! category = Some true)) categories in
    if isVisible then cls ∖ {["filtered"]} else {["filtered"]} ∪ cls.

(** [applyFilters()] *)
Definition applyFilters (fs : gmap string bool) (m : ClassMap) : ClassMap :=
  foldl (λ (m : ClassMap) (node : Z * list string),
           λ n, if decide (n = node.1)
                then applyFiltersNode fs node.2 (m n) else m n)
        m cyNodes.

(** The two collections of [highlightNodeAndDependencies]. *)
Definition related (st : State) (node : Z) : list Z :=
  if showDependents st then
    if showIndirect st then successors node else outgoers node
  else
    if showIndirect st then predecessors node else incomers node.

Definition directRelated (st : State) (node : Z) : list Z :=
  if showDependents st then outgoers node else incomers node.

(** The first part of [highlightNodeAndDependencies]: the classes of
    the previous highlight are removed and those of the new one are
    set, up to the call of [applyFilters]. *)
Definition markHighlight (st : State) (node : Z) : ClassMap :=
  let m0 := removeClassEverywhere highlightClasses (classes st) in
  let rel := related st node in
  let direct := directRelated st node in
  let m1 := addClassEverywhere "dimmed" m0 in
  let m2 := removeClass (node :: rel) "dimmed" m1 in
  let indirectClass :=
    if showDependents st then "indirect-dependent" else "indirect" in
  let directClass :=
    if showDependents st then "direct-dependent" else "direct" in
  let m3 :=
    if showIndirect st
    then addClass (list_difference rel direct) indirectClass m2 else m2 in
  let m4 := addClass direct directClass m3 in
  addClass [node] "selected" m4.

(** [nodes.filter(n => !n.hasClass('filtered'))] *)
Definition unfiltered (m : ClassMap) (ids : list Z) : list Z :=
  filter (λ n, hasClass m n "filtered" = false) ids.

(** [highlightNodeAndDependencies(node, sendMessage)], for a vertex
    [node] of the view. *)
Definition highlightNodeAndDependencies (st : State) (node : Z)
    (sendMessage : bool) : State * option Message :=
  let rel := related st node in
  let direct := directRelated st node in
  let m6 := applyFilters (filterState st) (markHighlight st node) in
  let unfiltered := unfiltered m6 in
  let message :=
    if sendMessage then
      Some (mkMessage node
              (unfiltered direct)
              (if showIndirect st
               then unfiltered (list_difference rel direct) else [])
              (showDependents st))
    else None in
  (mkState (showIndirect st) (showDependents st) (selectedNode st)
           (filterState st) m6,
   message).

(** The re-highlight at the end of several handlers:
    [if (selectedNode && selectedNode.length > 0) ...]. *)
Definition rehighlight (st : State) : State * option Message :=
  match selectedNode st with
  | Some node => highlightNodeAndDependencies st node true
  | None => (st, None)
  end.

(** The [change] handler of the checkbox of [category]:
    [filterState[category] = this.checked], [enableShowIndirect()],
    [applyFilters()] and the re-highlight. *)
Definition onFilterChange (st : State) (category : string) (checked : bool)
    : State * option Message :=
  let fs := <[category := checked]> (filterState st) in
  rehighlight
    (mkState true (showDependents st) (selectedNode st) fs
             (applyFilters fs (classes st))).

(** The same handler in the earlier revision of the script, which has
    no [enableShowIndirect]. *)
Definition legacyOnFilterChange (st : State) (category : string)
    (checked : bool) : State * option Message :=
  let fs := <[category := checked]> (filterState st) in
  rehighlight
    (mkState (showIndirect st) (showDependents st) (selectedNode st) fs
             (applyFilters fs (classes st))).

(** The handlers of the two toggle buttons. *)
Definition onToggleDirection (st : State) : State * option Message :=
  let st' := mkState (showIndirect st) (negb (showDependents st))
                     (selectedNode st) (filterState st) (classes st) in
  match selectedNode st with
  | Some _ => rehighlight st'
  | None =>
    (mkState (showIndirect st') (showDependents st') None (filterState st')
       (removeClassEverywhere
          (list_to_set ["selected"; "direct"; "indirect"; "dimmed"])
          (classes st')), None)
  end.

Definition onToggleIndirect (st : State) : State * option Message :=
  let st' := mkState (negb (showIndirect st)) (showDependents st)
                     (selectedNode st) (filterState st) (classes st) in
  match selectedNode st with
  | Some _ => rehighlight st'
  | None =>
    (mkState (showIndirect st') (showDependents st') None (filterState st')
       (removeClassEverywhere
          (list_to_set ["selected"; "direct"; "indirect"; "dimmed"])
          (classes st')), None)
  end.

(** The [tap] handler of a vertex. *)
Definition onTapNode (st : State) (node : Z) : State * option Message :=
  if decide (selectedNode st = Some node) then
    (mkState (showIndirect st) (showDependents st) None (filterState st)
             (removeClassEverywhere highlightClasses (classes st)),
     Some (mkMessage 0 [] [] (showDependents st)))
  else
    highlightNodeAndDependencies
      (mkState (showIndirect st) (showDependents st) (Some node)
               (filterState st) (classes st))
      node true.

(** The handler of the message [highlightLines] sent by the
    extension when the cursor moves: the vertex with that id, if the
    view has one, becomes the selection. *)
Definition onHighlightRequest (st : State) (line : Z) : State * option Message :=
  if decide (line ∈ cyNodes.*1) then
    highlightNodeAndDependencies
      (mkState (showIndirect st) (showDependents st) (Some line)
               (filterState st) (classes st))
      line true
  else (st, None).

End Cy.

(** *** The traversal functions on a list of edges

    The graph library is not part of the repository.  The four
    functions are given here by their documented meaning, for a view
    built from the edges of [GraphData]: the sources (targets) of the
    edges into (out of) a vertex, and the vertices from which (to
    which) there is a path of at least one edge. *)

Definition incomersOf (es : list (Z * Z)) (n : Z) : list Z :=
  remove_dups (fst <$> filter (λ e, e.2 = n) es).

Definition outgoersOf (es : list (Z * Z)) (n : Z) : list Z :=
  remove_dups (snd <$> filter (λ e, e.1 = n) es).

Fixpoint allHops (step : Z → list Z) (fuel : nat) (frontier found : list Z)
    : list Z :=
  match fuel with
  | O => found
  | S fuel' =>
    let next := remove_dups (frontier ≫= step) in
    let fresh := list_difference next found in
    match fresh with
    | [] => found
    | _ => allHops step fuel' next (found ++ fresh)
    end
  end.

Definition predecessorsOf (es : list (Z * Z)) (n : Z) : list Z :=
  allHops (incomersOf es) (S (length es)) [n] [].

Definition successorsOf (es : list (Z * Z)) (n : Z) : list Z :=
  allHops (outgoersOf es) (S (length es)) [n] [].

(** The message handler of the extension for a message of the view:
    nothing happens while highlights are disabled. *)
Definition onDidReceiveMessage (window : Editor.Window) (ext : Editor.Extension)
    (message : Message) : list Editor.Event * Editor.Extension :=
  if Editor.highlightsEnabled ext then
    Editor.highlightLines window ext (lineNumber message) (neighbors message)
      (indirectNeighbors message) (messageShowDependents message)
  else ([], ext).

(** *** Vocabulary of the statements about the filter *)

(** [fs'] enables no category that [fs] does not enable. *)
Definition disablesMore (fs' fs : gmap string bool) : Prop :=
  ∀ category, fs' !! category = Some true → fs !! category = Some true.

(** The classes that [applyFilters] reads. *)
Definition highlightKinds : list string :=
  ["selected"; "direct"; "indirect"; "direct-dependent"; "indirect-dependent"].

Definition sameHighlight (cls cls' : gset string) : Prop :=
  ∀ c, c ∈ highlightKinds → c ∈ cls ↔ c ∈ cls'.

(** At the vertex [n], [m'] has the highlight classes of [m] and has
    the class filtered if [m] has it. *)
Definition filtersMoreAt (n : Z) (m' m : ClassMap) : Prop :=
  sameHighlight (m n) (m' n) ∧ ("filtered" ∈ m n → "filtered" ∈ m' n).

(** At the vertex [n], the two maps agree on the highlight classes and
    on the class filtered. *)
Definition agreeAt (n : Z) (m m' : ClassMap) : Prop :=
  ∀ c, c ∈ highlightKinds ∨ c = "filtered" → c ∈ m n ↔ c ∈ m' n.

End Webview.

(** ** Concrete inputs used to run the definitions *)

Module Examples.

Import JS.

(** The position fields that occur below, with the file name and the
    line number that the patterns extract from them. *)
Definition positions : list (string * (string * Z)) :=
  [ ("a.vpr @ line 1", ("a.vpr", 1)); ("a.vpr @ line 2", ("a.vpr", 2));
    ("a.vpr @ line 3", ("a.vpr", 3)); ("a.vpr @ line 5", ("a.vpr", 5));
    ("a.vpr @ line 6", ("a.vpr", 6)); ("a.vpr @ line 7", ("a.vpr", 7));
    ("b.vpr @ line 4", ("b.vpr", 4)) ].

Definition matchPosition (position : string) : option (string * Z) :=
  snd <$> List.find (λ p, bool_decide (p.1 = position)) positions.

Definition matchLine (position : string) : option Z :=
  snd <$> matchPosition position.

Definition nodesHeader : list string := ["id#kind#subtype#a#b#c#position"].
Definition edgesHeader : list string := ["source"; "target"; "label"].

Definition nodeRow (id kind subtype position : string) : list string :=
  [id; kind; subtype; ""; ""; ""; position].

(** An explicit assertion on line 5 proved from an implicit assumption
    on line 2 and used by an implicit assertion on line 7; a node of
    another file also justifies line 7. *)
Definition bypassNodes : option (list (list string)) :=
  Some [ nodesHeader;
         nodeRow "n1" "Assertion" "Explicit" "a.vpr @ line 5";
         nodeRow "n2" "Assumption" "Implicit" "a.vpr @ line 2";
         nodeRow "n7" "Assertion" "Implicit" "a.vpr @ line 7";
         nodeRow "x1" "Assumption" "Explicit" "b.vpr @ line 4" ].

Definition bypassEdges : option (list (list string)) :=
  Some [ edgesHeader; ["n2"; "n1"; "dep"]; ["n1"; "n7"; "dep"];
         ["x1"; "n7"; "dep"] ].





(** Two rows between the same two lines, with different labels. *)
Definition labelNodes : option (list (list string)) :=
  Some [ nodesHeader;
         nodeRow "m1" "Assumption" "Explicit" "a.vpr @ line 1";
         nodeRow "m2" "Assertion" "Implicit" "a.vpr @ line 2" ].

Definition labelEdges : option (list (list string)) :=
  Some [ edgesHeader; ["m1"; "m2"; "L1"]; ["m1"; "m2"; "L2"] ].

(** An editor on a document of three lines, which is the analyzed
    file. *)
Definition document3 : Editor.TextDocument :=
  Editor.mkTextDocument "/w/a.vpr" ["method m()"; "  assert true"; "end"].

Definition editor3 : Editor.TextEditor := Editor.mkTextEditor document3.

Definition window3 : Editor.Window := Editor.mkWindow (Some editor3) [editor3].

Definition extension3 : Editor.Extension :=
  Editor.mkExtension (Some "/w/a.vpr") true false.

(** A view on the chain 1 -> 2 -> 3 of explicit assumptions, with
    vertex 3 selected, causes shown, direct neighbours only, and every
    category enabled. *)
Definition chainEdges : list (Z * Z) := [(1, 2); (2, 3)].

Definition chainNodes : list (Z * list string) :=
  [ (1, ["ExplicitAssumption"]); (2, ["ExplicitAssumption"]);
    (3, ["ExplicitAssumption"]) ].

Definition chainState : Webview.State :=
  Webview.mkState false false (Some 3) Webview.initialFilterState (λ _, ∅).

(** The text of a line with two leading spaces, and of a line with
    double quotes in it (He said, then hi between double quotes). *)
Definition indentedLine : LinesCsv.Text := [32; 32; 120]%N.

Definition quotedLine : LinesCsv.Text :=
  (codeUnits "He said " ++ [34; 104; 105; 34])%N.

(** The text of a line with a carriage return inside: a, a double quote,
    b, a carriage return, c. *)
Definition carriageReturnLine : LinesCsv.Text := [97; 34; 98; 13; 99]%N.

Definition chainHighlight :=
  Webview.highlightNodeAndDependencies chainNodes
    (Webview.incomersOf chainEdges) (Webview.outgoersOf chainEdges)
    (Webview.predecessorsOf chainEdges) (Webview.successorsOf chainEdges).

Definition chainFilterChange :=
  Webview.onFilterChange chainNodes
    (Webview.incomersOf chainEdges) (Webview.outgoersOf chainEdges)
    (Webview.predecessorsOf chainEdges) (Webview.successorsOf chainEdges).

End Examples.

(** ** Further vocabulary of the graph construction *)

Module GraphTerms.

Import JS Graph.

(** The resolution looks through [line] to [p]: the line carries the
    ExplicitAssertion category and [p] is the source of a raw edge into
    it. *)
Definition looksThrough (categories : gmap Z (list string)) (raw : list Edge)
    (line p : Z) : Prop :=
  bypassed categories line ∧ rawParent raw line p.

(** The resolution stops at [line]: the line does not carry the
    ExplicitAssertion category, or no raw edge leads into it. *)
Definition stopsAt (categories : gmap Z (list string)) (raw : list Edge)
    (line : Z) : Prop :=
  ¬ bypassed categories line ∨ ∀ p, ¬ rawParent raw line p.

(** The line is an endpoint of a raw edge. *)
Definition rawEndpoint (raw : list Edge) (line : Z) : Prop :=
  ∃ e, e ∈ raw ∧ (line = source e ∨ line = target e).

(** A row of nodes.csv that passes the checks of the loop body: it has
    at least seven fields, its first field is [id] and its position
    field gives [file] and [line]. *)
Definition placesNode (matchPosition : string → option (string * Z))
    (parts : list string) (id file : string) (line : Z) : Prop :=
  (7 ≤ length parts)%nat ∧ field parts 0 = id ∧
  matchPosition (field parts 6) = Some (file, line).

(** The categories that the loop body computes for a row. *)
Definition rowCategories (parts : list string) : list string :=
  getNodeCategories (field parts 1) (field parts 2).

(** A row of edges.csv that reaches the external-dependency part of the
    loop body: its target is on [targetLine] of the analyzed file and
    its source is on [line] of the other file [file]. *)
Definition externalRow (analyzedFileName : string) (tb : NodeTables)
    (parts : list string) (targetLine : Z) (file : string) (line : Z) : Prop :=
  (2 ≤ length parts)%nat ∧
  nodeIdToLine tb !! field parts 1 = Some targetLine ∧
  nodeIdToFile tb !! field parts 1 = Some analyzedFileName ∧
  nodeIdToFile tb !! field parts 0 = Some file ∧
  file ≠ "" ∧ file ≠ analyzedFileName ∧
  nodeIdToLine tb !! field parts 0 = Some line.

(** One step of a resolution through the parent map: [line] carries
    the ExplicitAssertion category and [p] is one of its parents. *)
Definition through (categories : gmap Z (list string)) (pm : gmap Z (list Z))
    (line p : Z) : Prop :=
  bypassed categories line ∧ parent pm line p.

(** The contract of one call of the resolution on [line] with the
    visited set [v], which returns [found] and leaves the visited set
    [v']: the set grows and holds [line]; [found] lists, once each, the
    newly visited lines at which the resolution stops; every line that
    the resolution looks through from a newly visited line is visited;
    and every newly visited line is reached from [line]. *)
Definition visits (categories : gmap Z (list string)) (pm : gmap Z (list Z))
    (line : Z) (v : gset Z) (found : list Z) (v' : gset Z) : Prop :=
  v ⊆ v' ∧ line ∈ v' ∧ NoDup found ∧
  (∀ r, r ∈ found ↔ r ∈ v' ∧ (r ∉ v) ∧ terminal categories pm r) ∧
  (∀ x y, x ∈ v' → x ∉ v → through categories pm x y → y ∈ v') ∧
  (∀ x, x ∈ v' → x ∉ v → rtc (through categories pm) line x).

(** The number of lines listed in a per-file map. *)
Definition listedLines (fileMap : gmap string (list Z)) : nat :=
  map_fold (λ _ lines count, (count + length lines)%nat) 0%nat fileMap.

(** The data rows of a table: all rows but the header, none when the
    file is missing. *)
Definition dataRows (rows : option (list (list string))) : list (list string) :=
  match rows with
  | Some rows => drop 1 rows
  | None => []
  end.

End GraphTerms.

(** ** The controls of the graph view *)

Module Controls.

Import Webview.

Section Cy.

Variable cyNodes : list (Z * list string).
Variables incomers outgoers predecessors successors : Z → list Z.

(** [setAllCheckboxes(checked)], the body of the handlers of the
    Select All and Deselect All buttons. *)
Definition setAllCheckboxes (st : State) (checked : bool)
    : State * option Message :=
  let fs := foldl (λ fs category, <[category := checked]> fs)
                  (filterState st) checkboxes in
  rehighlight cyNodes incomers outgoers predecessors successors
    (mkState true (showDependents st) (selectedNode st) fs
             (applyFilters cyNodes fs (classes st))).

(** What the user and the extension can do to the view. *)
Inductive Action :=
| Tap (node : Z)
| Check (category : string) (checked : bool)
| SelectAll
| DeselectAll
| ToggleDirection
| ToggleIndirect
| HighlightRequest (line : Z).

(** The handler that runs for an action.  A tap needs a vertex of the
    view under it, and a change event needs one of the four
    checkboxes. *)
Definition handle (st : State) (action : Action) : State * option Message :=
  match action with
  | Tap node =>
    if decide (node ∈ cyNodes.*1)
    then onTapNode cyNodes incomers outgoers predecessors successors st node
    else (st, None)
  | Check category checked =>
    if decide (category ∈ checkboxes)
    then onFilterChange cyNodes incomers outgoers predecessors successors
           st category checked
    else (st, None)
  | SelectAll => setAllCheckboxes st true
  | DeselectAll => setAllCheckboxes st false
  | ToggleDirection =>
    onToggleDirection cyNodes incomers outgoers predecessors successors st
  | ToggleIndirect =>
    onToggleIndirect cyNodes incomers outgoers predecessors successors st
  | HighlightRequest line =>
    onHighlightRequest cyNodes incomers outgoers predecessors successors st line
  end.

(** A sequence of actions: the state reached and the messages posted to
    the extension, in order. *)
Fixpoint run (st : State) (actions : list Action) : State * list Message :=
  match actions with
  | [] => (st, [])
  | action :: rest =>
    let '(st1, message) := handle st action in
    let '(st2, messages) := run st1 rest in
    (st2, option_list message ++ messages)
  end.

End Cy.

(** *** Vocabulary of the statements about the controls *)

(** Some category of the list is enabled in the filter. *)
Definition enabledIn (fs : gmap string bool) (categories : list string) : Prop :=
  ∃ category, category ∈ categories ∧ fs !! category = Some true.




End Controls.

(** ** The decorations of an editor *)

Module Decorations.

Import Editor.

#[export] Instance DecorationType_eq_dec : EqDecision DecorationType.
Proof. solve_decision. Defined.

#[export] Instance Range_eq_dec : EqDecision Range.
Proof. solve_decision. Defined.

#[export] Instance TextDocument_eq_dec : EqDecision TextDocument.
Proof. solve_decision. Defined.

#[export] Instance TextEditor_eq_dec : EqDecision TextEditor.
Proof. solve_decision. Defined.

(** The ranges that an editor shows for each decoration type.
    [editor.setDecorations(type, ranges)] replaces the ranges of that
    type on that editor and leaves the other types alone.  (Editors
    are compared by value; every call of one run of [highlightLines]
    is made on the same editor.) *)
Definition Shown : Type := DecorationType → list Range.

Definition applyEvent (target : TextEditor) (shown : Shown) (event : Event)
    : Shown :=
  match event with
  | SetDecorations editor decoration ranges =>
    if decide (editor = target)
    then λ d, if decide (d = decoration) then ranges else shown d
    else shown
  | _ => shown
  end.

Definition shownAfter (target : TextEditor) (shown : Shown)
    (events : list Event) : Shown :=
  foldl (applyEvent target) shown events.

(** The lines that a request asks to decorate with each type, for a
    document of [count] lines. *)
Definition requestedLines (count lineNumber : Z) (neighbors indirectNeighbors : list Z)
    (showDependents : bool) (decoration : DecorationType) : list Z :=
  match decoration with
  | selectedDecoration => [lineNumber]
  | directDependencyDecoration =>
    if showDependents then [] else keptNeighbors count lineNumber neighbors
  | indirectDependencyDecoration =>
    if showDependents then []
    else keptNeighbors count lineNumber indirectNeighbors
  | directDependantDecoration =>
    if showDependents then keptNeighbors count lineNumber neighbors else []
  | indirectDependantDecoration =>
    if showDependents then keptNeighbors count lineNumber indirectNeighbors
    else []
  end.

(** What a call recorded in a trace may be, for a run of
    [highlightLines] on the request for [lineNumber]: a call on an
    editor that shows the analyzed file and is the active editor or a
    visible one, the warning for that line, or the timer of 100 ms; no
    error message. *)
Definition expectedEvent (window : Window) (ext : Extension) (lineNumber : Z)
    (event : Event) : Prop :=
  match event with
  | SetDecorations editor _ _ | RevealRange editor _ =>
    analyzedFileUri ext = Some (fsPath (document editor)) ∧
    (activeTextEditor window = Some editor ∨ editor ∈ visibleTextEditors window)
  | ShowWarningMessage message => message = outOfRangeMessage lineNumber
  | ShowErrorMessage _ => False
  | ResetUpdatingAfter milliseconds => milliseconds = 100
  end.

(** No line is given two decoration types by the calls of a trace. *)
Definition oneColourPerLine (events : list Event) : Prop :=
  ∀ editor1 decoration1 ranges1 editor2 decoration2 ranges2 line,
    SetDecorations editor1 decoration1 ranges1 ∈ events →
    SetDecorations editor2 decoration2 ranges2 ∈ events →
    decoration1 ≠ decoration2 →
    line ∈ linesOf ranges1 → line ∉ linesOf ranges2.

End Decorations.

(** ** The listeners of the extension *)

Module Listeners.

Import Editor Decorations.

(** The static fields of the class: whether the panel of the graph
    view exists, and the fields read by [highlightLines]. *)
Record Session := mkSession {
  panelOpen : bool;
  extension : Extension
}.

(** [clearHighlights()] *)
Definition clearHighlights (window : Window) (ext : Extension) : list Event :=
  match findEditor window ext with
  | Some editor => clearEditorDecorations editor
  | None => []
  end.

(** The listener of [onDidChangeTextEditorSelection], for an event on
    [editor] with the cursor on line [activeLine] (counted from 0): the
    line number posted to the graph view, if any. *)
Definition onDidChangeTextEditorSelection (ss : Session) (editor : TextEditor)
    (activeLine : Z) : option Z :=
  let ext := extension ss in
  if negb (panelOpen ss) || negb (highlightsEnabled ext) then None
  else if isUpdatingHighlights ext then None
  else if showsAnalyzedFile ext editor then Some (activeLine + 1)
  else None.

(** The listener of [onDidChangeTextDocument], for a change of the
    document [changed]. *)
Definition onDidChangeTextDocument (window : Window) (ss : Session)
    (changed : TextDocument) : list Event * Session :=
  let ext := extension ss in
  if negb (panelOpen ss) then ([], ss) else
  match activeTextEditor window with
  | Some editor =>
    if decide (changed = document editor
               ∧ analyzedFileUri ext = Some (fsPath changed))
    then (clearHighlights window ext,
          mkSession (panelOpen ss)
            (mkExtension (analyzedFileUri ext) false (isUpdatingHighlights ext)))
    else ([], ss)
  | None => ([], ss)
  end.

(** The listener of [onDidChangeActiveTextEditor], for the new active
    editor, if there is one. *)
Definition onDidChangeActiveTextEditor (window : Window) (ss : Session)
    (editor : option TextEditor) : list Event :=
  let ext := extension ss in
  if negb (panelOpen ss) then [] else
  match editor, analyzedFileUri ext with
  | Some e, Some analyzed =>
    if decide (fsPath (document e) ≠ analyzed)
    then clearHighlights window ext else []
  | _, _ => []
  end.

(** The listener of [onDidDispose] of the panel. *)
Definition onDidDispose (window : Window) (ss : Session) : list Event * Session :=
  let ext := extension ss in
  (clearHighlights window ext,
   mkSession false (mkExtension None false (isUpdatingHighlights ext))).

(** The callback of the timer started by [highlightLines]. *)
Definition onTimer (ss : Session) : Session :=
  let ext := extension ss in
  mkSession (panelOpen ss)
    (mkExtension (analyzedFileUri ext) (highlightsEnabled ext) false).

End Listeners.

(** ** The label of a vertex: [getLineType] *)

Module LineType.

Import JS LinesCsv.

Definition colon : N := 58%N.
Definition equalsSign : N := 61%N.
Definition ellipsis : N := 8230%N.

(** The class of characters that a regular expression writes as a
    capital S after a backslash: everything that [trim] does not
    remove. *)
Definition nonSpace (c : N) : bool := negb (isWhiteSpace c).

(** [text.includes(needle)] for the needle made of a colon and an
    equals sign. *)
Fixpoint includesAssign (s : Text) : bool :=
  match s with
  | c1 :: r =>
    match r with
    | c2 :: _ => ((c1 =? colon)%N && (c2 =? equalsSign)%N) || includesAssign r
    | [] => false
    end
  | [] => false
  end.

(** The match of the pattern for one or more non-space characters at
    the start of the text. *)
Definition firstWord (s : Text) : option Text :=
  match takeWhile nonSpace s with
  | [] => None
  | word => Some word
  end.

(** Group 1 of the pattern for a word, one or more spaces and a second
    word at the start of the text.  Every quantifier is greedy and none
    can give back a character, since a word can only be followed by a
    space and the spaces by a non-space character. *)
Definition secondWord (s : Text) : option Text :=
  match takeWhile nonSpace s with
  | [] => None
  | _ =>
    let rest := dropWhile nonSpace s in
    match takeWhile isWhiteSpace rest with
    | [] => None
    | _ =>
      match takeWhile nonSpace (dropWhile isWhiteSpace rest) with
      | [] => None
      | word => Some word
      end
    end
  end.

(** [word.endsWith(":") ? word.slice(0, -1) : word] *)
Definition dropLastColon (word : Text) : Text :=
  match reverse word with
  | c :: r => if (c =? colon)%N then reverse r else word
  | [] => word
  end.

Record LineInfo := mkLineInfo {
  lineType : Text;
  assignmentVariable : Text
}.

(** [getLineType(lineContent)] *)
Definition getLineType (lineContent : Text) : LineInfo :=
  let trimmedLine := trim lineContent in
  match trimmedLine with
  | [] => mkLineInfo (codeUnits "other") []
  | _ =>
    let lineType := default (codeUnits "other") (firstWord trimmedLine) in
    let '(lineType, assignmentVariable) :=
      if includesAssign lineContent then
        let assignmentVariable :=
          if decide (lineType = codeUnits "var") then
            match secondWord trimmedLine with
            | Some word => dropLastColon word
            | None => lineType
            end
          else lineType in
        let assignmentVariable :=
          if decide (11 < length assignmentVariable)%nat
          then take 10 assignmentVariable ++ [ellipsis]
          else assignmentVariable in
        (codeUnits "assignment", assignmentVariable)
      else (lineType, []) in
    let lineType :=
      if decide (10 < length lineType)%nat
      then take 9 lineType ++ [ellipsis] else lineType in
    mkLineInfo lineType assignmentVariable
  end.

(** *** Vocabulary of the statements about the labels *)

(** The text is empty or consists of white space. *)
Definition blank (s : Text) : Prop := Forall (λ c, isWhiteSpace c = true) s.

End LineType.

(** ** The earlier revisions: the graph read back from the derived file *)

Module LegacyGraph.

Import JS LinesCsv.

Definition minusSign : N := 45%N.
Definition plusSign : N := 43%N.
Definition zeroDigit : N := 48%N.
Definition lowerX : N := 120%N.
Definition upperX : N := 88%N.

(** The value of a character as a digit of the radix, if it is one. *)
Definition digitValue (radix : Z) (c : N) : option Z :=
  let value :=
    if isDigit c then Some (Z.of_N c - 48)%Z
    else if ((97 <=? c) && (c <=? 122))%N then Some (Z.of_N c - 87)%Z
    else if ((65 <=? c) && (c <=? 90))%N then Some (Z.of_N c - 55)%Z
    else None in
  match value with
  | Some d => if decide (d < radix)%Z then Some d else None
  | None => None
  end.

(** The digits of the longest prefix made of digits of the radix. *)
Fixpoint digitsIn (radix : Z) (s : Text) : list Z :=
  match s with
  | c :: r =>
    match digitValue radix c with
    | Some d => d :: digitsIn radix r
    | None => []
    end
  | [] => []
  end.

(** [parseInt(text)] without a radix: leading white space is skipped,
    a sign is read, the prefix 0x or 0X selects radix 16, and the
    longest run of digits is the number; [None] stands for NaN. *)
Definition parseInt (s : Text) : option Z :=
  let s := dropWhile isWhiteSpace s in
  let '(sign, s) :=
    match s with
    | c :: r =>
      if (c =? minusSign)%N then ((-1)%Z, r)
      else if (c =? plusSign)%N then (1%Z, r) else (1%Z, s)
    | [] => (1%Z, [])
    end in
  let '(radix, s) :=
    match s with
    | c1 :: c2 :: r =>
      if ((c1 =? zeroDigit) && ((c2 =? lowerX) || (c2 =? upperX)))%N
      then (16%Z, r) else (10%Z, s)
    | _ => (10%Z, s)
    end in
  match digitsIn radix s with
  | [] => None
  | digits => Some (sign * foldl (λ acc d, acc * radix + d) 0 digits)%Z
  end.

(** [text.split(separator)] for a separator of one character. *)
Fixpoint splitAt (separator : N) (s : Text) : list Text :=
  match s with
  | [] => [[]]
  | c :: r =>
    if (c =? separator)%N then [] :: splitAt separator r
    else match splitAt separator r with
         | first :: others => (c :: first) :: others
         | [] => [[c]]
         end
  end.

(** [text.startsWith(prefix)] and [text.includes(needle)]. *)
Fixpoint startsWith (prefix s : Text) : bool :=
  match prefix, s with
  | [], _ => true
  | p :: prefix', c :: r => (p =? c)%N && startsWith prefix' r
  | _ :: _, [] => false
  end.

Fixpoint includes (needle s : Text) : bool :=
  startsWith needle s ||
  match s with
  | _ :: r => includes needle r
  | [] => false
  end.

(** The vertices, in the order in which they were first met, and the
    edges, in the order of the rows. *)
Record Loaded := mkLoaded {
  nodes : list Z;
  edges : list (Z * Z)
}.

(** Body of the loop over the lines of edges_translated.csv. *)
Definition rowStep (st : Loaded) (line : Text) : Loaded :=
  let parts := splitAt comma line in
  if decide (length parts < 2)%nat then st else
  match parseInt (trim (default [] (parts !! 0%nat))),
        parseInt (trim (default [] (parts !! 1%nat))) with
  | Some source, Some target =>
    mkLoaded (setAdd target (setAdd source (nodes st)))
             (edges st ++ [(source, target)])
  | _, _ => st
  end.

(** The part of [loadGraphFromCSV] of the two earlier revisions that
    reads the edges: [csvContent] is the content of
    edges_translated.csv. *)
Definition loadEdges (csvContent : Text) : Loaded :=
  let lines := splitLines (trim csvContent) in
  let startIndex :=
    if includes (codeUnits "source") (default [] (head lines))
    then 1%nat else 0%nat in
  foldl rowStep (mkLoaded [] []) (drop startIndex lines).

Section Translate.

(** The pattern of [translateEdgesToLineNumbers] on the position field,
    followed by [parseInt]. *)
Variable matchLine : string → option Z.

(** Body of the loop over the rows of nodes.csv in the two earlier
    revisions: the position is the sixth field. *)
Definition nodeStep (nodeToLine : gmap string Z) (parts : list string)
    : gmap string Z :=
  if decide (length parts < 6)%nat then nodeToLine else
  let nodeId := field parts 0 in
  let position := field parts 5 in
  match matchLine position with
  | Some lineNumber => <[nodeId := lineNumber]> nodeToLine
  | None => nodeToLine
  end.

Definition buildNodeToLine (rows : list (list string)) : gmap string Z :=
  foldl nodeStep ∅ (drop 1 rows).

(** [translateEdgesToLineNumbers(exportDir)] of the two earlier
    revisions; the loop over the rows of edges.csv is the one of the
    current revision. *)
Definition translateEdgesToLineNumbers
    (nodesRows edgesRows : option (list (list string)))
    : option Translate.Translated :=
  match nodesRows, edgesRows with
  | Some nrows, Some erows =>
    let nodeToLine := buildNodeToLine nrows in
    let st := foldl (Translate.edgeStep nodeToLine) (Translate.mkRows [] ∅)
                    (drop 1 erows) in
    Some (Translate.mkTranslated (default [] (head erows))
            (Translate.translatedEdges st))
  | _, _ => None
  end.

End Translate.

(** The content that [translateEdgesToLineNumbers] writes: the header
    line of edges.csv and the translated rows, joined by newlines. *)
Definition translatedFile (headerLine : Text) (rows : list string) : Text :=
  joinLines (headerLine :: (codeUnits <$> rows)).

(** *** Vocabulary of the statements about the earlier revisions *)

(** A row of the derived file, as the two lines and the label. *)
Definition Triple : Type := Z * Z * string.

Definition rowOf (triple : Triple) : string :=
  Translate.edgeKey triple.1.1 triple.1.2 triple.2.

Definition pairOf (triple : Triple) : Z * Z := triple.1.

(** [inner] is [outer] without a run of white space at its start and
    one at its end. *)
Definition withoutMargins (outer inner : Text) : Prop :=
  ∃ lead trail,
    outer = lead ++ inner ++ trail ∧
    Forall (λ c, isWhiteSpace c = true) lead ∧
    Forall (λ c, isWhiteSpace c = true) trail.

(** The text has a character that is not white space. *)
Definition hasInk (s : Text) : Prop := Exists (λ c, isWhiteSpace c = false) s.

End LegacyGraph.

(** ** Further concrete inputs *)

Module MoreExamples.

Import JS Examples.

(** Line 7 of the analyzed file is justified from lines 9 and 4 of
    b.vpr (in that order, line 4 twice) and from line 2 of c.vpr. *)
Definition externalPositions : list (string * (string * Z)) :=
  [ ("a.vpr @ line 7", ("a.vpr", 7)); ("a.vpr @ line 2", ("a.vpr", 2));
    ("b.vpr @ line 9", ("b.vpr", 9)); ("b.vpr @ line 4", ("b.vpr", 4));
    ("c.vpr @ line 2", ("c.vpr", 2)) ].

Definition matchExternal (position : string) : option (string * Z) :=
  snd <$> List.find (λ p, bool_decide (p.1 = position)) externalPositions.

Definition externalNodes : option (list (list string)) :=
  Some [ nodesHeader;
         nodeRow "t7" "Assertion" "Implicit" "a.vpr @ line 7";
         nodeRow "s2" "Assumption" "Explicit" "a.vpr @ line 2";
         nodeRow "b9" "Assumption" "Explicit" "b.vpr @ line 9";
         nodeRow "b4" "Assumption" "Implicit" "b.vpr @ line 4";
         nodeRow "b4again" "Assumption" "Implicit" "b.vpr @ line 4";
         nodeRow "c2" "Assumption" "Explicit" "c.vpr @ line 2" ].

Definition externalEdges : option (list (list string)) :=
  Some [ edgesHeader; ["s2"; "t7"; "dep"]; ["b9"; "t7"; "dep"];
         ["b4"; "t7"; "dep"]; ["b4again"; "t7"; "dep"]; ["c2"; "t7"; "dep"] ].

(** A view in which line 3 depends on line 1, an explicit assumption,
    and on line 4, which is only a postcondition. *)
Definition postconditionEdges : list (Z * Z) := [(1, 3); (4, 3)].

Definition postconditionNodes : list (Z * list string) :=
  [ (1, ["ExplicitAssumption"]); (3, ["ImplicitAssertion"]);
    (4, ["ExplicitAssertionPostcondition"]) ].

Definition postconditionRun :=
  Controls.run postconditionNodes
    (Webview.incomersOf postconditionEdges)
    (Webview.outgoersOf postconditionEdges)
    (Webview.predecessorsOf postconditionEdges)
    (Webview.successorsOf postconditionEdges).

(** The session of the three-line document: the panel is open,
    highlights are enabled and no update is in progress. *)
Definition session3 : Listeners.Session := Listeners.mkSession true extension3.

(** A second editor, on another file, which is the active one beside
    the editor of the analyzed file. *)
Definition otherEditor : Editor.TextEditor :=
  Editor.mkTextEditor (Editor.mkTextDocument "/w/b.vpr" ["method n()"]).

Definition splitWindow : Editor.Window :=
  Editor.mkWindow (Some otherEditor) [otherEditor; editor3].

(** A range left on the editor by an earlier highlight. *)
Definition staleRange : Editor.Range := Editor.mkRange 0 0 0 10.

(** A file of two lines: x between spaces, and y. *)
Definition twoLines : LinesCsv.Text := [32; 120; 32; 10; 121]%N.

(** The line var x: Int := 5, indented, and a line with a long first
    word. *)
Definition declarationLine : LinesCsv.Text :=
  codeUnits "  var x: Int := 5".

Definition longWordLine : LinesCsv.Text := codeUnits "ensuresSomethingLong(x)".

(** The header line of edges.csv, and the rows that the translation
    writes for the two labelled rows between lines 1 and 2. *)
Definition headerLine : LinesCsv.Text := codeUnits "source,target,label".

Definition labelRows : list string := ["1,2,L1"; "1,2,L2"].

(** The two nodes of [labelNodes] as rows of the earlier format of
    nodes.csv, with the position in the sixth field. *)
Definition legacyLabelNodes : option (list (list string)) :=
  Some [ ["id#kind#subtype#a#b#position"];
         ["m1"; "Assumption"; "Explicit"; ""; ""; "a.vpr @ line 1"];
         ["m2"; "Assertion"; "Implicit"; ""; ""; "a.vpr @ line 2"] ].

(** The four nodes of [bypassNodes] as rows of the earlier format of
    nodes.csv. *)
Definition legacyBypassNodes : option (list (list string)) :=
  Some [ ["id#kind#subtype#a#b#position"];
         ["n1"; "Assertion"; "Explicit"; ""; ""; "a.vpr @ line 5"];
         ["n2"; "Assumption"; "Implicit"; ""; ""; "a.vpr @ line 2"];
         ["n7"; "Assertion"; "Implicit"; ""; ""; "a.vpr @ line 7"];
         ["x1"; "Assumption"; "Explicit"; ""; ""; "b.vpr @ line 4"] ].

End MoreExamples.

(** ** Properties of the graph construction *)

Module GraphFacts.

Import JS Graph.

Lemma elem_of_setAdd `{EqDecision A} (x y : A) (s : list A) :
  x ∈ setAdd y s ↔ x = y ∨ x ∈ s.
Proof.
  unfold setAdd. case_decide as Hy.
  - split; [by right | intros [-> | ?]; done].
  - rewrite elem_of_app, list_elem_of_singleton. tauto.
Qed.

Lemma NoDup_setAdd `{EqDecision A} (y : A) (s : list A) :
  NoDup s → NoDup (setAdd y s).
Proof.
  intros Hs. unfold setAdd. case_decide as Hy; [done |].
  apply NoDup_app. split_and!; [done | | apply NoDup_singleton].
  intros x Hx Hx'. apply list_elem_of_singleton in Hx'. by subst.
Qed.

Lemma size_union_le (X Y : gset Z) : (size (X ∪ Y) ≤ size X + size Y)%nat.
Proof.
  rewrite size_union_alt.
  assert (size (Y ∖ X) ≤ size Y)%nat; [apply subseteq_size; set_solver | lia].
Qed.

Lemma size_list_to_set_le (l : list Z) :
  (size (list_to_set l : gset Z) ≤ length l)%nat.
Proof.
  induction l as [| x l IH]; simpl.
  - change (size (∅ : gset Z) ≤ 0)%nat. by rewrite size_empty.
  - change (size ({[x]} ∪ (list_to_set l : gset Z)) ≤ S (length l))%nat.
    etrans; [apply size_union_le |]. rewrite size_singleton. lia.
Qed.

(** *** The string keys of the edge sets identify the pair of lines *)

Lemma commaFree_uint d : commaFree (NilEmpty.string_of_uint d).
Proof. induction d; simpl; try split; done. Qed.

Lemma commaFree_showZ z : commaFree (showZ z).
Proof.
  unfold showZ, NilZero.string_of_int.
  destruct (Z.to_int z) as [d | d]; simpl.
  - destruct d; simpl; try split; try done; apply commaFree_uint.
  - split; [done |]. destruct d; simpl; try split; try done;
      apply commaFree_uint.
Qed.

Lemma showZ_inj z z' : showZ z = showZ z' → z = z'.
Proof.
  unfold showZ. intros Heq. apply DecimalZ.to_int_inj.
  assert (∀ y, Z.to_int y ≠ Pos Nil ∧ Z.to_int y ≠ Neg Nil) as Hnn.
  { intros [| q | q]; simpl; split; try done.
    - unfold Pos.to_int. intros [= Hq].
      by apply DecimalPos.Unsigned.to_uint_nonnil in Hq.
    - intros [= Hq]. by apply DecimalPos.Unsigned.to_uint_nonnil in Hq. }
  destruct (Hnn z) as [Hz1 Hz2]. destruct (Hnn z') as [Hz1' Hz2'].
  pose proof (NilZero.isi _ Hz1 Hz2) as E1.
  pose proof (NilZero.isi _ Hz1' Hz2') as E2.
  rewrite Heq in E1. congruence.
Qed.

Lemma append_cons x a b : String x a +:+ b = String x (a +:+ b).
Proof. reflexivity. Qed.

Lemma append_nil b : "" +:+ b = b.
Proof. reflexivity. Qed.

Lemma append_comma_inj a b c d :
  commaFree a → commaFree c →
  a +:+ "," +:+ b = c +:+ "," +:+ d → a = c ∧ b = d.
Proof.
  revert c. induction a as [| x a IH]; intros [| y c];
    rewrite ?append_cons, ?append_nil; simpl.
  - intros _ _ [= ->]. done.
  - intros _ [Hy _] [= <-]. done.
  - intros [Hx _] _ [= ->]. done.
  - intros [_ Ha] [_ Hc] [= -> Hrest].
    destruct (IH c Ha Hc Hrest) as [-> ->]. done.
Qed.

Lemma edgeKey_inj s t s' t' :
  edgeKey s t = edgeKey s' t' → s = s' ∧ t = t'.
Proof.
  unfold edgeKey. intros Heq.
  apply append_comma_inj in Heq as [H1 H2]; [| apply commaFree_showZ ..].
  split; by apply showZ_inj.
Qed.

(** *** The parent map lists exactly the sources of the raw edges *)

Lemma parentStep_parents pm e t p :
  p ∈ parentsOf (parentStep pm e) t ↔
  (p = source e ∧ t = target e) ∨ p ∈ parentsOf pm t.
Proof.
  unfold parentsOf, parentStep.
  destruct (decide (t = target e)) as [-> | Hne].
  - rewrite lookup_insert_eq. simpl. rewrite elem_of_setAdd. naive_solver.
  - rewrite lookup_insert_ne by done. naive_solver.
Qed.

Lemma foldl_parentStep_parents raw pm t p :
  p ∈ parentsOf (foldl parentStep pm raw) t ↔
  (p, t) ∈ raw ∨ p ∈ parentsOf pm t.
Proof.
  revert pm. induction raw as [| e raw IH]; intros pm; simpl.
  - rewrite elem_of_nil. tauto.
  - rewrite IH, parentStep_parents, elem_of_cons.
    destruct e as [s' t']. unfold source, target. simpl. naive_solver.
Qed.

Lemma buildParentMap_parents raw t p :
  p ∈ parentsOf (buildParentMap raw) t ↔ (p, t) ∈ raw.
Proof.
  unfold buildParentMap. rewrite foldl_parentStep_parents.
  unfold parentsOf. rewrite lookup_empty. simpl.
  rewrite elem_of_nil. tauto.
Qed.

Lemma noParents_raw raw line :
  noParents (buildParentMap raw) line ↔ ∀ p, (p, line) ∉ raw.
Proof.
  unfold noParents. split.
  - intros Hnil p Hp. apply buildParentMap_parents in Hp.
    rewrite Hnil in Hp. by apply elem_of_nil in Hp.
  - intros Hno. destruct (parentsOf (buildParentMap raw) line) as [| p ps] eqn:E;
      [done |].
    exfalso. apply (Hno p), buildParentMap_parents. rewrite E. left.
Qed.

(** *** One resolution *)

Section ResolveFacts.

Variable categories : gmap Z (list string).
Variable pm : gmap Z (list Z).

Local Abbreviation bypassed := (Graph.bypassed categories).
Local Abbreviation terminal := (Graph.terminal categories pm).
Local Abbreviation parent := (Graph.parent pm).

Lemma shouldBypass_true line :
  shouldBypass (default [] (categories !! line)) = true ↔ bypassed line.
Proof. unfold shouldBypass, bypassed. apply bool_decide_eq_true. Qed.

Lemma resolveParents_Forall (X : Z → Prop) rec ps acc v rs v' :
  (∀ p w rs' w', p ∈ ps → rec p w = Some (rs', w') → Forall X rs') →
  Forall X acc →
  resolveParents rec ps acc v = Some (rs, v') →
  Forall X rs.
Proof.
  revert acc v. induction ps as [| p ps IH]; intros acc v Hrec Hacc; simpl.
  - intros [= <- <-]. done.
  - destruct (rec p v) as [[found w] |] eqn:Ep; [| done].
    apply IH.
    + intros q u rs' u' Hq. apply Hrec. by right.
    + apply Forall_app. split; [done |]. eapply Hrec; [left | done].
Qed.

(** Every line returned by a resolution started at [line] satisfies
    any property that holds of the lines where the code stops and is
    inherited along the bypassed parents. *)
Lemma resolveRealSources_Forall (X : Z → Z → Prop) :
  (∀ line, terminal line → X line line) →
  (∀ line p r, bypassed line → parent line p → X p r → X line r) →
  ∀ fuel line v rs v',
    resolveRealSources categories pm fuel line v = Some (rs, v') →
    Forall (X line) rs.
Proof.
  intros Hstop Hup. induction fuel as [| fuel IH]; intros line v rs v'; simpl;
    [done |].
  case_decide as Hv; [by intros [= <- <-] |].
  destruct (shouldBypass (default [] (categories !! line))) eqn:Eb; simpl.
  - apply shouldBypass_true in Eb.
    destruct (pm !! line) as [ps |] eqn:Eps.
    + case_decide as Hlen.
      * intros [= <- <-]. repeat constructor. apply Hstop. right.
        unfold noParents, parentsOf. rewrite Eps. simpl.
        by apply nil_length_inv.
      * intros Hres. eapply resolveParents_Forall; [| | exact Hres]; [| done].
        intros p w rs' w' Hp Hrec. eapply Forall_impl; [by eapply IH |].
        intros r Hr. simpl in Hr. eapply Hup; [done | | done].
        unfold parent, parentsOf. by rewrite Eps.
    + intros [= <- <-]. repeat constructor. apply Hstop. right.
      unfold noParents, parentsOf. by rewrite Eps.
  - intros [= <- <-]. repeat constructor. apply Hstop. left.
    intros Hb. apply shouldBypass_true in Hb. congruence.
Qed.

(** A real source is a line where the resolution stops, and it is the
    line itself or one of its ancestors in the parent map. *)
Lemma resolveRealSources_sound fuel line v rs v' r :
  resolveRealSources categories pm fuel line v = Some (rs, v') →
  r ∈ rs → terminal r ∧ rtc parent line r.
Proof.
  intros Hres Hr.
  pose proof (resolveRealSources_Forall
                (λ l x, terminal x ∧ rtc parent l x)) as HF.
  eapply Forall_forall in HF; [exact HF | | | exact Hres | exact Hr].
  - intros l Hl. split; [done | apply rtc_refl].
  - intros l p x _ Hp [Hx Hpx]. split; [done |]. by eapply rtc_l.
Qed.

(** More fuel does not change a result. *)
Lemma resolveParents_mono rec rec' ps acc v res :
  (∀ p w res', rec p w = Some res' → rec' p w = Some res') →
  resolveParents rec ps acc v = Some res →
  resolveParents rec' ps acc v = Some res.
Proof.
  intros Hrec. revert acc v. induction ps as [| p ps IH]; intros acc v; simpl;
    [done |].
  destruct (rec p v) as [[found w] |] eqn:Ep; [| done].
  rewrite (Hrec _ _ _ Ep). apply IH.
Qed.

Lemma resolveRealSources_mono fuel fuel' line v res :
  (fuel ≤ fuel')%nat →
  resolveRealSources categories pm fuel line v = Some res →
  resolveRealSources categories pm fuel' line v = Some res.
Proof.
  revert fuel' line v res. induction fuel as [| fuel IH];
    intros fuel' line v res Hle; simpl; [done |].
  destruct fuel' as [| fuel']; [lia |]. simpl.
  case_decide; [done |].
  destruct (negb _); [done |].
  destruct (pm !! line) as [ps |]; [| done].
  case_decide; [done |].
  apply resolveParents_mono. intros p w res'. apply IH. lia.
Qed.

(** Termination: over a set [U] of lines that contains the start and
    is closed under parents, a resolution needs at most one nested
    call per line of [U] that is not yet visited. *)
Section Fuel.

Variable U : gset Z.
Hypothesis U_closed : ∀ line p, parent line p → p ∈ U.

Lemma resolveParents_enough_fuel fuel ps acc v :
  (∀ line w, line ∈ U → (size (U ∖ w) < fuel)%nat →
     ∃ rs w', resolveRealSources categories pm fuel line w = Some (rs, w')
              ∧ w ⊆ w') →
  (∀ p, p ∈ ps → p ∈ U) →
  (size (U ∖ v) < fuel)%nat →
  ∃ rs v', resolveParents (resolveRealSources categories pm fuel) ps acc v
           = Some (rs, v') ∧ v ⊆ v'.
Proof.
  intros IH. revert acc v. induction ps as [| p ps IHps];
    intros acc v Hps Hsz; simpl.
  - by eexists _, _.
  - destruct (IH p v) as (found & w & -> & Hw); [apply Hps; left | done |].
    destruct (IHps (acc ++ found) w) as (rs & v' & -> & Hv').
    + intros q Hq. apply Hps. by right.
    + eapply Nat.le_lt_trans; [| exact Hsz].
      apply subseteq_size. set_solver.
    + eexists _, _. split; [done | set_solver].
Qed.

Lemma resolveRealSources_enough_fuel_in fuel line v :
  line ∈ U → (size (U ∖ v) < fuel)%nat →
  ∃ rs v', resolveRealSources categories pm fuel line v = Some (rs, v')
           ∧ v ⊆ v'.
Proof.
  revert line v. induction fuel as [| fuel IH]; intros line v HU Hsz;
    [lia |]. simpl.
  case_decide as Hv; [by eexists _, _ |].
  destruct (negb _); [eexists _, _; split; [done | set_solver] |].
  destruct (pm !! line) as [ps |] eqn:Eps;
    [| eexists _, _; split; [done | set_solver]].
  case_decide; [eexists _, _; split; [done | set_solver] |].
  assert (size (U ∖ ({[line]} ∪ v)) < size (U ∖ v))%nat as Hlt.
  { apply subset_size. set_solver. }
  destruct (resolveParents_enough_fuel fuel ps [] ({[line]} ∪ v))
    as (rs & v' & -> & Hv'); [exact IH | | lia |].
  - intros p Hp. apply (U_closed line). unfold parent, parentsOf.
    by rewrite Eps.
  - eexists _, _. split; [done | set_solver].
Qed.

End Fuel.

End ResolveFacts.

(** *** The rewrite pass *)

Section RebuildFacts.

Variable categories : gmap Z (list string).
Variable raw : list Edge.

Local Abbreviation pm := (buildParentMap raw).

(** The bound of [realSourcesOf] is never reached, and any larger
    bound gives the same lines. *)
Lemma realSourcesOf_enough_fuel line :
  ∃ v', ∀ fuel, (resolveFuel raw ≤ fuel)%nat →
    resolveRealSources categories pm fuel line ∅
    = Some (realSourcesOf categories raw line, v').
Proof.
  set (U := ({[line]} ∪ list_to_set (source <$> raw) : gset Z)).
  destruct (resolveRealSources_enough_fuel_in categories pm U) with
    (fuel := resolveFuel raw) (line := line) (v := (∅ : gset Z))
    as (rs & v' & Hres & _).
  - intros l p Hp. apply buildParentMap_parents in Hp.
    apply elem_of_union_r, elem_of_list_to_set, list_elem_of_fmap.
    by exists (p, l).
  - set_solver.
  - unfold resolveFuel.
    assert (size (U ∖ ∅) ≤ size U)%nat by (apply subseteq_size; set_solver).
    assert (size U ≤ 1 + length raw)%nat; [| lia].
    etrans; [apply size_union_le |]. rewrite size_singleton.
    pose proof (size_list_to_set_le (source <$> raw)) as Hle.
    rewrite length_fmap in Hle. lia.
  - exists v'. intros fuel Hfuel.
    unfold realSourcesOf. rewrite Hres.
    by apply (resolveRealSources_mono _ _ _ _ _ _ _ Hfuel).
Qed.

Lemma realSourcesOf_sound line r :
  r ∈ realSourcesOf categories raw line →
  terminal categories pm r ∧ rtc (parent pm) line r.
Proof.
  destruct (realSourcesOf_enough_fuel line) as [v' Hres].
  intros Hr. eapply resolveRealSources_sound; [| exact Hr].
  apply (Hres (resolveFuel raw)). done.
Qed.

Lemma emitStep_keyed tgt rs r : keyed rs → keyed (emitStep tgt rs r).
Proof.
  intros Hk. unfold emitStep. case_decide; [done |]. case_decide; [done |].
  unfold keyed in *. intros r' t'. simpl. rewrite elem_of_union, elem_of_singleton, elem_of_app,
    list_elem_of_singleton, Hk. split.
  - intros [Heq | ?]; [| by left]. apply edgeKey_inj in Heq as [-> ->].
    by right.
  - intros [? | [= -> ->]]; [by right | by left].
Qed.

Lemma emitStep_NoDup tgt rs r :
  keyed rs → NoDup (edges rs) → NoDup (edges (emitStep tgt rs r)).
Proof.
  intros Hk Hnd. unfold emitStep. case_decide; [done |].
  case_decide as Hkey; [done |]. simpl.
  apply NoDup_app. split_and!; [done | | apply NoDup_singleton].
  intros e He He'. apply list_elem_of_singleton in He'. subst e.
  by apply Hkey, Hk.
Qed.

Lemma emitStep_edges tgt rs r e :
  keyed rs →
  e ∈ edges (emitStep tgt rs r) ↔ e ∈ edges rs ∨ (e = (r, tgt) ∧ r ≠ tgt).
Proof.
  intros Hk. unfold emitStep. case_decide as Hself.
  { subst. naive_solver. }
  case_decide as Hkey; simpl.
  - apply Hk in Hkey. naive_solver.
  - rewrite elem_of_app, list_elem_of_singleton. naive_solver.
Qed.

Lemma foldl_emitStep tgt l rs :
  keyed rs → NoDup (edges rs) →
  let rs' := foldl (emitStep tgt) rs l in
  keyed rs' ∧ NoDup (edges rs') ∧
  ∀ e, e ∈ edges rs' ↔ e ∈ edges rs ∨ ∃ r, r ∈ l ∧ e = (r, tgt) ∧ r ≠ tgt.
Proof.
  revert rs. induction l as [| r l IH]; intros rs Hk Hnd; simpl.
  - split_and!; [done .. |]. intros e. split; [by left |].
    intros [? | (r & Hr & _)]; [done | by apply elem_of_nil in Hr].
  - destruct (IH (emitStep tgt rs r)) as (Hk' & Hnd' & Hin);
      [by apply emitStep_keyed | by apply emitStep_NoDup |].
    split_and!; [done .. |]. intros e. rewrite Hin, emitStep_edges by done.
    split.
    + intros [[? | [-> ?]] | (r' & Hr' & ?)].
      * by left.
      * right. exists r. split; [left | done].
      * right. exists r'. split; [by right | done].
    + intros [? | (r' & Hr' & -> & ?)]; [by left; left |].
      apply elem_of_cons in Hr' as [-> | Hr'].
      * left. by right.
      * right. by exists r'.
Qed.

Lemma foldl_rebuildStep l rs :
  keyed rs → NoDup (edges rs) →
  let rs' := foldl (rebuildStep categories raw) rs l in
  keyed rs' ∧ NoDup (edges rs') ∧
  ∀ e, e ∈ edges rs' ↔
       e ∈ edges rs ∨
       ∃ s, (s, target e) ∈ l ∧ source e ∈ realSourcesOf categories raw s
            ∧ source e ≠ target e.
Proof.
  revert rs. induction l as [| [s t] l IH]; intros rs Hk Hnd; simpl.
  - split_and!; [done .. |]. intros e. split; [by left |].
    intros [? | (s & Hs & _)]; [done | by apply elem_of_nil in Hs].
  - unfold rebuildStep at 2 3 4. unfold source at 1 3 5, target at 1 3 5. simpl.
    destruct (foldl_emitStep t (realSourcesOf categories raw s) rs Hk Hnd)
      as (Hk1 & Hnd1 & Hin1).
    destruct (IH _ Hk1 Hnd1) as (Hk' & Hnd' & Hin).
    split_and!; [done .. |]. intros e. rewrite Hin, Hin1. split.
    + intros [[? | (r & Hr & -> & ?)] | (s' & Hs' & ?)].
      * by left.
      * right. exists s. split; [left | done].
      * right. exists s'. split; [by right | done].
    + intros [? | (s' & Hs' & Hsrc & Hne)]; [by left; left |].
      apply elem_of_cons in Hs' as [[= -> Ht] | Hs'].
      * left. right. exists (source e). destruct e as [r t']. simpl in *.
        by subst.
      * right. by exists s'.
Qed.

(** The final edge set: no repetition, and exactly the pairs of a real
    source of a raw edge's source with that edge's target, self-edges
    excluded. *)
Lemma rebuildEdges_spec :
  NoDup (edges (rebuildEdges categories raw)) ∧
  ∀ e, e ∈ edges (rebuildEdges categories raw) ↔
       ∃ s, (s, target e) ∈ raw ∧ source e ∈ realSourcesOf categories raw s
            ∧ source e ≠ target e.
Proof.
  destruct (foldl_rebuildStep raw emptyResolved) as (_ & Hnd & Hin).
  - intros r t. simpl. rewrite elem_of_empty, elem_of_nil. done.
  - simpl. apply NoDup_nil_2.
  - split; [exact Hnd |]. intros e. unfold rebuildEdges. rewrite Hin. simpl.
    rewrite elem_of_nil. tauto.
Qed.

Lemma emitStep_covered tgt rs r : covered rs → covered (emitStep tgt rs r).
Proof.
  intros Hc. unfold emitStep. case_decide; [done |]. case_decide; [done |].
  intros e. simpl. rewrite elem_of_app, list_elem_of_singleton,
    !elem_of_setAdd. intros [He | ->].
  - destruct (Hc e He). tauto.
  - unfold source, target. simpl. tauto.
Qed.

Lemma rebuildEdges_covered : covered (rebuildEdges categories raw).
Proof.
  unfold rebuildEdges.
  assert (covered emptyResolved) as H0.
  { intros e He. by apply elem_of_nil in He. }
  revert H0. generalize emptyResolved. generalize raw at 2. intros l.
  induction l as [| edge l IH]; intros rs Hc; simpl; [done |].
  apply IH. unfold rebuildStep.
  generalize (realSourcesOf categories raw (source edge)).
  intros l'. revert rs Hc. induction l' as [| r l' IH']; intros rs Hc; simpl;
    [done |].
  apply IH'. by apply emitStep_covered.
Qed.

Lemma foldl_addEndpoints l ns x :
  x ∈ foldl addEndpoints ns l ↔
  x ∈ ns ∨ ∃ e, e ∈ l ∧ (x = source e ∨ x = target e).
Proof.
  revert ns. induction l as [| e l IH]; intros ns; simpl.
  - split; [by left |]. intros [? | (e & He & _)]; [done |].
    by apply elem_of_nil in He.
  - rewrite IH. unfold addEndpoints. rewrite !elem_of_setAdd. split.
    + intros [[-> | [-> | ?]] | (e' & He' & ?)].
      * right. exists e. split; [left | by right].
      * right. exists e. split; [left | by left].
      * by left.
      * right. exists e'. split; [by right | done].
    + intros [? | (e' & He' & Hx)]; [left; tauto |].
      apply elem_of_cons in He' as [-> | He'].
      * left. tauto.
      * right. by exists e'.
Qed.

Lemma allNodes_edges e :
  e ∈ edges (rebuildEdges categories raw) →
  source e ∈ allNodes categories raw ∧ target e ∈ allNodes categories raw.
Proof.
  intros He. destruct (rebuildEdges_covered e He).
  unfold allNodes. rewrite !foldl_addEndpoints. split; by left.
Qed.

(** A real source of a line is the line or the source of a raw edge. *)
Lemma realSourcesOf_origin line r :
  r ∈ realSourcesOf categories raw line →
  r = line ∨ ∃ t, (r, t) ∈ raw.
Proof.
  intros Hr. apply realSourcesOf_sound in Hr as [_ Hpath].
  apply rtc_inv_r in Hpath as [-> | (l & _ & Hp)]; [by left | right].
  exists l. by apply buildParentMap_parents.
Qed.

End RebuildFacts.

(** *** The loop over edges.csv *)

Section EdgeFacts.

Variable analyzedFileName : string.
Variable tb : NodeTables.

Local Abbreviation contributes := (Graph.contributes analyzedFileName tb).

Lemma intraFileEdge_Some sourceId targetId e :
  intraFileEdge analyzedFileName tb sourceId targetId = Some e ↔
  nodeIdToLine tb !! sourceId = Some (source e) ∧
  nodeIdToLine tb !! targetId = Some (target e) ∧
  nodeIdToFile tb !! sourceId = Some analyzedFileName ∧
  nodeIdToFile tb !! targetId = Some analyzedFileName ∧
  source e ≠ target e.
Proof.
  unfold intraFileEdge. destruct e as [s t]. unfold source, target. simpl.
  destruct (nodeIdToLine tb !! sourceId) as [sl |];
    [| split; [done | by intros [? _]]].
  destruct (nodeIdToLine tb !! targetId) as [tl |];
    [| split; [done | by intros (_ & ? & _)]].
  case_decide as Hc.
  - split; [intros [= -> ->]; tauto | intros ([= ->] & [= ->] & _); done].
  - split; [done |]. intros ([= ->] & [= ->] & ?). tauto.
Qed.

Lemma edgeStep_spec et parts :
  keyedRaw et → NoDup (rawEdges et) →
  let et' := edgeStep analyzedFileName tb et parts in
  keyedRaw et' ∧ NoDup (rawEdges et') ∧
  ∀ e, e ∈ rawEdges et' ↔ e ∈ rawEdges et ∨ contributes parts e.
Proof.
  intros Hk Hnd. unfold edgeStep, contributes. case_decide as Hlen.
  { split_and!; [done .. |]. intros e. split; [by left |].
    intros [? | [? _]]; [done | lia]. }
  destruct (intraFileEdge _ _ _ _) as [[s t] |] eqn:Ei; simpl.
  - case_decide as Hkey; simpl.
    + split_and!; [done .. |]. intros e. split; [by left |].
      intros [? | [_ [= <-]]]; [done | by apply Hk].
    + split_and!.
      * unfold keyedRaw in *. intros s' t'. simpl.
        rewrite elem_of_union, elem_of_singleton, elem_of_app,
          list_elem_of_singleton, Hk. split.
        -- intros [Heq | ?]; [| by left].
           apply edgeKey_inj in Heq as [-> ->]. by right.
        -- intros [? | [= -> ->]]; [by right | by left].
      * apply NoDup_app. split_and!; [done | | apply NoDup_singleton].
        intros e He He'. apply list_elem_of_singleton in He'. subst e.
        by apply Hkey, Hk.
      * intros e. rewrite elem_of_app, list_elem_of_singleton. split.
        -- intros [? | ->]; [by left | right]. split; [lia | done].
        -- intros [? | [_ [= <-]]]; [by left | by right].
  - split_and!; [done .. |]. intros e. split; [by left |].
    intros [? | [_ ?]]; done.
Qed.

Lemma foldl_edgeStep rows et :
  keyedRaw et → NoDup (rawEdges et) →
  let et' := foldl (edgeStep analyzedFileName tb) et rows in
  keyedRaw et' ∧ NoDup (rawEdges et') ∧
  ∀ e, e ∈ rawEdges et' ↔
       e ∈ rawEdges et ∨ ∃ parts, parts ∈ rows ∧ contributes parts e.
Proof.
  revert et. induction rows as [| parts rows IH]; intros et Hk Hnd; simpl.
  - split_and!; [done .. |]. intros e. split; [by left |].
    intros [? | (? & Hin & _)]; [done | by apply elem_of_nil in Hin].
  - destruct (edgeStep_spec et parts Hk Hnd) as (Hk1 & Hnd1 & Hin1).
    destruct (IH _ Hk1 Hnd1) as (Hk' & Hnd' & Hin).
    split_and!; [done .. |]. intros e. rewrite Hin, Hin1. split.
    + intros [[? | ?] | (parts' & ? & ?)].
      * by left.
      * right. exists parts. split; [left | done].
      * right. exists parts'. split; [by right | done].
    + intros [? | (parts' & Hin' & ?)]; [by left; left |].
      apply elem_of_cons in Hin' as [-> | ?].
      * left. by right.
      * right. by exists parts'.
Qed.

(** The raw edge set: no repetition, and exactly the edges to which
    some data row of edges.csv resolves. *)
Lemma loadEdges_spec edgesRows :
  let raw := rawEdges (loadEdges analyzedFileName tb edgesRows) in
  NoDup raw ∧
  ∀ e, e ∈ raw ↔
       ∃ rows parts, edgesRows = Some rows ∧ parts ∈ drop 1 rows
                     ∧ contributes parts e.
Proof.
  destruct edgesRows as [rows |]; simpl.
  - destruct (foldl_edgeStep (drop 1 rows) emptyEdgeTables) as (_ & Hnd & Hin).
    + intros s t. simpl. rewrite elem_of_empty, elem_of_nil. done.
    + apply NoDup_nil_2.
    + split; [exact Hnd |]. intros e. rewrite Hin. simpl.
      rewrite elem_of_nil. split.
      * intros [[] | (parts & ? & ?)]. by exists rows, parts.
      * intros (rows' & parts & [= <-] & ? & ?). right. by exists parts.
  - split; [apply NoDup_nil_2 |]. intros e. rewrite elem_of_nil.
    split; [done | by intros (? & ? & ? & _)].
Qed.

End EdgeFacts.

(** *** The built graph *)

Section Built.

Variable matchPosition : string → option (string * Z).
Variable analyzedFileName : string.
Variable translatedExists : bool.
Variables nodesRows edgesRows : option (list (list string)).

Local Abbreviation g :=
  (loadGraphFromCSV matchPosition analyzedFileName translatedExists
                    nodesRows edgesRows).
Local Abbreviation tb := (nodeTablesOf matchPosition analyzedFileName nodesRows).
Local Abbreviation raw :=
  (rawEdgesOf matchPosition analyzedFileName nodesRows edgesRows).

Lemma graphEdges_elem e :
  e ∈ graphEdges g →
  e ∈ edges (rebuildEdges (nodeCategories tb) raw).
Proof.
  unfold loadGraphFromCSV. destruct translatedExists; simpl; [done |].
  intros He. by apply elem_of_nil in He.
Qed.

Lemma graphNodes_elem nd :
  nd ∈ graphNodes g →
  categoriesOf nd = default ["Unknown"] (nodeCategories tb !! lineNumber nd).
Proof.
  unfold loadGraphFromCSV. destruct translatedExists; simpl.
  - intros (id & -> & _)%list_elem_of_fmap. done.
  - intros He. by apply elem_of_nil in He.
Qed.

Lemma graphNodes_of_edge e :
  e ∈ graphEdges g →
  ∃ nd, nd ∈ graphNodes g ∧ lineNumber nd = source e.
Proof.
  unfold loadGraphFromCSV. destruct translatedExists; simpl.
  - intros He. apply allNodes_edges in He as [Hs _].
    eexists. split; [apply list_elem_of_fmap; eexists; split; [done | exact Hs] |].
    done.
  - intros He. by apply elem_of_nil in He.
Qed.

(** C1.  Bypass correctness: the source of every edge of the built
    graph is a vertex of the graph that either does not carry the
    ExplicitAssertion category or is the target of no raw intra-file
    edge (it has no parents, the terminal fallback). *)
Theorem bypass_correctness :
  Forall (λ e,
    (∃ nd, nd ∈ graphNodes g ∧ lineNumber nd = source e) ∧
    ∀ nd, nd ∈ graphNodes g → lineNumber nd = source e →
      "ExplicitAssertion" ∉ categoriesOf nd ∨ ∀ p, (p, source e) ∉ raw)
  (graphEdges g).
Proof.
  apply Forall_forall. intros e He. split; [by apply graphNodes_of_edge |].
  intros nd Hnd Hline. rewrite (graphNodes_elem nd Hnd), Hline.
  apply graphEdges_elem in He.
  apply (proj2 (rebuildEdges_spec _ _)) in He as (s & _ & Hr & _).
  apply realSourcesOf_sound in Hr as [[Hnb | Hnp] _].
  - left. intros Hin. apply Hnb. unfold bypassed.
    destruct (nodeCategories tb !! source e); simpl in *; [done |].
    apply list_elem_of_singleton in Hin. done.
  - right. by apply noParents_raw.
Qed.

Lemma graphEdges_NoDup : NoDup (graphEdges g).
Proof.
  unfold loadGraphFromCSV. destruct translatedExists; simpl.
  - apply rebuildEdges_spec.
  - apply NoDup_nil_2.
Qed.

(** In memory: no self-edges before or after bypass resolution, and no
    repeated pair among the final edges. *)
Lemma graph_edges_wellformed :
  Forall (λ e, source e ≠ target e) raw ∧
  Forall (λ e, source e ≠ target e) (graphEdges g) ∧
  NoDup (graphEdges g).
Proof.
  split_and!.
  - apply Forall_forall. intros e He.
    apply (proj2 (loadEdges_spec _ _ _)) in He
      as (rows & parts & _ & _ & _ & Hi).
    by apply intraFileEdge_Some in Hi as (_ & _ & _ & _ & ?).
  - apply Forall_forall. intros e He. apply graphEdges_elem in He.
    by apply (proj2 (rebuildEdges_spec _ _)) in He as (s & _ & _ & ?).
  - apply graphEdges_NoDup.
Qed.

(** In memory, a raw edge is kept only for a data row of edges.csv
    whose two ids resolve through the id-to-line map, lie in the
    analyzed file and have different lines; a row with an endpoint in
    another file leaves the raw edge set unchanged; and both endpoints
    of every final edge are lines of the analyzed file. *)
Lemma raw_edges_intra_file :
  Forall (λ e, ∃ rows parts,
            edgesRows = Some rows ∧ parts ∈ drop 1 rows ∧
            (2 ≤ length parts)%nat ∧
            nodeIdToLine tb !! field parts 0 = Some (source e) ∧
            nodeIdToLine tb !! field parts 1 = Some (target e) ∧
            nodeIdToFile tb !! field parts 0 = Some analyzedFileName ∧
            nodeIdToFile tb !! field parts 1 = Some analyzedFileName ∧
            source e ≠ target e) raw ∧
  (∀ et parts,
     nodeIdToFile tb !! field parts 0 ≠ Some analyzedFileName ∨
     nodeIdToFile tb !! field parts 1 ≠ Some analyzedFileName →
     rawEdges (edgeStep analyzedFileName tb et parts) = rawEdges et) ∧
  Forall (λ e, inAnalyzedFile analyzedFileName tb (source e)
              ∧ inAnalyzedFile analyzedFileName tb (target e))
         (graphEdges g).
Proof.
  assert (∀ e, e ∈ raw → inAnalyzedFile analyzedFileName tb (source e)
                       ∧ inAnalyzedFile analyzedFileName tb (target e))
    as Hraw.
  { intros e He.
    apply (proj2 (loadEdges_spec _ _ _)) in He
      as (rows & parts & _ & _ & _ & Hi).
    apply intraFileEdge_Some in Hi as (? & ? & ? & ? & _).
    split; eexists; eauto. }
  split_and!.
  - apply Forall_forall. intros e He.
    apply (proj2 (loadEdges_spec _ _ _)) in He
      as (rows & parts & ? & ? & ? & Hi).
    apply intraFileEdge_Some in Hi. exists rows, parts. tauto.
  - intros et parts Hother. unfold edgeStep. case_decide; [done |].
    destruct (intraFileEdge _ _ _ _) as [e |] eqn:Ei; [| done].
    apply intraFileEdge_Some in Ei as (_ & _ & ? & ? & _).
    destruct Hother; done.
  - apply Forall_forall. intros e He. apply graphEdges_elem in He.
    apply (proj2 (rebuildEdges_spec _ _)) in He as (s & Hst & Hr & _).
    split; [| apply (Hraw _ Hst)].
    apply realSourcesOf_origin in Hr as [-> | [t Ht]].
    + apply (Hraw _ Hst).
    + apply (Hraw _ Ht).
Qed.

End Built.

(** *** Resolution on cyclic chains *)

Section Cycles.

Variable categories : gmap Z (list string).
Variable raw : list Edge.





End Cycles.

End GraphFacts.

(** ** Properties of the derived edge file *)

Module TranslateFacts.

Import JS Translate.

Lemma append_inv_head (a b c : string) : a +:+ b = a +:+ c → b = c.
Proof.
  induction a as [| x a IH]; rewrite ?GraphFacts.append_cons,
    ?GraphFacts.append_nil; [done |].
  intros [= ?]. by apply IH.
Qed.

Lemma append_assoc (a b c : string) : (a +:+ b) +:+ c = a +:+ (b +:+ c).
Proof.
  induction a as [| x a IH]; rewrite ?GraphFacts.append_cons,
    ?GraphFacts.append_nil; [done |].
  by rewrite IH.
Qed.

(** Rows of the same two lines with different labels are different
    rows. *)
Lemma edgeKey_label_inj s t l l' : edgeKey s t l = edgeKey s t l' → l = l'.
Proof.
  unfold edgeKey. intros H. by do 4 apply append_inv_head in H.
Qed.

Section Rows.

Variable nodeToLine : gmap string Z.

Local Abbreviation yields := (Translate.yields nodeToLine).

Lemma translate_edgeStep_spec st parts :
  keyedRows st → NoDup (translatedEdges st) →
  let st' := edgeStep nodeToLine st parts in
  keyedRows st' ∧ NoDup (translatedEdges st') ∧
  ∀ k, k ∈ translatedEdges st' ↔ k ∈ translatedEdges st ∨ yields parts k.
Proof.
  intros Hk Hnd. unfold edgeStep, yields. case_decide as Hlen.
  { split_and!; [done .. |]. intros k. split; [by left |].
    intros [? | [? _]]; [done | lia]. }
  destruct (nodeToLine !! field parts 0) as [s |] eqn:Es; cycle 1.
  { split_and!; [done .. |]. intros k. split; [by left |].
    intros [? | (_ & ? & ? & ? & _)]; done. }
  destruct (nodeToLine !! field parts 1) as [t |] eqn:Et; cycle 1.
  { split_and!; [done .. |]. intros k. split; [by left |].
    intros [? | (_ & ? & ? & _ & ? & _)]; done. }
  case_decide as Hne; cycle 1.
  { split_and!; [done .. |]. intros k. split; [by left |].
    intros [? | (_ & ? & ? & [= <-] & [= <-] & ? & _)]; done. }
  case_decide as Hkey; simpl.
  - split_and!; [done .. |]. intros k. split; [by left |].
    intros [? | (_ & ? & ? & [= <-] & [= <-] & _ & ->)]; [done |].
    by apply Hk.
  - split_and!.
    + unfold keyedRows in *. intros k. simpl.
      rewrite elem_of_union, elem_of_singleton, elem_of_app,
        list_elem_of_singleton, Hk. tauto.
    + apply NoDup_app. split_and!; [done | | apply NoDup_singleton].
      intros k Hin Hin'. apply list_elem_of_singleton in Hin'. subst k.
      by apply Hkey, Hk.
    + intros k. rewrite elem_of_app, list_elem_of_singleton. split.
      * intros [? | ->]; [by left | right]. split; [lia |].
        by exists s, t.
      * intros [? | (_ & ? & ? & [= <-] & [= <-] & _ & ->)];
          [by left | by right].
Qed.

Lemma foldl_translate_edgeStep rows st :
  keyedRows st → NoDup (translatedEdges st) →
  let st' := foldl (edgeStep nodeToLine) st rows in
  keyedRows st' ∧ NoDup (translatedEdges st') ∧
  ∀ k, k ∈ translatedEdges st' ↔
       k ∈ translatedEdges st ∨ ∃ parts, parts ∈ rows ∧ yields parts k.
Proof.
  revert st. induction rows as [| parts rows IH]; intros st Hk Hnd; simpl.
  - split_and!; [done .. |]. intros k. split; [by left |].
    intros [? | (? & Hin & _)]; [done | by apply elem_of_nil in Hin].
  - destruct (translate_edgeStep_spec st parts Hk Hnd) as (Hk1 & Hnd1 & Hin1).
    destruct (IH _ Hk1 Hnd1) as (Hk' & Hnd' & Hin).
    split_and!; [done .. |]. intros k. rewrite Hin, Hin1. split.
    + intros [[? | ?] | (parts' & ? & ?)].
      * by left.
      * right. exists parts. split; [left | done].
      * right. exists parts'. split; [by right | done].
    + intros [? | (parts' & Hin' & ?)]; [by left; left |].
      apply elem_of_cons in Hin' as [-> | ?].
      * left. by right.
      * right. by exists parts'.
Qed.

End Rows.

(** The derived file has no repeated row, and its rows are exactly the
    rows [sourceLine,targetLine,label] of the data rows whose two ids
    resolve to different lines. *)
Lemma translate_spec matchLine nrows erows :
  ∃ out,
    translateEdgesToLineNumbers matchLine (Some nrows) (Some erows) = Some out ∧
    NoDup (translatedRows out) ∧
    ∀ k, k ∈ translatedRows out ↔
         ∃ parts, parts ∈ drop 1 erows
                  ∧ yields (buildNodeToLine matchLine nrows) parts k.
Proof.
  eexists. split; [done |]. simpl.
  destruct (foldl_translate_edgeStep (buildNodeToLine matchLine nrows) (drop 1 erows)
              (mkRows [] ∅)) as (_ & Hnd & Hin).
  - intros k. simpl. rewrite elem_of_empty, elem_of_nil. done.
  - apply NoDup_nil_2.
  - split; [exact Hnd |]. intros k. rewrite Hin. simpl. rewrite elem_of_nil.
    tauto.
Qed.

End TranslateFacts.

(** ** The edge sets: in memory and in the derived file *)

Module EdgeSetFacts.

(** C3, as the code has it.  In memory the edges are deduplicated by
    the pair of lines alone: neither the raw edge set nor the final
    edge set repeats a pair, whatever the labels of the rows.  The
    derived edge file is deduplicated by the whole row, label included:
    no row is repeated, every data row whose two ids resolve to
    different lines has its row in the file, and two rows that differ
    only in the label are different rows. *)
Theorem dedup_by_pair_in_memory_by_row_in_file
    (matchPosition : string → option (string * Z)) (matchLine : string → option Z)
    (analyzedFileName : string) (translatedExists : bool)
    (nodesRows edgesRows : option (list (list string))) :
  NoDup (Graph.rawEdgesOf matchPosition analyzedFileName nodesRows edgesRows) ∧
  NoDup (Graph.graphEdges
           (Graph.loadGraphFromCSV matchPosition analyzedFileName
              translatedExists nodesRows edgesRows)) ∧
  (∀ nrows erows, nodesRows = Some nrows → edgesRows = Some erows →
     ∃ out,
       Translate.translateEdgesToLineNumbers matchLine nodesRows edgesRows = Some out ∧
       NoDup (Translate.translatedRows out) ∧
       ∀ k, k ∈ Translate.translatedRows out ↔
            ∃ parts, parts ∈ drop 1 erows
                     ∧ Translate.yields (Translate.buildNodeToLine matchLine nrows) parts k) ∧
  (∀ s t label label', Translate.edgeKey s t label = Translate.edgeKey s t label' → label = label').
Proof.
  split_and!.
  - apply GraphFacts.loadEdges_spec.
  - apply GraphFacts.graphEdges_NoDup.
  - intros nrows erows -> ->. apply TranslateFacts.translate_spec.
  - apply TranslateFacts.edgeKey_label_inj.
Qed.

(** C5.  No edge has its source equal to its target, in the raw
    line-projected edge set (the raw edges in memory as well as the rows
    of the derived file) and in the final edge set after bypass
    resolution, and the final edge set repeats no pair. *)
Theorem no_self_edges_no_duplicates
    (matchPosition : string → option (string * Z)) (matchLine : string → option Z)
    (analyzedFileName : string) (translatedExists : bool)
    (nodesRows edgesRows : option (list (list string))) :
  Forall (λ e, Graph.source e ≠ Graph.target e)
    (Graph.rawEdgesOf matchPosition analyzedFileName nodesRows edgesRows) ∧
  Forall (λ e, Graph.source e ≠ Graph.target e)
    (Graph.graphEdges
       (Graph.loadGraphFromCSV matchPosition analyzedFileName translatedExists
          nodesRows edgesRows)) ∧
  NoDup (Graph.graphEdges
           (Graph.loadGraphFromCSV matchPosition analyzedFileName
              translatedExists nodesRows edgesRows)) ∧
  (∀ out,
     Translate.translateEdgesToLineNumbers matchLine nodesRows edgesRows
     = Some out →
     Forall (λ k, ∃ s t label, k = Translate.edgeKey s t label ∧ s ≠ t)
            (Translate.translatedRows out)).
Proof.
  destruct (GraphFacts.graph_edges_wellformed matchPosition analyzedFileName
              translatedExists nodesRows edgesRows) as (H1 & H2 & H3).
  split_and!; [done .. |].
  intros out Hout. destruct nodesRows as [nrows |], edgesRows as [erows |];
    try discriminate Hout.
  destruct (TranslateFacts.translate_spec matchLine nrows erows)
    as (out' & Hout' & _ & Hrows).
  rewrite Hout in Hout'. injection Hout' as <-.
  apply Forall_forall. intros k Hk.
  apply Hrows in Hk as (parts & _ & _ & s' & t' & _ & _ & Hne & ->).
  by exists s', t', (JS.field parts 2).
Qed.

(** The rows that the earlier revisions write to the derived file. *)
Lemma legacy_translate_spec matchLine nrows erows :
  ∃ out,
    LegacyGraph.translateEdgesToLineNumbers matchLine (Some nrows) (Some erows)
    = Some out ∧
    NoDup (Translate.translatedRows out) ∧
    ∀ k, k ∈ Translate.translatedRows out ↔
         ∃ parts, parts ∈ drop 1 erows
                  ∧ Translate.yields (LegacyGraph.buildNodeToLine matchLine nrows)
                      parts k.
Proof.
  eexists. split; [done |]. simpl.
  destruct (TranslateFacts.foldl_translate_edgeStep
              (LegacyGraph.buildNodeToLine matchLine nrows) (drop 1 erows)
              (Translate.mkRows [] ∅)) as (_ & Hnd & Hin).
  - intros k. simpl. rewrite elem_of_empty, elem_of_nil. done.
  - apply NoDup_nil_2.
  - split; [exact Hnd |]. intros k. rewrite Hin. simpl. rewrite elem_of_nil.
    tauto.
Qed.

(** C4, as the code has it.  The file of the endpoints is tested in
    memory only.  In the graph that [loadGraphFromCSV] builds, a raw
    edge is kept only for a data row of edges.csv whose two ids resolve
    through the id-to-line map, lie in the analyzed file and have
    different lines; a row with an endpoint in another file leaves the
    raw edge set unchanged; and both endpoints of every final edge are
    lines of the analyzed file.  The derived edge file is written
    without a test of the file, in this revision and in the earlier
    ones: its rows are exactly the rows of the data rows of at least
    three fields whose two ids resolve to different lines, whatever the
    files of the two nodes. *)
Theorem file_check_in_memory_only
    (matchPosition : string → option (string * Z)) (matchLine : string → option Z)
    (analyzedFileName : string) (translatedExists : bool)
    (nodesRows edgesRows : option (list (list string))) :
  Forall (λ e, ∃ rows parts,
            edgesRows = Some rows ∧ parts ∈ drop 1 rows ∧
            (2 ≤ length parts)%nat ∧
            Graph.nodeIdToLine
              (Graph.nodeTablesOf matchPosition analyzedFileName nodesRows)
              !! JS.field parts 0 = Some (Graph.source e) ∧
            Graph.nodeIdToLine
              (Graph.nodeTablesOf matchPosition analyzedFileName nodesRows)
              !! JS.field parts 1 = Some (Graph.target e) ∧
            Graph.nodeIdToFile
              (Graph.nodeTablesOf matchPosition analyzedFileName nodesRows)
              !! JS.field parts 0 = Some analyzedFileName ∧
            Graph.nodeIdToFile
              (Graph.nodeTablesOf matchPosition analyzedFileName nodesRows)
              !! JS.field parts 1 = Some analyzedFileName ∧
            Graph.source e ≠ Graph.target e)
    (Graph.rawEdgesOf matchPosition analyzedFileName nodesRows edgesRows) ∧
  (∀ et parts,
     Graph.nodeIdToFile
       (Graph.nodeTablesOf matchPosition analyzedFileName nodesRows)
       !! JS.field parts 0 ≠ Some analyzedFileName ∨
     Graph.nodeIdToFile
       (Graph.nodeTablesOf matchPosition analyzedFileName nodesRows)
       !! JS.field parts 1 ≠ Some analyzedFileName →
     Graph.rawEdges
       (Graph.edgeStep analyzedFileName
          (Graph.nodeTablesOf matchPosition analyzedFileName nodesRows)
          et parts)
     = Graph.rawEdges et) ∧
  Forall (λ e, Graph.inAnalyzedFile analyzedFileName
                 (Graph.nodeTablesOf matchPosition analyzedFileName nodesRows)
                 (Graph.source e)
               ∧ Graph.inAnalyzedFile analyzedFileName
                   (Graph.nodeTablesOf matchPosition analyzedFileName nodesRows)
                   (Graph.target e))
    (Graph.graphEdges
       (Graph.loadGraphFromCSV matchPosition analyzedFileName translatedExists
          nodesRows edgesRows)) ∧
  (∀ nrows erows, nodesRows = Some nrows → edgesRows = Some erows →
     ∃ out,
       Translate.translateEdgesToLineNumbers matchLine nodesRows edgesRows
       = Some out ∧
       ∀ k, k ∈ Translate.translatedRows out ↔
            ∃ parts,
              parts ∈ drop 1 erows ∧ (3 ≤ length parts)%nat ∧
              ∃ s t,
                Translate.buildNodeToLine matchLine nrows !! JS.field parts 0
                = Some s ∧
                Translate.buildNodeToLine matchLine nrows !! JS.field parts 1
                = Some t ∧
                s ≠ t ∧ k = Translate.edgeKey s t (JS.field parts 2)) ∧
  (∀ nrows erows, nodesRows = Some nrows → edgesRows = Some erows →
     ∃ out,
       LegacyGraph.translateEdgesToLineNumbers matchLine nodesRows edgesRows
       = Some out ∧
       ∀ k, k ∈ Translate.translatedRows out ↔
            ∃ parts,
              parts ∈ drop 1 erows ∧ (3 ≤ length parts)%nat ∧
              ∃ s t,
                LegacyGraph.buildNodeToLine matchLine nrows !! JS.field parts 0
                = Some s ∧
                LegacyGraph.buildNodeToLine matchLine nrows !! JS.field parts 1
                = Some t ∧
                s ≠ t ∧ k = Translate.edgeKey s t (JS.field parts 2)).
Proof.
  destruct (GraphFacts.raw_edges_intra_file matchPosition analyzedFileName
              translatedExists nodesRows edgesRows) as (H1 & H2 & H3).
  split_and!; [done .. | |].
  - intros nrows erows -> ->.
    destruct (TranslateFacts.translate_spec matchLine nrows erows)
      as (out & Hout & _ & Hrows).
    exists out. split; [done |]. intros k. rewrite Hrows. done.
  - intros nrows erows -> ->.
    destruct (legacy_translate_spec matchLine nrows erows)
      as (out & Hout & _ & Hrows).
    exists out. split; [done |]. intros k. rewrite Hrows. done.
Qed.

End EdgeSetFacts.

(** ** Properties of the line-content records *)

Module LinesCsvFacts.

Import JS LinesCsv.

Open Scope N_scope.

(** *** Escaping *)

Lemma unescape_escape (s : Text) : unescapeQuotes (escapeQuotes s) = s.
Proof.
  induction s as [| c r IH]; [done |]. simpl.
  destruct (c =? quote) eqn:Ec.
  - apply N.eqb_eq in Ec. subst c. simpl. by rewrite IH.
  - change (unescapeQuotes (c :: escapeQuotes r)) with
      (match escapeQuotes r with
       | c2 :: r2 =>
         if (c =? quote) && (c2 =? quote) then quote :: unescapeQuotes r2
         else c :: unescapeQuotes (escapeQuotes r)
       | [] => [c]
       end).
    rewrite Ec. simpl. rewrite IH.
    destruct r as [| c' r']; [done |]. simpl.
    by destruct (c' =? quote).
Qed.

Lemma escapeQuotes_noLineTerminator s :
  noLineTerminator s → noLineTerminator (escapeQuotes s).
Proof.
  induction 1 as [| c r Hc _ IH]; simpl; [constructor |].
  destruct (c =? quote) eqn:Ec.
  - apply N.eqb_eq in Ec. subst c. by repeat constructor.
  - by constructor.
Qed.

(** *** Prefixes *)

Lemma takeWhile_app_stop {A} (f : A → bool) l x r :
  Forall (λ y, f y = true) l → f x = false →
  takeWhile f (l ++ x :: r) = l ∧ dropWhile f (l ++ x :: r) = x :: r.
Proof.
  intros Hl Hx. induction Hl as [| y l Hy _ [IH1 IH2]]; simpl.
  - by rewrite Hx.
  - by rewrite Hy, IH1, IH2.
Qed.

Lemma takeWhile_all {A} (f : A → bool) l :
  Forall (λ y, f y = true) l → takeWhile f l = l.
Proof.
  induction 1 as [| y l Hy _ IH]; simpl; [done |]. by rewrite Hy, IH.
Qed.

Lemma lastQuote_app_quote (s : Text) :
  lastQuote (s ++ [quote]) = Some (length s).
Proof. induction s as [| c r IH]; simpl; [done |]. by rewrite IH. Qed.

(** *** Numerals *)

Lemma digits_uint d :
  Forall (λ c, isDigit c = true) (codeUnits (NilEmpty.string_of_uint d)).
Proof. induction d; simpl; by constructor. Qed.

Local Abbreviation digitStep := (λ (acc : Z) (c : N), acc * 10 + (Z.of_N c - 48))%Z.

Lemma parse_uint_acc d p :
  foldl digitStep (Z.pos p) (codeUnits (NilEmpty.string_of_uint d))
  = Z.pos (Pos.of_uint_acc d p).
Proof.
  revert p. induction d; intros p; simpl; [done | ..];
    rewrite <- IHd; f_equal; lia.
Qed.

Lemma parse_uint d :
  parseInt (codeUnits (NilEmpty.string_of_uint d)) = Z.of_N (Pos.of_uint d).
Proof.
  unfold parseInt. induction d; simpl; [done | done | ..];
    by rewrite <- parse_uint_acc.
Qed.

(** The numeral of a line number: digits only, not empty, and read back
    by [parseInt]. *)
Lemma lineNumber_numeral (index : nat) :
  let digits := codeUnits (showZ (Z.of_nat index + 1)) in
  Forall (λ c, isDigit c = true) digits ∧ digits ≠ [] ∧
  parseInt digits = (Z.of_nat index + 1)%Z.
Proof.
  assert (Z.of_nat index + 1 = Z.pos (Pos.of_succ_nat index))%Z as -> by lia.
  generalize (Pos.of_succ_nat index). intros p. unfold showZ. simpl.
  pose proof (DecimalPos.Unsigned.to_uint_nonnil p) as Hnn.
  assert (NilZero.string_of_uint (Pos.to_uint p)
          = NilEmpty.string_of_uint (Pos.to_uint p)) as ->.
  { unfold NilZero.string_of_uint. by destruct (Pos.to_uint p). }
  split_and!.
  - apply digits_uint.
  - destruct (Pos.to_uint p); done.
  - rewrite parse_uint, DecimalPos.Unsigned.of_to. done.
Qed.

(** *** One record *)

Lemma matchRecord_encodeLine index line :
  noLineTerminator (trim line) →
  matchRecord (encodeLine index line)
  = Some (codeUnits (showZ (Z.of_nat index + 1)), escapeQuotes (trim line)).
Proof.
  intros Hnt. destruct (lineNumber_numeral index) as (Hdig & Hne & _).
  unfold matchRecord, encodeLine.
  set (digits := codeUnits (showZ (Z.of_nat index + 1))) in *.
  set (body := escapeQuotes (trim line)).
  change (digits ++ [comma; quote] ++ body ++ [quote])
    with (digits ++ comma :: (quote :: body ++ [quote])).
  destruct (takeWhile_app_stop isDigit digits comma (quote :: body ++ [quote]))
    as [-> ->]; [done | done |].
  destruct digits as [| d ds]; [done |].
  change ((comma =? comma) && (quote =? quote)) with true. cbv iota.
  rewrite takeWhile_all.
  - rewrite lastQuote_app_quote. by rewrite take_app_length.
  - apply Forall_app. split; [| by repeat constructor].
    apply escapeQuotes_noLineTerminator in Hnt.
    eapply Forall_impl; [exact Hnt |]. intros c Hc. simpl. by rewrite Hc.
Qed.

(** Encoding a line and decoding the record gives the number of the
    line and its trimmed text, when that text has no line terminator. *)
Lemma decodeLine_encodeLine index line :
  noLineTerminator (trim line) →
  decodeLine (encodeLine index line) = Some ((Z.of_nat index + 1)%Z, trim line).
Proof.
  intros Hnt. unfold decodeLine. rewrite matchRecord_encodeLine by done.
  destruct (lineNumber_numeral index) as (_ & _ & ->).
  by rewrite unescape_escape.
Qed.

(** *** The whole file *)

Lemma splitLines_nonempty s : splitLines s ≠ [].
Proof.
  destruct s as [| c r]; simpl; [done |].
  destruct (c =? newline); [done |]. by destruct (splitLines r).
Qed.

Lemma splitLines_noNewline s : Forall noNewline (splitLines s).
Proof.
  induction s as [| c r IH]; simpl; [by repeat constructor |].
  destruct (c =? newline) eqn:Ec; [by repeat constructor |].
  destruct (splitLines r) as [| first others]; [by repeat constructor |].
  apply Forall_cons in IH as [Hf Ho]. constructor; [by constructor | done].
Qed.

Lemma splitLines_one s : noNewline s → splitLines s = [s].
Proof.
  induction 1 as [| c r Hc _ IH]; simpl; [done |]. by rewrite Hc, IH.
Qed.

Lemma splitLines_app_newline s r :
  noNewline s → splitLines (s ++ newline :: r) = s :: splitLines r.
Proof.
  induction 1 as [| c s' Hc _ IH]; simpl; [done |]. by rewrite Hc, IH.
Qed.

Lemma splitLines_joinLines lines :
  lines ≠ [] → Forall noNewline lines → splitLines (joinLines lines) = lines.
Proof.
  intros Hne Hall. induction Hall as [| l ls Hl Hls IH]; [done |].
  destruct ls as [| l2 ls'].
  - simpl. by apply splitLines_one.
  - change (joinLines (l :: l2 :: ls')) with (l ++ newline :: joinLines (l2 :: ls')).
    rewrite splitLines_app_newline by done. by rewrite IH.
Qed.

Lemma Forall_dropWhile {A} (P : A → Prop) f l :
  Forall P l → Forall P (dropWhile f l).
Proof.
  induction 1 as [| x l Hx Hl IH]; simpl; [done |].
  destruct (f x); [done | by constructor].
Qed.

Lemma Forall_trim (P : N → Prop) s : Forall P s → Forall P (trim s).
Proof.
  intros H. unfold trim.
  by apply Forall_reverse, Forall_dropWhile, Forall_reverse, Forall_dropWhile.
Qed.

Lemma escapeQuotes_noNewline s : noNewline s → noNewline (escapeQuotes s).
Proof.
  induction 1 as [| c r Hc _ IH]; simpl; [constructor |].
  destruct (c =? quote) eqn:Ec.
  - apply N.eqb_eq in Ec. subst c. by repeat constructor.
  - by constructor.
Qed.

Lemma digit_facts c :
  isDigit c = true → (c =? newline) = false ∧ isWhiteSpace c = false.
Proof.
  unfold isDigit, isWhiteSpace, newline.
  intros [H1 H2]%andb_prop. apply N.leb_le in H1, H2.
  split.
  - apply N.eqb_neq. lia.
  - repeat (apply orb_false_intro); try (apply N.eqb_neq; lia).
    apply andb_false_intro1. apply N.leb_gt. lia.
Qed.

Lemma encodeLine_noNewline index line :
  noNewline line → noNewline (encodeLine index line).
Proof.
  intros Hl. unfold encodeLine.
  destruct (lineNumber_numeral index) as (Hdig & _ & _).
  repeat apply Forall_app_2.
  - eapply Forall_impl; [exact Hdig |]. intros c Hc. by apply digit_facts.
  - by repeat constructor.
  - by apply escapeQuotes_noNewline, Forall_trim.
  - by repeat constructor.
Qed.

(** The first and the last code unit of a record. *)
Lemma encodeLine_ends index line :
  ∃ d mid, encodeLine index line = d :: mid ++ [quote] ∧ isDigit d = true.
Proof.
  destruct (lineNumber_numeral index) as (Hdig & Hne & _).
  unfold encodeLine.
  destruct (codeUnits (showZ (Z.of_nat index + 1))) as [| d ds]; [done |].
  apply Forall_cons in Hdig as [Hd _].
  exists d, (ds ++ [comma; quote] ++ escapeQuotes (trim line)).
  split; [| done]. simpl. by rewrite <- !app_assoc.
Qed.

Lemma trim_id a mid z :
  isWhiteSpace a = false → isWhiteSpace z = false →
  trim (a :: mid ++ [z]) = a :: mid ++ [z].
Proof.
  intros Ha Hz. unfold trim. simpl. rewrite Ha.
  rewrite reverse_cons, reverse_app. simpl. rewrite Hz.
  change (z :: reverse mid ++ [a]) with ((z :: reverse mid) ++ [a]).
  rewrite reverse_app. simpl. by rewrite reverse_cons, reverse_involutive.
Qed.

Lemma joinLines_ends (records : list Text) :
  records ≠ [] →
  Forall (λ r, ∃ d mid, r = d :: mid ++ [quote] ∧ isDigit d = true) records →
  ∃ d mid, joinLines records = d :: mid ++ [quote] ∧ isDigit d = true.
Proof.
  intros Hne Hall. induction Hall as [| r rs Hr Hrs IH]; [done |].
  destruct rs as [| r2 rs'].
  - simpl. exact Hr.
  - destruct Hr as (d & mid & -> & Hd).
    destruct IH as (d' & mid' & Hj & _); [done |].
    change (joinLines ((d :: mid ++ [quote]) :: r2 :: rs'))
      with ((d :: mid ++ [quote]) ++ newline :: joinLines (r2 :: rs')).
    rewrite Hj. exists d, (mid ++ [quote] ++ newline :: d' :: mid').
    split; [| done]. simpl. by rewrite <- !app_assoc.
Qed.

Lemma exportLinesToCSV_split fileContent :
  splitLines (trim (exportLinesToCSV fileContent))
  = imap encodeLine (splitLines fileContent).
Proof.
  unfold exportLinesToCSV.
  set (lines := splitLines fileContent).
  assert (imap encodeLine lines ≠ []) as Hne.
  { pose proof (splitLines_nonempty fileContent) as H. fold lines in H.
    destruct lines; [done |]. done. }
  destruct (joinLines_ends (imap encodeLine lines) Hne) as (d & mid & Hj & Hd).
  { apply Forall_forall. intros r (i & l & -> & _)%elem_of_lookup_imap.
    apply encodeLine_ends. }
  rewrite Hj, trim_id, <- Hj; [| by apply digit_facts | done].
  apply splitLines_joinLines; [done |].
  apply Forall_forall. intros r (i & l & -> & Hl)%elem_of_lookup_imap.
  apply encodeLine_noNewline.
  pose proof (splitLines_noNewline fileContent) as Hall.
  eapply Forall_forall in Hall; [exact Hall |].
  by eapply list_elem_of_lookup_2.
Qed.

(** The number read from a record is the number written, whatever the
    text of the line. *)
Lemma decodeLine_number index line n content :
  decodeLine (encodeLine index line) = Some (n, content) →
  n = (Z.of_nat index + 1)%Z.
Proof.
  destruct (lineNumber_numeral index) as (Hdig & Hne & Hparse).
  unfold decodeLine, matchRecord, encodeLine.
  set (digits := codeUnits (showZ (Z.of_nat index + 1))) in *.
  change (digits ++ [comma; quote] ++ escapeQuotes (trim line) ++ [quote])
    with (digits ++ comma :: (quote :: escapeQuotes (trim line) ++ [quote])).
  destruct (takeWhile_app_stop isDigit digits comma
              (quote :: escapeQuotes (trim line) ++ [quote])) as [-> ->];
    [done | done |].
  destruct digits as [| d ds]; [done |].
  destruct (_ && _); [| done].
  destruct (lastQuote _); [| done].
  intros [= <- _]. done.
Qed.

Lemma foldl_lineStep_records (lines : list Text) i line :
  lines !! i = Some line →
  noLineTerminator (trim line) →
  foldl lineStep ∅ (imap encodeLine lines) !! (Z.of_nat i + 1)%Z
  = Some (trim line).
Proof.
  revert i line. induction lines as [| x lines IH] using rev_ind;
    intros i line Hi Hnt; [done |].
  rewrite imap_app, foldl_app. simpl. rewrite Nat.add_0_r.
  unfold lineStep at 1.
  destruct (decide (i = length lines)) as [-> | Hne].
  - rewrite lookup_app_r, Nat.sub_diag in Hi by done. injection Hi as ->.
    rewrite decodeLine_encodeLine by done. by rewrite lookup_insert_eq.
  - assert (lines !! i = Some line) as Hi'.
    { apply lookup_lt_Some in Hi as Hlt. rewrite length_app in Hlt.
      simpl in Hlt. rewrite lookup_app_l in Hi by lia. done. }
    destruct (decodeLine (encodeLine (length lines) x)) as [[n content] |] eqn:Ed.
    + apply decodeLine_number in Ed. subst n.
      rewrite lookup_insert_ne by lia. by apply IH.
    + by apply IH.
Qed.

(** Writing lines.csv for a file and reading it back gives, for every
    line whose trimmed text has no line terminator, that trimmed text
    under the number of the line. *)
Lemma lines_file_roundtrip fileContent i line :
  splitLines fileContent !! i = Some line →
  noLineTerminator (trim line) →
  loadLineContents (Some (exportLinesToCSV fileContent)) !! (Z.of_nat i + 1)%Z
  = Some (trim line).
Proof.
  intros Hi Hnt. unfold loadLineContents.
  rewrite exportLinesToCSV_split. by apply foldl_lineStep_records.
Qed.

(** C8, as the code has it.  Escaping followed by unescaping is the
    identity on every text.  A line is trimmed before it is escaped, so
    encoding a line and decoding the record yields the number of the
    line and its trimmed text, provided the trimmed text has no line
    terminator (which the pattern of the reader does not cross); the
    same holds through the whole of lines.csv. *)
Theorem line_content_roundtrip :
  (∀ text, unescapeQuotes (escapeQuotes text) = text) ∧
  (∀ index line, noLineTerminator (trim line) →
     decodeLine (encodeLine index line)
     = Some ((Z.of_nat index + 1)%Z, trim line)) ∧
  (∀ fileContent i line,
     splitLines fileContent !! i = Some line →
     noLineTerminator (trim line) →
     loadLineContents (Some (exportLinesToCSV fileContent))
       !! (Z.of_nat i + 1)%Z = Some (trim line)).
Proof.
  split_and!.
  - apply unescape_escape.
  - apply decodeLine_encodeLine.
  - apply lines_file_roundtrip.
Qed.

End LinesCsvFacts.

(** ** Properties of [highlightLines] *)

Module EditorFacts.

Import JS Editor.

Lemma lineAt_in_range doc line :
  0 ≤ line < lineCount doc →
  ∃ range, lineAt doc line = Some range
           ∧ startLine range = line ∧ endLine range = line.
Proof.
  intros Hr. unfold lineAt. rewrite decide_True by done.
  destruct (lineTexts doc !! Z.to_nat line) as [text |] eqn:E.
  - by eexists.
  - apply lookup_ge_None in E. unfold lineCount in Hr. lia.
Qed.

Lemma keptNeighbors_spec count lineNumber ns :
  Forall (λ n, 1 ≤ n ≤ count ∧ n ≠ lineNumber) (keptNeighbors count lineNumber ns).
Proof.
  apply Forall_forall. intros n Hn. unfold keptNeighbors in Hn.
  apply list_elem_of_filter in Hn as [Hn _]. lia.
Qed.

Lemma rangesOfLines_in_range doc ns :
  Forall (λ n, 1 ≤ n ≤ lineCount doc) ns →
  ∃ ranges, rangesOfLines doc ns = ([], inl ranges) ∧ linesOf ranges = ns.
Proof.
  induction 1 as [| n ns Hn _ (ranges & IH & Hlines)].
  - by exists [].
  - destruct (lineAt_in_range doc (n - 1)) as (r & Hr & Hs & _); [lia |].
    exists (r :: ranges). simpl. unfold rangeOfLine. rewrite Hr. simpl.
    unfold mbind, Try_bind, bind. simpl. rewrite IH. simpl.
    split; [done |]. unfold linesOf in *. simpl. rewrite Hlines. f_equal. lia.
Qed.

Section Facts.

Variable window : Window.
Variable ext : Extension.

Local Abbreviation after :=
  (mkExtension (analyzedFileUri ext) (highlightsEnabled ext) true).

Lemma decorate_in_range editor clearFirst lineNumber ns ins sd :
  1 ≤ lineNumber ≤ lineCount (document editor) →
  ∃ selected directLines indirectLines,
    decorate editor clearFirst lineNumber ns ins sd =
      (clearEditorDecorations editor ++
       [ SetDecorations editor
           (if sd then directDependantDecoration else directDependencyDecoration)
           directLines;
         SetDecorations editor
           (if sd then indirectDependantDecoration
            else indirectDependencyDecoration)
           indirectLines;
         SetDecorations editor selectedDecoration [selected];
         RevealRange editor selected ], inl tt) ∧
    startLine selected = lineNumber - 1 ∧
    linesOf directLines =
      keptNeighbors (lineCount (document editor)) lineNumber ns ∧
    linesOf indirectLines =
      keptNeighbors (lineCount (document editor)) lineNumber ins.
Proof.
  intros Hr.
  destruct (lineAt_in_range (document editor) (lineNumber - 1))
    as (selected & Hsel & Hs & _); [lia |].
  destruct (rangesOfLines_in_range (document editor)
              (keptNeighbors (lineCount (document editor)) lineNumber ns))
    as (directLines & Hd & Hdl).
  { eapply Forall_impl; [apply keptNeighbors_spec |]. simpl. tauto. }
  destruct (rangesOfLines_in_range (document editor)
              (keptNeighbors (lineCount (document editor)) lineNumber ins))
    as (indirectLines & Hi & Hil).
  { eapply Forall_impl; [apply keptNeighbors_spec |]. simpl. tauto. }
  exists selected, directLines, indirectLines. split; [| done].
  unfold decorate, rangeOfLine. rewrite Hsel, Hd, Hi.
  by destruct clearFirst.
Qed.

(** The body of [highlightLines] raises no error, whatever the
    request: the handler of the [catch] clause is never entered. *)
Lemma highlightBody_no_error lineNumber ns ins sd :
  (highlightBody window ext lineNumber ns ins sd).2 = inl tt.
Proof.
  unfold highlightBody. destruct (findEditor window ext) as [editor |]; [| done].
  case_decide as Hout; [done |]. case_decide as Hzero; [done |].
  destruct (decorate_in_range editor true lineNumber ns ins sd)
    as (? & ? & ? & -> & _); [lia | done].
Qed.

Lemma legacyHighlightBody_no_error lineNumber ns ins sd :
  (legacyHighlightBody window ext lineNumber ns ins sd).2 = inl tt.
Proof.
  unfold legacyHighlightBody.
  destruct (findEditor window ext) as [editor |]; [| done].
  case_decide as Hout; [done |].
  destruct (decorate_in_range editor false lineNumber ns ins sd)
    as (? & ? & ? & -> & _); [lia | done].
Qed.

(** The earlier revision warns for every line below 1 or above the
    line count. *)
Lemma legacy_out_of_range_warns editor lineNumber ns ins sd :
  findEditor window ext = Some editor →
  lineNumber < 1 ∨ lineNumber > lineCount (document editor) →
  legacyHighlightLines window ext lineNumber ns ins sd =
    ([ShowWarningMessage (outOfRangeMessage lineNumber);
      ResetUpdatingAfter 100], after).
Proof.
  intros Hed Hout. unfold legacyHighlightLines, legacyHighlightBody.
  rewrite Hed. by rewrite decide_True.
Qed.

(** C7, as the code has it.  A request for a line below 0 or above
    the line count only shows the warning that the line is out of
    range: no decoration is set, nothing is revealed and no error is
    raised.  (Line 0 is not out of range for this revision; the
    earlier one warns for it as well.) *)
Theorem out_of_range_warns editor lineNumber ns ins sd :
  findEditor window ext = Some editor →
  lineNumber < 0 ∨ lineNumber > lineCount (document editor) →
  highlightLines window ext lineNumber ns ins sd =
    ([ShowWarningMessage (outOfRangeMessage lineNumber);
      ResetUpdatingAfter 100], after) ∧
  (highlightBody window ext lineNumber ns ins sd).2 = inl tt ∧
  legacyHighlightLines window ext lineNumber ns ins sd =
    ([ShowWarningMessage (outOfRangeMessage lineNumber);
      ResetUpdatingAfter 100], after).
Proof.
  intros Hed Hout. split_and!.
  - unfold highlightLines, highlightBody. rewrite Hed.
    by rewrite decide_True.
  - apply highlightBody_no_error.
  - apply (legacy_out_of_range_warns editor); [done | lia].
Qed.

(** C9.  For a selected line between 1 and the line count, the
    decorations applied are those of the neighbours received that lie
    between 1 and the line count and differ from the selected line;
    the others are dropped, and every access to a line of the
    document is within bounds (no error is raised). *)
Theorem decorations_in_bounds editor lineNumber ns ins sd :
  findEditor window ext = Some editor →
  1 ≤ lineNumber ≤ lineCount (document editor) →
  ∃ selected directLines indirectLines,
    highlightLines window ext lineNumber ns ins sd =
      (clearEditorDecorations editor ++
       [ SetDecorations editor
           (if sd then directDependantDecoration else directDependencyDecoration)
           directLines;
         SetDecorations editor
           (if sd then indirectDependantDecoration
            else indirectDependencyDecoration)
           indirectLines;
         SetDecorations editor selectedDecoration [selected];
         RevealRange editor selected;
         ResetUpdatingAfter 100 ], after) ∧
    (highlightBody window ext lineNumber ns ins sd).2 = inl tt ∧
    linesOf [selected] = [lineNumber] ∧
    (∀ n, n ∈ linesOf directLines ↔
          n ∈ ns ∧ 1 ≤ n ≤ lineCount (document editor) ∧ n ≠ lineNumber) ∧
    (∀ n, n ∈ linesOf indirectLines ↔
          n ∈ ins ∧ 1 ≤ n ≤ lineCount (document editor) ∧ n ≠ lineNumber).
Proof.
  intros Hed Hin.
  destruct (decorate_in_range editor true lineNumber ns ins sd Hin)
    as (selected & directLines & indirectLines & Hdec & Hsel & Hd & Hi).
  exists selected, directLines, indirectLines. split_and!.
  - unfold highlightLines, highlightBody. rewrite Hed.
    rewrite decide_False by lia. rewrite decide_False by lia.
    rewrite Hdec. unfold tryCatchFinally. simpl. done.
  - apply highlightBody_no_error.
  - unfold linesOf. simpl. rewrite Hsel. f_equal. lia.
  - intros n. rewrite Hd. unfold keptNeighbors.
    rewrite list_elem_of_filter. intuition lia.
  - intros n. rewrite Hi. unfold keptNeighbors.
    rewrite list_elem_of_filter. intuition lia.
Qed.

(** The request for line 0: the five decoration types are cleared and
    nothing else happens. *)
Lemma highlightLines_zero editor ns ins sd :
  findEditor window ext = Some editor →
  highlightLines window ext 0 ns ins sd =
    (clearEditorDecorations editor ++ [ResetUpdatingAfter 100], after).
Proof.
  intros Hed. unfold highlightLines, highlightBody. rewrite Hed.
  assert (0 ≤ lineCount (document editor)) by (unfold lineCount; lia).
  rewrite decide_False by lia. by rewrite decide_True.
Qed.

End Facts.

End EditorFacts.

(** ** Properties of the graph view *)

Module WebviewFacts.

Import Webview.

Lemma disablesMore_insert_false fs category :
  disablesMore (<[category := false]> fs) fs.
Proof.
  intros c. destruct (decide (category = c)) as [-> | Hne].
  - by rewrite lookup_insert_eq.
  - by rewrite lookup_insert_ne.
Qed.

Lemma highlightKinds_not_filtered c : c ∈ highlightKinds → c ≠ "filtered".
Proof.
  unfold highlightKinds. rewrite !elem_of_cons, elem_of_nil.
  intros [-> | [-> | [-> | [-> | [-> | []]]]]]; done.
Qed.

Lemma highlightKinds_classes c :
  c ∈ highlightKinds ∨ c = "filtered" → c ∈ highlightClasses ∧ c ≠ "dimmed".
Proof.
  unfold highlightKinds, highlightClasses. rewrite elem_of_list_to_set.
  rewrite !elem_of_cons, elem_of_nil.
  intros [[-> | [-> | [-> | [-> | [-> | []]]]]] | ->]; split; try done; tauto.
Qed.

Lemma existsb_enabled_mono fs' fs categories :
  disablesMore fs' fs →
  existsb (λ c, bool_decide (fs' !! c = Some true)) categories = true →
  existsb (λ c, bool_decide (fs !! c = Some true)) categories = true.
Proof.
  intros Hd. rewrite !existsb_exists. intros (c & Hc & Hen).
  exists c. split; [done |]. apply bool_decide_eq_true in Hen.
  apply bool_decide_eq_true. by apply Hd.
Qed.

Lemma sameHighlight_filtered cls cls' (add add' : bool) :
  sameHighlight cls cls' →
  sameHighlight (if add then {["filtered"]} ∪ cls else cls ∖ {["filtered"]})
                (if add' then {["filtered"]} ∪ cls' else cls' ∖ {["filtered"]}).
Proof.
  intros Hs c Hc. specialize (Hs c Hc).
  apply highlightKinds_not_filtered in Hc.
  destruct add, add'; rewrite ?elem_of_union, ?elem_of_difference,
    ?elem_of_singleton; tauto.
Qed.

Lemma applyFiltersNode_mono fs' fs categories cls cls' :
  disablesMore fs' fs →
  sameHighlight cls cls' → ("filtered" ∈ cls → "filtered" ∈ cls') →
  sameHighlight (applyFiltersNode fs categories cls)
                (applyFiltersNode fs' categories cls') ∧
  ("filtered" ∈ applyFiltersNode fs categories cls →
   "filtered" ∈ applyFiltersNode fs' categories cls').
Proof.
  intros Hd Hs Hf. unfold applyFiltersNode.
  pose proof (existsb_enabled_mono fs' fs categories Hd) as Hvis.
  assert ("selected" ∈ cls ↔ "selected" ∈ cls') as E0
    by (apply Hs; unfold highlightKinds; set_solver).
  assert ("direct" ∈ cls ↔ "direct" ∈ cls') as E1
    by (apply Hs; unfold highlightKinds; set_solver).
  assert ("indirect" ∈ cls ↔ "indirect" ∈ cls') as E2
    by (apply Hs; unfold highlightKinds; set_solver).
  assert ("direct-dependent" ∈ cls ↔ "direct-dependent" ∈ cls') as E3
    by (apply Hs; unfold highlightKinds; set_solver).
  assert ("indirect-dependent" ∈ cls ↔ "indirect-dependent" ∈ cls') as E4
    by (apply Hs; unfold highlightKinds; set_solver).
  destruct (decide (¬ ("direct" ∈ cls ∨ "indirect" ∈ cls
                       ∨ "direct-dependent" ∈ cls ∨ "indirect-dependent" ∈ cls)
                    ∨ "selected" ∈ cls)) as [Hskip | Hgo].
  - rewrite decide_True by tauto. done.
  - rewrite decide_False by tauto.
    destruct (existsb (λ c, bool_decide (fs !! c = Some true)) categories)
      eqn:E';
      destruct (existsb (λ c, bool_decide (fs' !! c = Some true)) categories)
        eqn:E; try (specialize (Hvis eq_refl); congruence).
    + split; [by apply (sameHighlight_filtered cls cls' false false) |].
      rewrite !elem_of_difference, !elem_of_singleton. tauto.
    + split; [by apply (sameHighlight_filtered cls cls' false true) |].
      rewrite elem_of_difference, elem_of_union, !elem_of_singleton. tauto.
    + split; [by apply (sameHighlight_filtered cls cls' true true) |].
      rewrite !elem_of_union, !elem_of_singleton. tauto.
Qed.

Lemma applyFilters_mono cyNodes fs' fs n m m' :
  disablesMore fs' fs → filtersMoreAt n m' m →
  filtersMoreAt n (applyFilters cyNodes fs' m') (applyFilters cyNodes fs m).
Proof.
  intros Hd. unfold applyFilters. revert m m'.
  induction cyNodes as [| node nodes IH]; intros m m' Hm; simpl; [done |].
  apply IH. unfold filtersMoreAt. case_decide; [| apply Hm].
  destruct Hm. by apply applyFiltersNode_mono.
Qed.

Lemma agreeAt_filtersMoreAt n m m' : agreeAt n m m' → filtersMoreAt n m' m.
Proof.
  intros H. split.
  - intros c Hc. apply H. by left.
  - apply (H "filtered"). by right.
Qed.

Lemma agreeAt_removeClassEverywhere n m m' :
  agreeAt n (removeClassEverywhere highlightClasses m)
            (removeClassEverywhere highlightClasses m').
Proof.
  intros c Hc. apply highlightKinds_classes in Hc as [Hc _].
  unfold removeClassEverywhere. rewrite !elem_of_difference. tauto.
Qed.

Lemma agreeAt_addClassEverywhere n c0 m m' :
  agreeAt n m m' →
  agreeAt n (addClassEverywhere c0 m) (addClassEverywhere c0 m').
Proof.
  intros H c Hc. specialize (H c Hc). unfold addClassEverywhere.
  rewrite !elem_of_union. tauto.
Qed.

Lemma agreeAt_removeDimmed n ids ids' m m' :
  agreeAt n m m' →
  agreeAt n (removeClass ids "dimmed" m) (removeClass ids' "dimmed" m').
Proof.
  intros H c Hc. specialize (H c Hc).
  apply highlightKinds_classes in Hc as [_ Hc].
  unfold removeClass. repeat case_decide;
    rewrite ?elem_of_difference, ?elem_of_singleton; tauto.
Qed.

Lemma agreeAt_addClass n ids ids' c0 m m' :
  (n ∈ ids ↔ n ∈ ids') →
  agreeAt n m m' → agreeAt n (addClass ids c0 m) (addClass ids' c0 m').
Proof.
  intros Hids H c Hc. specialize (H c Hc). unfold addClass.
  repeat case_decide; rewrite ?elem_of_union; tauto.
Qed.

Lemma agreeAt_addClass_l n ids c0 m m' :
  n ∉ ids → agreeAt n m m' → agreeAt n (addClass ids c0 m) m'.
Proof.
  intros Hids H c Hc. specialize (H c Hc). unfold addClass.
  by rewrite decide_False.
Qed.

Lemma agreeAt_addClass_r n ids c0 m m' :
  n ∉ ids → agreeAt n m m' → agreeAt n m (addClass ids c0 m').
Proof.
  intros Hids H c Hc. specialize (H c Hc). unfold addClass.
  by rewrite decide_False.
Qed.

Section Cy.

Variable cyNodes : list (Z * list string).
Variables incomers outgoers predecessors successors : Z → list Z.

Local Abbreviation highlight :=
  (highlightNodeAndDependencies cyNodes incomers outgoers predecessors
                                successors).
Local Abbreviation mark :=
  (markHighlight incomers outgoers predecessors successors).

(** The classes set before [applyFilters] do not depend on the
    filter, nor on the classes left by an earlier highlight. *)
Lemma markHighlight_agree (st st' : State) node n :
  showIndirect st' = showIndirect st →
  showDependents st' = showDependents st →
  agreeAt n (mark st node) (mark st' node).
Proof.
  intros Hi Hdep. unfold markHighlight, related, directRelated.
  rewrite Hi, Hdep.
  do 2 (apply agreeAt_addClass; [done |]).
  destruct (showIndirect st); [apply agreeAt_addClass; [done |] |];
    apply agreeAt_removeDimmed, agreeAt_addClassEverywhere,
      agreeAt_removeClassEverywhere.
Qed.

(** On the direct neighbours they do not depend on the depth mode
    either. *)
Lemma markHighlight_agree_direct (st st' : State) node n :
  showDependents st' = showDependents st →
  n ∈ directRelated incomers outgoers st node →
  agreeAt n (mark st node) (mark st' node).
Proof.
  intros Hdep Hn. unfold markHighlight.
  assert (directRelated incomers outgoers st' node
          = directRelated incomers outgoers st node) as ->.
  { unfold directRelated. by rewrite Hdep. }
  rewrite Hdep.
  do 2 (apply agreeAt_addClass; [done |]).
  assert (∀ rel, n ∉ list_difference rel
            (directRelated incomers outgoers st node)) as Hnot.
  { intros rel [_ Hin]%list_elem_of_difference. done. }
  destruct (showIndirect st), (showIndirect st');
    [ apply agreeAt_addClass_l; [apply Hnot |];
      apply agreeAt_addClass_r; [apply Hnot |]
    | apply agreeAt_addClass_l; [apply Hnot |]
    | apply agreeAt_addClass_r; [apply Hnot |]
    | ];
    apply agreeAt_removeDimmed, agreeAt_addClassEverywhere,
      agreeAt_removeClassEverywhere.
Qed.

Lemma unfiltered_mono (m m' : ClassMap) (ids : list Z) :
  (∀ n, n ∈ ids → filtersMoreAt n m' m) →
  unfiltered m' ids ⊆ unfiltered m ids.
Proof.
  intros Hm n. unfold unfiltered. rewrite !list_elem_of_filter.
  intros [Hnf Hin]. split; [| done].
  unfold hasClass in *. apply bool_decide_eq_false in Hnf.
  apply bool_decide_eq_false. intros Hf. apply Hnf.
  by apply (proj2 (Hm n Hin)).
Qed.

(** Monotonicity of the query in the filter, at a fixed direction and
    depth: with fewer categories enabled both reported lists lose
    lines and gain none. *)
Lemma highlight_monotone (st st' : State) node :
  showIndirect st' = showIndirect st →
  showDependents st' = showDependents st →
  disablesMore (filterState st') (filterState st) →
  ∃ before after,
    (highlight st node true).2 = Some before ∧
    (highlight st' node true).2 = Some after ∧
    neighbors after ⊆ neighbors before ∧
    indirectNeighbors after ⊆ indirectNeighbors before.
Proof.
  intros Hi Hdep Hd.
  assert (∀ n, filtersMoreAt n
            (applyFilters cyNodes (filterState st') (mark st' node))
            (applyFilters cyNodes (filterState st) (mark st node))) as Hm.
  { intros n. apply applyFilters_mono; [done |].
    by apply agreeAt_filtersMoreAt, markHighlight_agree. }
  unfold highlightNodeAndDependencies. simpl.
  eexists _, _. split; [done |]. split; [done |]. simpl.
  unfold related, directRelated. rewrite Hi, Hdep.
  split; [apply unfiltered_mono; auto |].
  destruct (showIndirect st); [apply unfiltered_mono; auto | done].
Qed.

(** The direct neighbours reported lose lines and gain none when
    categories are disabled, whatever happens to the depth mode. *)
Lemma highlight_direct_monotone (st st' : State) node :
  showDependents st' = showDependents st →
  disablesMore (filterState st') (filterState st) →
  ∃ before after,
    (highlight st node true).2 = Some before ∧
    (highlight st' node true).2 = Some after ∧
    neighbors after ⊆ neighbors before.
Proof.
  intros Hdep Hd.
  unfold highlightNodeAndDependencies. simpl.
  eexists _, _. split; [done |]. split; [done |]. simpl.
  assert (directRelated incomers outgoers st' node
          = directRelated incomers outgoers st node) as ->.
  { unfold directRelated. by rewrite Hdep. }
  apply unfiltered_mono. intros n Hn.
  apply applyFilters_mono; [done |].
  by apply agreeAt_filtersMoreAt, markHighlight_agree_direct.
Qed.

(** C6.  Filter monotonicity.  With a vertex selected, in every state
    of the view (direction, depth mode, filter state), re-running the
    query with one more category disabled and the direction and depth
    mode unchanged reports direct and indirect lists that are included
    in the previous ones: disabling a category only removes lines.
    For the handler of the checkbox, which switches the depth mode to
    direct plus indirect before it re-runs the query: its direct list
    is included in the previous one, and its indirect list is included
    in the previous one when the indirect mode was already on, that is
    when the depth mode is unchanged.  The handler of the earlier
    revision leaves the depth mode alone and both its lists are
    included in the previous ones. *)
Theorem filter_monotone (st : State) (node : Z) (category : string) :
  selectedNode st = Some node →
  ∃ before after reported legacyReported,
    (highlight st node true).2 = Some before ∧
    (highlight (mkState (showIndirect st) (showDependents st)
                        (selectedNode st)
                        (<[category := false]> (filterState st))
                        (classes st)) node true).2 = Some after ∧
    neighbors after ⊆ neighbors before ∧
    indirectNeighbors after ⊆ indirectNeighbors before ∧
    (onFilterChange cyNodes incomers outgoers predecessors successors
                    st category false).2 = Some reported ∧
    neighbors reported ⊆ neighbors before ∧
    (showIndirect st = true →
     indirectNeighbors reported ⊆ indirectNeighbors before) ∧
    (legacyOnFilterChange cyNodes incomers outgoers predecessors successors
                          st category false).2 = Some legacyReported ∧
    neighbors legacyReported ⊆ neighbors before ∧
    indirectNeighbors legacyReported ⊆ indirectNeighbors before.
Proof.
  intros Hsel.
  pose proof (disablesMore_insert_false (filterState st) category) as Hd.
  destruct (highlight_monotone st
              (mkState (showIndirect st) (showDependents st) (selectedNode st)
                 (<[category := false]> (filterState st)) (classes st)) node)
    as (before & after & Hb & Ha & H1 & H2); [done .. |].
  destruct (highlight_direct_monotone st
              (mkState true (showDependents st) (selectedNode st)
                 (<[category := false]> (filterState st))
                 (applyFilters cyNodes (<[category := false]> (filterState st))
                    (classes st))) node)
    as (before' & reported & Hb' & Hr & H3); [done .. |].
  destruct (highlight_monotone st
              (mkState (showIndirect st) (showDependents st) (selectedNode st)
                 (<[category := false]> (filterState st))
                 (applyFilters cyNodes (<[category := false]> (filterState st))
                    (classes st))) node)
    as (before'' & legacyReported & Hb'' & Hl & H4 & H5); [done .. |].
  rewrite Hb in Hb', Hb''. injection Hb' as <-. injection Hb'' as <-.
  exists before, after, reported, legacyReported.
  split_and!; try done.
  - unfold onFilterChange, rehighlight. simpl. by rewrite Hsel.
  - intros Hind.
    destruct (highlight_monotone st
                (mkState true (showDependents st) (selectedNode st)
                   (<[category := false]> (filterState st))
                   (applyFilters cyNodes
                      (<[category := false]> (filterState st))
                      (classes st))) node)
      as (b & r & Hb2 & Hr2 & _ & H6); [done .. |].
    rewrite Hb in Hb2. injection Hb2 as <-.
    rewrite Hr in Hr2. injection Hr2 as <-. done.
  - unfold legacyOnFilterChange, rehighlight. simpl. by rewrite Hsel.
Qed.

End Cy.

End WebviewFacts.

(** ** Deselection *)

Module SelectionFacts.

Import Editor Webview Decorations.

Section Deselect.

Variable cyNodes : list (Z * list string).
Variables incomers outgoers predecessors successors : Z → list Z.
Variable window : Window.
Variable ext : Extension.

(** C10.  A tap on the selected vertex clears the selection of the
    view and posts a request for line 0 with no neighbours.  The
    extension accepts line 0: the request passes the range check and
    the calls made are one [setDecorations] with no range for each of
    the five decoration types on the editor of the analyzed file,
    followed by the timer; so every one of the five types shows
    nothing afterwards, whatever it showed before, and nothing else
    happens: no decoration is set, no line is revealed, no warning is
    shown. *)
Theorem deselect_sentinel (st : State) (node : Z) (editor : TextEditor) :
  selectedNode st = Some node →
  highlightsEnabled ext = true →
  findEditor window ext = Some editor →
  ∃ st',
    onTapNode cyNodes incomers outgoers predecessors successors st node
    = (st', Some (mkMessage 0 [] [] (showDependents st))) ∧
    selectedNode st' = None ∧
    onDidReceiveMessage window ext (mkMessage 0 [] [] (showDependents st))
    = ([ SetDecorations editor directDependencyDecoration [];
         SetDecorations editor indirectDependencyDecoration [];
         SetDecorations editor directDependantDecoration [];
         SetDecorations editor indirectDependantDecoration [];
         SetDecorations editor selectedDecoration [];
         ResetUpdatingAfter 100 ],
       mkExtension (analyzedFileUri ext) (highlightsEnabled ext) true) ∧
    (∀ ns ins sd,
       highlightLines window ext 0 ns ins sd
       = ([ SetDecorations editor directDependencyDecoration [];
            SetDecorations editor indirectDependencyDecoration [];
            SetDecorations editor directDependantDecoration [];
            SetDecorations editor indirectDependantDecoration [];
            SetDecorations editor selectedDecoration [];
            ResetUpdatingAfter 100 ],
          mkExtension (analyzedFileUri ext) (highlightsEnabled ext) true)) ∧
    (∀ shown decoration,
       shownAfter editor shown
         (onDidReceiveMessage window ext
            (mkMessage 0 [] [] (showDependents st))).1 decoration
       = []) ∧
    (∀ ns ins sd shown decoration,
       shownAfter editor shown (highlightLines window ext 0 ns ins sd).1
         decoration
       = []).
Proof.
  intros Hsel Hen Hed.
  assert (∀ ns ins sd,
            highlightLines window ext 0 ns ins sd
            = ([ SetDecorations editor directDependencyDecoration [];
                 SetDecorations editor indirectDependencyDecoration [];
                 SetDecorations editor directDependantDecoration [];
                 SetDecorations editor indirectDependantDecoration [];
                 SetDecorations editor selectedDecoration [];
                 ResetUpdatingAfter 100 ],
               mkExtension (analyzedFileUri ext) (highlightsEnabled ext) true))
    as Hzero.
  { intros ns ins sd.
    by rewrite (EditorFacts.highlightLines_zero window ext editor ns ins sd Hed). }
  assert (∀ shown decoration,
            shownAfter editor shown
              [ SetDecorations editor directDependencyDecoration [];
                SetDecorations editor indirectDependencyDecoration [];
                SetDecorations editor directDependantDecoration [];
                SetDecorations editor indirectDependantDecoration [];
                SetDecorations editor selectedDecoration [];
                ResetUpdatingAfter 100 ] decoration = []) as Hshown.
  { intros shown decoration. unfold shownAfter. simpl.
    destruct (decide (editor = editor)) as [_ | Hne]; [| done].
    by destruct decoration. }
  assert (onDidReceiveMessage window ext (mkMessage 0 [] [] (showDependents st))
          = ([ SetDecorations editor directDependencyDecoration [];
               SetDecorations editor indirectDependencyDecoration [];
               SetDecorations editor directDependantDecoration [];
               SetDecorations editor indirectDependantDecoration [];
               SetDecorations editor selectedDecoration [];
               ResetUpdatingAfter 100 ],
             mkExtension (analyzedFileUri ext) (highlightsEnabled ext) true))
    as Hmsg.
  { unfold onDidReceiveMessage. simpl. rewrite Hzero. by rewrite Hen. }
  eexists. split_and!.
  - unfold onTapNode. rewrite decide_True by done. reflexivity.
  - done.
  - exact Hmsg.
  - exact Hzero.
  - intros shown decoration. rewrite Hmsg. apply Hshown.
  - intros ns ins sd shown decoration. rewrite Hzero. apply Hshown.
Qed.

End Deselect.

End SelectionFacts.

(** ** The statements on concrete inputs *)

Module Checks.

Import JS Examples.

(** *** Graph construction *)

Lemma bypass_example_edges :
  Graph.rawEdgesOf matchPosition "a.vpr" bypassNodes bypassEdges
  = [(2, 5); (5, 7)] ∧
  Graph.graphEdges
    (Graph.loadGraphFromCSV matchPosition "a.vpr" true bypassNodes bypassEdges)
  = [(2, 5); (2, 7)].
Proof. split; vm_compute; reflexivity. Qed.

Lemma bypass_correctness_witness :
  Forall (λ e,
    (∃ nd, nd ∈ Graph.graphNodes
                  (Graph.loadGraphFromCSV matchPosition "a.vpr" true
                     bypassNodes bypassEdges)
           ∧ Graph.lineNumber nd = Graph.source e) ∧
    ∀ nd, nd ∈ Graph.graphNodes
                 (Graph.loadGraphFromCSV matchPosition "a.vpr" true
                    bypassNodes bypassEdges) →
          Graph.lineNumber nd = Graph.source e →
          "ExplicitAssertion" ∉ Graph.categoriesOf nd
          ∨ ∀ p, (p, Graph.source e)
                 ∉ Graph.rawEdgesOf matchPosition "a.vpr" bypassNodes bypassEdges)
    [(2, 5); (2, 7)].
Proof.
  pose proof (GraphFacts.bypass_correctness matchPosition "a.vpr" true
                bypassNodes bypassEdges) as H.
  rewrite (proj2 bypass_example_edges) in H. exact H.
Defined.




(** The two data rows of the input resolve to the same pair of lines
    and carry different labels.  The claim allows one edge for them in
    the derived file; the file has one row for each label (the edge set
    in memory has one edge). *)
Lemma translated_file_keeps_labels :
  Translate.translateEdgesToLineNumbers matchLine labelNodes labelEdges
  = Some (Translate.mkTranslated edgesHeader
            [Translate.edgeKey 1 2 "L1"; Translate.edgeKey 1 2 "L2"]) ∧
  Translate.edgeKey 1 2 "L1" ≠ Translate.edgeKey 1 2 "L2" ∧
  Graph.rawEdgesOf matchPosition "a.vpr" labelNodes labelEdges = [(1, 2)] ∧
  Graph.graphEdges
    (Graph.loadGraphFromCSV matchPosition "a.vpr" true labelNodes labelEdges)
  = [(1, 2)].
Proof. split_and!; vm_compute; (reflexivity || discriminate). Qed.

Lemma dedup_witness :
  ∃ out,
    Translate.translateEdgesToLineNumbers matchLine labelNodes labelEdges
    = Some out ∧
    NoDup (Translate.translatedRows out) ∧
    ∀ k, k ∈ Translate.translatedRows out ↔
         ∃ parts,
           parts ∈ [["m1"; "m2"; "L1"]; ["m1"; "m2"; "L2"]] ∧
           Translate.yields
             (Translate.buildNodeToLine matchLine
                [ nodesHeader;
                  nodeRow "m1" "Assumption" "Explicit" "a.vpr @ line 1";
                  nodeRow "m2" "Assertion" "Implicit" "a.vpr @ line 2" ])
             parts k.
Proof.
  apply (proj1 (proj2 (proj2
           (EdgeSetFacts.dedup_by_pair_in_memory_by_row_in_file
              matchPosition matchLine "a.vpr" true labelNodes labelEdges)))
           _ _ eq_refl eq_refl).
Defined.

Lemma file_check_in_memory_only_witness :
  Graph.rawEdges
    (Graph.edgeStep "a.vpr" (Graph.nodeTablesOf matchPosition "a.vpr" bypassNodes)
       Graph.emptyEdgeTables ["x1"; "n7"; "dep"])
  = [].
Proof.
  apply (proj1 (proj2 (EdgeSetFacts.file_check_in_memory_only matchPosition
                         matchLine "a.vpr" true bypassNodes bypassEdges))
           Graph.emptyEdgeTables ["x1"; "n7"; "dep"]).
  left. vm_compute. discriminate.
Defined.

Lemma no_self_edges_no_duplicates_witness :
  Forall (λ k, ∃ s t label, k = Translate.edgeKey s t label ∧ s ≠ t)
    [Translate.edgeKey 1 2 "L1"; Translate.edgeKey 1 2 "L2"].
Proof.
  apply (proj2 (proj2 (proj2
           (EdgeSetFacts.no_self_edges_no_duplicates matchPosition matchLine
              "a.vpr" true labelNodes labelEdges)))
           (Translate.mkTranslated edgesHeader
              [Translate.edgeKey 1 2 "L1"; Translate.edgeKey 1 2 "L2"])).
  vm_compute. reflexivity.
Defined.

(** The data row from the node x1, on line 4 of b.vpr, to the node n7,
    on line 7 of the analyzed file a.vpr, is kept: the derived file has
    the row 4,7,dep, in this revision and in the earlier ones, and the
    graph that the earlier revisions read back from that file has the
    edge from 4 to 7 and the vertex 4.  The raw edge set that this
    revision builds in memory has no such edge. *)
Lemma translated_file_has_cross_file_rows :
  Graph.nodeIdToFile (Graph.nodeTablesOf matchPosition "a.vpr" bypassNodes)
    !! "x1" = Some "b.vpr" ∧
  Graph.nodeIdToLine (Graph.nodeTablesOf matchPosition "a.vpr" bypassNodes)
    !! "x1" = Some 4 ∧
  GraphTerms.dataRows bypassEdges
  = [ ["n2"; "n1"; "dep"]; ["n1"; "n7"; "dep"]; ["x1"; "n7"; "dep"] ] ∧
  Translate.translateEdgesToLineNumbers matchLine bypassNodes bypassEdges
  = Some (Translate.mkTranslated edgesHeader
            [ Translate.edgeKey 2 5 "dep"; Translate.edgeKey 5 7 "dep";
              Translate.edgeKey 4 7 "dep" ]) ∧
  LegacyGraph.translateEdgesToLineNumbers matchLine
    MoreExamples.legacyBypassNodes bypassEdges
  = Some (Translate.mkTranslated edgesHeader
            [ Translate.edgeKey 2 5 "dep"; Translate.edgeKey 5 7 "dep";
              Translate.edgeKey 4 7 "dep" ]) ∧
  LegacyGraph.loadEdges
    (LegacyGraph.translatedFile MoreExamples.headerLine
       [ Translate.edgeKey 2 5 "dep"; Translate.edgeKey 5 7 "dep";
         Translate.edgeKey 4 7 "dep" ])
  = LegacyGraph.mkLoaded [2; 5; 7; 4] [(2, 5); (5, 7); (4, 7)] ∧
  Graph.rawEdgesOf matchPosition "a.vpr" bypassNodes bypassEdges
  = [(2, 5); (5, 7)].
Proof. split_and!; vm_compute; reflexivity. Qed.

(** *** The line-content records *)

(** A line with two leading spaces: the record decodes to the text
    without them, not to the original text.  A line with a carriage
    return inside (which trimming leaves alone): the record decodes to
    the text up to the last double quote before the carriage return. *)
Lemma indented_line_is_trimmed :
  LinesCsv.decodeLine (LinesCsv.encodeLine 0 indentedLine) = Some (1, [120%N]) ∧
  LinesCsv.decodeLine (LinesCsv.encodeLine 0 indentedLine)
  ≠ Some (1, indentedLine) ∧
  LinesCsv.trim carriageReturnLine = carriageReturnLine ∧
  LinesCsv.decodeLine (LinesCsv.encodeLine 0 carriageReturnLine)
  = Some (1, [97%N; 34%N]) ∧
  LinesCsv.decodeLine (LinesCsv.encodeLine 0 carriageReturnLine)
  ≠ Some (1, carriageReturnLine).
Proof. split_and!; vm_compute; (reflexivity || discriminate). Qed.

Lemma line_content_roundtrip_witness :
  LinesCsv.decodeLine (LinesCsv.encodeLine 3 quotedLine)
  = Some (4, LinesCsv.trim quotedLine).
Proof.
  apply (proj1 (proj2 LinesCsvFacts.line_content_roundtrip) 3%nat quotedLine).
  unfold LinesCsv.noLineTerminator.
  assert (LinesCsv.trim quotedLine = quotedLine) as -> by (vm_compute; reflexivity).
  unfold quotedLine. simpl. repeat constructor.
Defined.

(** *** The editor *)

(** Line 0 is below 1, and the request for it shows no warning: it
    clears the decorations. *)
Lemma line_zero_is_not_warned :
  0 < 1 ∧
  Editor.highlightLines window3 extension3 0 [] [] false
  = (Editor.clearEditorDecorations editor3 ++ [Editor.ResetUpdatingAfter 100],
     Editor.mkExtension (Some "/w/a.vpr") true true) ∧
  Editor.ShowWarningMessage (Editor.outOfRangeMessage 0)
  ∉ (Editor.highlightLines window3 extension3 0 [] [] false).1.
Proof.
  split_and!; [lia | vm_compute; reflexivity |].
  assert ((Editor.highlightLines window3 extension3 0 [] [] false).1
          = Editor.clearEditorDecorations editor3
            ++ [Editor.ResetUpdatingAfter 100]) as -> by (vm_compute; reflexivity).
  unfold Editor.clearEditorDecorations. simpl.
  rewrite !elem_of_cons, elem_of_nil. intros [H | [H | [H | [H | [H | [H | []]]]]]];
    discriminate H.
Qed.

Lemma out_of_range_warns_witness :
  Editor.highlightLines window3 extension3 4 [1] [2] false
  = ([Editor.ShowWarningMessage (Editor.outOfRangeMessage 4);
      Editor.ResetUpdatingAfter 100],
     Editor.mkExtension (Some "/w/a.vpr") true true).
Proof.
  apply (EditorFacts.out_of_range_warns window3 extension3 editor3 4 [1] [2]
           false eq_refl).
  right. vm_compute. reflexivity.
Defined.

Lemma decorations_in_bounds_witness :
  ∃ selected directLines indirectLines,
    Editor.highlightLines window3 extension3 2 [1; 2; 3; 7; 0] [9; 3] true =
      (Editor.clearEditorDecorations editor3 ++
       [ Editor.SetDecorations editor3 Editor.directDependantDecoration directLines;
         Editor.SetDecorations editor3 Editor.indirectDependantDecoration
           indirectLines;
         Editor.SetDecorations editor3 Editor.selectedDecoration [selected];
         Editor.RevealRange editor3 selected;
         Editor.ResetUpdatingAfter 100 ],
       Editor.mkExtension (Some "/w/a.vpr") true true) ∧
    (Editor.highlightBody window3 extension3 2 [1; 2; 3; 7; 0] [9; 3] true).2
    = inl tt ∧
    Editor.linesOf [selected] = [2] ∧
    (∀ n, n ∈ Editor.linesOf directLines ↔
          n ∈ [1; 2; 3; 7; 0] ∧ 1 ≤ n ≤ 3 ∧ n ≠ 2) ∧
    (∀ n, n ∈ Editor.linesOf indirectLines ↔
          n ∈ [9; 3] ∧ 1 ≤ n ≤ 3 ∧ n ≠ 2).
Proof.
  apply (EditorFacts.decorations_in_bounds window3 extension3 editor3 2
           [1; 2; 3; 7; 0] [9; 3] true eq_refl).
  vm_compute. split; discriminate.
Defined.

(** *** The graph view *)

(** The handler of a checkbox changes the depth mode as well as the
    filter.  Vertex 3 of the chain is selected in direct-only mode and
    line 2 is reported; the handler switches the indirect mode on, so
    its message also lists line 1, the indirect neighbour that the
    direct-only query left out.  This is the change of depth mode, not
    an effect of the filter: at a fixed depth mode no line is added. *)
Lemma filter_change_adds_indirect_lines :
  (chainHighlight chainState 3 true).2 = Some (Webview.mkMessage 3 [2] [] false) ∧
  (chainFilterChange chainState "ImplicitAssertion" false).2
  = Some (Webview.mkMessage 3 [2] [1] false) ∧
  ¬ ([2] ++ [1] ⊆ [2] ++ ([] : list Z)).
Proof.
  split_and!; [vm_compute; reflexivity | vm_compute; reflexivity |].
  intros H. specialize (H 1). rewrite !elem_of_app, !elem_of_cons, !elem_of_nil in H.
  destruct H as [[H | []] | []]; [tauto | discriminate H].
Qed.

Lemma filter_monotone_witness :
  ∃ before after reported legacyReported,
    (chainHighlight chainState 3 true).2 = Some before ∧
    (chainHighlight
       (Webview.mkState false false (Some 3)
          (<["ExplicitAssumption" := false]> Webview.initialFilterState)
          (λ _, ∅)) 3 true).2 = Some after ∧
    Webview.neighbors after ⊆ Webview.neighbors before ∧
    Webview.indirectNeighbors after ⊆ Webview.indirectNeighbors before ∧
    (chainFilterChange chainState "ExplicitAssumption" false).2 = Some reported ∧
    Webview.neighbors reported ⊆ Webview.neighbors before ∧
    (false = true →
     Webview.indirectNeighbors reported ⊆ Webview.indirectNeighbors before) ∧
    (Webview.legacyOnFilterChange chainNodes
       (Webview.incomersOf chainEdges) (Webview.outgoersOf chainEdges)
       (Webview.predecessorsOf chainEdges) (Webview.successorsOf chainEdges)
       chainState "ExplicitAssumption" false).2 = Some legacyReported ∧
    Webview.neighbors legacyReported ⊆ Webview.neighbors before ∧
    Webview.indirectNeighbors legacyReported ⊆ Webview.indirectNeighbors before.
Proof.
  apply (WebviewFacts.filter_monotone chainNodes
           (Webview.incomersOf chainEdges) (Webview.outgoersOf chainEdges)
           (Webview.predecessorsOf chainEdges) (Webview.successorsOf chainEdges)
           chainState 3 "ExplicitAssumption" eq_refl).
Defined.

Lemma deselect_sentinel_witness :
  (Webview.onTapNode chainNodes
     (Webview.incomersOf chainEdges) (Webview.outgoersOf chainEdges)
     (Webview.predecessorsOf chainEdges) (Webview.successorsOf chainEdges)
     chainState 3).2
  = Some (Webview.mkMessage 0 [] [] false) ∧
  Editor.highlightLines window3 extension3 0 [] [] false
  = ([ Editor.SetDecorations editor3 Editor.directDependencyDecoration [];
       Editor.SetDecorations editor3 Editor.indirectDependencyDecoration [];
       Editor.SetDecorations editor3 Editor.directDependantDecoration [];
       Editor.SetDecorations editor3 Editor.indirectDependantDecoration [];
       Editor.SetDecorations editor3 Editor.selectedDecoration [];
       Editor.ResetUpdatingAfter 100 ],
     Editor.mkExtension (Some "/w/a.vpr") true true) ∧
  Decorations.shownAfter editor3 (λ _, [Editor.mkRange 0 0 0 10])
    (Editor.highlightLines window3 extension3 0 [] [] false).1
    Editor.selectedDecoration
  = [].
Proof.
  destruct (SelectionFacts.deselect_sentinel chainNodes
              (Webview.incomersOf chainEdges) (Webview.outgoersOf chainEdges)
              (Webview.predecessorsOf chainEdges) (Webview.successorsOf chainEdges)
              window3 extension3 chainState 3 editor3 eq_refl eq_refl eq_refl)
    as (st' & Htap & _ & _ & Hzero & _ & Hshown).
  split_and!.
  - by rewrite Htap.
  - apply Hzero.
  - apply Hshown.
Defined.

End Checks.

(** ** The result of bypass resolution, exactly *)

Module BypassFacts.

Import JS Graph GraphTerms GraphFacts.

Section Exact.

Variable categories : gmap Z (list string).
Variable pm : gmap Z (list Z).

Local Abbreviation bypassed := (Graph.bypassed categories).
Local Abbreviation terminal := (Graph.terminal categories pm).
Local Abbreviation parent := (Graph.parent pm).
Local Abbreviation through := (GraphTerms.through categories pm).
Local Abbreviation visits := (GraphTerms.visits categories pm).

Lemma terminal_not_through line p : terminal line → ¬ through line p.
Proof.
  intros [Hnb | Hnp] [Hb Hp]; [done |].
  unfold noParents in Hnp. unfold Graph.parent in Hp. rewrite Hnp in Hp.
  by apply elem_of_nil in Hp.
Qed.

Lemma visits_stop line v :
  line ∉ v → terminal line → visits line v [line] ({[line]} ∪ v).
Proof.
  intros Hv Hterm. unfold GraphTerms.visits. split_and!.
  - set_solver.
  - set_solver.
  - apply NoDup_singleton.
  - intros r. rewrite list_elem_of_singleton, elem_of_union, elem_of_singleton.
    split; [intros ->; tauto | intros ([-> | ?] & ? & ?); done].
  - intros x y Hx Hnx Hs.
    apply elem_of_union in Hx as [->%elem_of_singleton | ?]; [| done].
    by destruct (terminal_not_through line y).
  - intros x Hx Hnx.
    apply elem_of_union in Hx as [->%elem_of_singleton | ?]; [| done].
    apply rtc_refl.
Qed.

Lemma resolveParents_visits rec ps acc v rs v' :
  (∀ p w found w', p ∈ ps → rec p w = Some (found, w') → visits p w found w') →
  resolveParents rec ps acc v = Some (rs, v') →
  v ⊆ v' ∧ (∀ p, p ∈ ps → p ∈ v') ∧
  (∃ new, rs = acc ++ new ∧ NoDup new ∧
          ∀ r, r ∈ new ↔ r ∈ v' ∧ (r ∉ v) ∧ terminal r) ∧
  (∀ x y, x ∈ v' → x ∉ v → through x y → y ∈ v') ∧
  (∀ x, x ∈ v' → x ∉ v → ∃ p, p ∈ ps ∧ rtc through p x).
Proof.
  revert acc v. induction ps as [| p ps IH]; intros acc v Hrec; simpl.
  - intros [= <- <-]. split_and!; [done | | | done ..].
    + intros p Hp. by apply elem_of_nil in Hp.
    + exists []. rewrite app_nil_r. split_and!; [done | constructor |].
      intros r. rewrite elem_of_nil. tauto.
  - destruct (rec p v) as [[found w] |] eqn:Ep; [| done]. intros Hres.
    destruct (Hrec p v found w) as (Hvw & Hpw & Hnd & Hfound & Hclos & Hreach);
      [left | done |].
    destruct (IH (acc ++ found) w)
      as (Hwv' & Hps & (new & -> & Hnd' & Hnew) & Hclos' & Hreach');
      [intros q u f u' Hq; apply Hrec; by right | done |].
    split_and!.
    + etrans; done.
    + intros q [-> | Hq]%elem_of_cons; [by apply Hwv' | by apply Hps].
    + exists (found ++ new). split; [by rewrite app_assoc |]. split.
      * apply NoDup_app. split_and!; [done | | done].
        intros r Hr Hr'. apply Hfound in Hr as (? & _).
        apply Hnew in Hr' as (_ & ? & _). done.
      * intros r. rewrite elem_of_app, Hfound, Hnew.
        destruct (decide (r ∈ w)) as [Hw | Hw].
        -- split; [intros [(_ & ? & ?) | (? & ? & ?)]; [| done] | left; tauto].
           split_and!; [by apply Hwv' | done ..].
        -- split; [intros [(? & _) | (? & _ & ?)]; [done |] | right; tauto].
           split_and!; [done | | done]. intros Hv. by apply Hw, Hvw.
    + intros x y Hx Hnx Hs. destruct (decide (x ∈ w)) as [Hw | Hw].
      * apply Hwv'. by eapply Hclos.
      * by eapply Hclos'.
    + intros x Hx Hnx. destruct (decide (x ∈ w)) as [Hw | Hw].
      * exists p. split; [left | by apply Hreach].
      * destruct (Hreach' x Hx Hw) as (q & ? & ?). exists q.
        split; [by right | done].
Qed.

Lemma resolveRealSources_visits fuel line v rs v' :
  resolveRealSources categories pm fuel line v = Some (rs, v') →
  visits line v rs v'.
Proof.
  revert line v rs v'. induction fuel as [| fuel IH]; intros line v rs v'; simpl;
    [done |].
  case_decide as Hv.
  { intros [= <- <-]. unfold GraphTerms.visits.
    split_and!; [done | done | constructor | | done ..].
    intros r. rewrite elem_of_nil. tauto. }
  destruct (shouldBypass (default [] (categories !! line))) eqn:Eb; simpl.
  - apply shouldBypass_true in Eb.
    destruct (pm !! line) as [ps |] eqn:Eps.
    + case_decide as Hlen.
      * intros [= <- <-]. apply visits_stop; [done |]. right.
        unfold noParents, parentsOf. rewrite Eps. simpl.
        by apply nil_length_inv.
      * intros Hres.
        apply resolveParents_visits in Hres
          as (Hsub & Hps & (new & -> & Hnd & Hnew) & Hclos & Hreach);
          [| intros p w found w' _; apply IH].
        assert (parentsOf pm line = ps) as Hpar
          by (unfold parentsOf; by rewrite Eps).
        assert (¬ terminal line) as Hnt.
        { intros [Hnb | Hnp]; [done |]. unfold noParents in Hnp.
          rewrite Hpar in Hnp. apply Hlen. by rewrite Hnp. }
        unfold GraphTerms.visits. simpl. split_and!.
        -- set_solver.
        -- set_solver.
        -- done.
        -- intros r. rewrite Hnew. split.
           ++ intros (? & Hr & ?). split_and!; [done | set_solver | done].
           ++ intros (? & Hr & ?). split_and!; [done | | done].
              intros [->%elem_of_singleton | ?]%elem_of_union; done.
        -- intros x y Hx Hnx [Hb Hp].
           destruct (decide (x = line)) as [-> | Hne].
           ++ apply Hps. unfold Graph.parent in Hp. by rewrite Hpar in Hp.
           ++ eapply Hclos; [done | | done]. set_solver.
        -- intros x Hx Hnx. destruct (decide (x = line)) as [-> | Hne];
             [apply rtc_refl |].
           destruct (Hreach x) as (p & Hp & Hpx); [done | set_solver |].
           eapply rtc_l; [| exact Hpx]. split; [done |].
           unfold Graph.parent. by rewrite Hpar.
    + intros [= <- <-]. apply visits_stop; [done |]. right.
      unfold noParents, parentsOf. by rewrite Eps.
  - intros [= <- <-]. apply visits_stop; [done |]. left.
    intros Hb. apply shouldBypass_true in Hb. congruence.
Qed.

(** A resolution started with an empty visited set returns, once each,
    exactly the lines at which it stops and which it reaches by looking
    through tagged lines. *)
Lemma resolveRealSources_exact fuel line rs v' :
  resolveRealSources categories pm fuel line ∅ = Some (rs, v') →
  NoDup rs ∧ ∀ r, r ∈ rs ↔ terminal r ∧ rtc through line r.
Proof.
  intros (_ & Hline & Hnd & Hrs & Hclos & Hreach)%resolveRealSources_visits.
  split; [done |]. intros r. rewrite Hrs. split.
  - intros (Hr & Hne & Hterm). split; [done |]. by apply Hreach.
  - intros [Hterm Hpath]. split_and!; [| set_solver | done].
    clear Hterm Hrs. revert r Hpath.
    apply (rtc_ind_r (λ r, r ∈ v')); [done |]. intros y z _ Hs IHp.
    eapply Hclos; [exact IHp | set_solver | done].
Qed.

End Exact.

Section Stated.

Variable categories : gmap Z (list string).
Variable raw : list Edge.

Lemma stopsAt_terminal line :
  stopsAt categories raw line ↔ terminal categories (buildParentMap raw) line.
Proof.
  unfold stopsAt, terminal, rawParent. rewrite noParents_raw. done.
Qed.

Lemma looksThrough_through line p :
  looksThrough categories raw line p ↔
  through categories (buildParentMap raw) line p.
Proof.
  unfold looksThrough, through, rawParent, parent.
  rewrite buildParentMap_parents. done.
Qed.

Lemma realSourcesOf_exact line :
  NoDup (realSourcesOf categories raw line) ∧
  ∀ r, r ∈ realSourcesOf categories raw line ↔
       stopsAt categories raw r ∧ rtc (looksThrough categories raw) line r.
Proof.
  destruct (realSourcesOf_enough_fuel categories raw line) as [v' Hres].
  specialize (Hres (resolveFuel raw) (le_n _)).
  apply resolveRealSources_exact in Hres as [Hnd Hrs].
  split; [done |]. intros r. rewrite Hrs, stopsAt_terminal. split.
  - intros [? Hpath]. split; [done |].
    eapply rtc_subrel; [| exact Hpath]. intros x y. apply looksThrough_through.
  - intros [? Hpath]. split; [done |].
    eapply rtc_subrel; [| exact Hpath]. intros x y. apply looksThrough_through.
Qed.

(** X1.  One resolution, exactly.  The real sources of a line are, once
    each, the lines at which the resolution stops (no ExplicitAssertion
    category, or no raw edge into the line) and that are reached from
    the line by going back along raw edges through lines that carry
    ExplicitAssertion; the bound on the recursion is not reached. *)
Theorem real_sources_exact (line : Z) :
  (∃ v', resolveRealSources categories (buildParentMap raw) (resolveFuel raw)
           line ∅ = Some (realSourcesOf categories raw line, v')) ∧
  NoDup (realSourcesOf categories raw line) ∧
  ∀ r, r ∈ realSourcesOf categories raw line ↔
       stopsAt categories raw r ∧ rtc (looksThrough categories raw) line r.
Proof.
  split; [| apply realSourcesOf_exact].
  destruct (realSourcesOf_enough_fuel categories raw line) as [v' Hres].
  exists v'. by apply Hres.
Qed.

End Stated.

Section Final.

Variable matchPosition : string → option (string * Z).
Variable analyzedFileName : string.
Variables nodesRows edgesRows : option (list (list string)).

Local Abbreviation g :=
  (loadGraphFromCSV matchPosition analyzedFileName true nodesRows edgesRows).
Local Abbreviation tb := (nodeTablesOf matchPosition analyzedFileName nodesRows).
Local Abbreviation raw :=
  (rawEdgesOf matchPosition analyzedFileName nodesRows edgesRows).

Lemma raw_no_self_edge e : e ∈ raw → source e ≠ target e.
Proof.
  intros He.
  apply (proj2 (loadEdges_spec _ _ _)) in He as (rows & parts & _ & _ & _ & Hi).
  by apply intraFileEdge_Some in Hi as (_ & _ & _ & _ & ?).
Qed.

(** X2.  The edges of the built graph, exactly.  An edge from [r] to
    [t] is drawn if and only if [r] differs from [t] and some raw edge
    into [t] has a source from which the resolution reaches [r] and
    stops there.  In particular a raw edge is kept as it is exactly
    when the resolution stops at its source. *)
Theorem final_edges_exact :
  (∀ e, e ∈ graphEdges g ↔
        source e ≠ target e ∧
        ∃ s, (s, target e) ∈ raw ∧
             stopsAt (nodeCategories tb) raw (source e) ∧
             rtc (looksThrough (nodeCategories tb) raw) s (source e)) ∧
  (∀ e, e ∈ raw → e ∈ graphEdges g ↔ stopsAt (nodeCategories tb) raw (source e)).
Proof.
  assert (∀ e, e ∈ graphEdges g ↔
        source e ≠ target e ∧
        ∃ s, (s, target e) ∈ raw ∧
             stopsAt (nodeCategories tb) raw (source e) ∧
             rtc (looksThrough (nodeCategories tb) raw) s (source e)) as Hall.
  { intros e. unfold loadGraphFromCSV. simpl.
    rewrite (proj2 (rebuildEdges_spec _ _)). split.
    - intros (s & Hs & Hr & Hne). split; [done |]. exists s. split; [done |].
      by apply realSourcesOf_exact.
    - intros (Hne & s & Hs & Hstop & Hpath). exists s. split_and!; [done | | done].
      by apply realSourcesOf_exact. }
  split; [exact Hall |]. intros [s t] He. rewrite Hall. simpl. split.
  - intros (_ & _ & _ & ? & _). done.
  - intros Hstop. split; [by apply (raw_no_self_edge (s, t)) |].
    exists s. split_and!; [done | done | apply rtc_refl].
Qed.

End Final.

End BypassFacts.

(** ** The vertices of the built graph *)

Module VertexFacts.

Import JS Graph GraphTerms GraphFacts.

Section Vertices.

Variable categories : gmap Z (list string).
Variable raw : list Edge.

Lemma emitStep_nodes tgt rs r :
  NoDup (nodes rs) →
  (∀ x, x ∈ nodes rs → ∃ e, e ∈ edges rs ∧ (x = source e ∨ x = target e)) →
  NoDup (nodes (emitStep tgt rs r)) ∧
  ∀ x, x ∈ nodes (emitStep tgt rs r) →
       ∃ e, e ∈ edges (emitStep tgt rs r) ∧ (x = source e ∨ x = target e).
Proof.
  intros Hnd Hsub. unfold emitStep. case_decide; [done |].
  case_decide; [done |]. simpl. split; [by do 2 apply NoDup_setAdd |].
  intros x. rewrite !elem_of_setAdd. intros [-> | [-> | Hx]].
  - exists (r, tgt). split; [apply elem_of_app; right; left | by right].
  - exists (r, tgt). split; [apply elem_of_app; right; left | by left].
  - destruct (Hsub x Hx) as (e & He & Hxe). exists e.
    split; [apply elem_of_app; by left | done].
Qed.

Lemma foldl_emitStep_nodes tgt l rs :
  NoDup (nodes rs) →
  (∀ x, x ∈ nodes rs → ∃ e, e ∈ edges rs ∧ (x = source e ∨ x = target e)) →
  NoDup (nodes (foldl (emitStep tgt) rs l)) ∧
  ∀ x, x ∈ nodes (foldl (emitStep tgt) rs l) →
       ∃ e, e ∈ edges (foldl (emitStep tgt) rs l) ∧ (x = source e ∨ x = target e).
Proof.
  revert rs. induction l as [| r l IH]; intros rs Hnd Hsub; simpl; [done |].
  destruct (emitStep_nodes tgt rs r Hnd Hsub). by apply IH.
Qed.

Lemma foldl_rebuildStep_nodes l rs :
  NoDup (nodes rs) →
  (∀ x, x ∈ nodes rs → ∃ e, e ∈ edges rs ∧ (x = source e ∨ x = target e)) →
  NoDup (nodes (foldl (rebuildStep categories raw) rs l)) ∧
  ∀ x, x ∈ nodes (foldl (rebuildStep categories raw) rs l) →
       ∃ e, e ∈ edges (foldl (rebuildStep categories raw) rs l)
            ∧ (x = source e ∨ x = target e).
Proof.
  revert rs. induction l as [| edge l IH]; intros rs Hnd Hsub; simpl; [done |].
  unfold rebuildStep at 2 4 6.
  destruct (foldl_emitStep_nodes (target edge)
              (realSourcesOf categories raw (source edge)) rs Hnd Hsub).
  by apply IH.
Qed.

Lemma rebuildEdges_nodes :
  NoDup (nodes (rebuildEdges categories raw)) ∧
  ∀ x, x ∈ nodes (rebuildEdges categories raw) →
       ∃ e, e ∈ edges (rebuildEdges categories raw)
            ∧ (x = source e ∨ x = target e).
Proof.
  apply foldl_rebuildStep_nodes; [apply NoDup_nil_2 |].
  intros x Hx. by apply elem_of_nil in Hx.
Qed.

Lemma foldl_addEndpoints_NoDup l ns :
  NoDup ns → NoDup (foldl addEndpoints ns l).
Proof.
  revert ns. induction l as [| e l IH]; intros ns Hnd; simpl; [done |].
  apply IH. unfold addEndpoints. by do 2 apply NoDup_setAdd.
Qed.

Lemma allNodes_NoDup : NoDup (allNodes categories raw).
Proof. apply foldl_addEndpoints_NoDup, rebuildEdges_nodes. Qed.

Lemma allNodes_rawEndpoint line :
  line ∈ allNodes categories raw ↔ rawEndpoint raw line.
Proof.
  unfold allNodes, rawEndpoint. rewrite foldl_addEndpoints. split; [| by right].
  intros [Hx | ?]; [| done].
  apply rebuildEdges_nodes in Hx as ([r t] & He & Hx).
  apply (proj2 (rebuildEdges_spec _ _)) in He as (s & Hs & Hr & _).
  simpl in *. destruct Hx as [-> | ->].
  - apply realSourcesOf_origin in Hr as [-> | [t' Ht']].
    + exists (s, t). split; [done | by left].
    + exists (r, t'). split; [done | by left].
  - exists (s, t). split; [done | by right].
Qed.

End Vertices.

Section Built.

Variable matchPosition : string → option (string * Z).
Variable analyzedFileName : string.
Variables nodesRows edgesRows : option (list (list string)).

Local Abbreviation g :=
  (loadGraphFromCSV matchPosition analyzedFileName true nodesRows edgesRows).
Local Abbreviation tb := (nodeTablesOf matchPosition analyzedFileName nodesRows).
Local Abbreviation raw :=
  (rawEdgesOf matchPosition analyzedFileName nodesRows edgesRows).

Lemma graphNodes_lines :
  Graph.lineNumber <$> graphNodes g = allNodes (nodeCategories tb) raw.
Proof.
  unfold loadGraphFromCSV. simpl. rewrite <- list_fmap_compose.
  apply list_fmap_id.
Qed.

(** X3.  The vertices of the built graph.  There is one vertex per
    line; the lines that have a vertex are exactly the endpoints of
    the raw intra-file edges, so that bypass resolution removes no
    vertex, also not one that it leaves without an edge; and every
    vertex is a line of some trace node of the analyzed file. *)
Theorem vertices_are_raw_endpoints :
  NoDup (Graph.lineNumber <$> graphNodes g) ∧
  (∀ line, line ∈ Graph.lineNumber <$> graphNodes g ↔ rawEndpoint raw line) ∧
  Forall (λ nd, inAnalyzedFile analyzedFileName tb (Graph.lineNumber nd))
         (graphNodes g).
Proof.
  rewrite graphNodes_lines. split_and!.
  - apply allNodes_NoDup.
  - apply allNodes_rawEndpoint.
  - apply Forall_forall. intros nd Hnd.
    assert (Graph.lineNumber nd ∈ allNodes (nodeCategories tb) raw) as Hin.
    { rewrite <- graphNodes_lines. apply list_elem_of_fmap. by exists nd. }
    apply allNodes_rawEndpoint in Hin as (e & He & Hline).
    apply (proj2 (loadEdges_spec _ _ _)) in He
      as (rows & parts & _ & _ & _ & Hi).
    apply intraFileEdge_Some in Hi as (? & ? & ? & ? & _).
    destruct Hline as [-> | ->]; eexists; eauto.
Qed.

End Built.

End VertexFacts.

(** ** The tables read from nodes.csv *)

Module NodeTableFacts.

Import JS Graph GraphTerms GraphFacts.

Lemma foldl_setAdd_elem (l s : list string) x :
  x ∈ foldl (λ s x, setAdd x s) s l ↔ x ∈ s ∨ x ∈ l.
Proof.
  revert s. induction l as [| y l IH]; intros s; simpl.
  - rewrite elem_of_nil. tauto.
  - rewrite IH, elem_of_setAdd, elem_of_cons. tauto.
Qed.

Lemma foldl_setAdd_NoDup (l s : list string) :
  NoDup s → NoDup (foldl (λ s x, setAdd x s) s l).
Proof.
  revert s. induction l as [| y l IH]; intros s Hs; simpl; [done |].
  by apply IH, NoDup_setAdd.
Qed.

Lemma elem_of_setOfArray (l : list string) x : x ∈ setOfArray l ↔ x ∈ l.
Proof.
  unfold setOfArray. rewrite foldl_setAdd_elem, elem_of_nil. tauto.
Qed.

Lemma NoDup_setOfArray (l : list string) : NoDup (setOfArray l).
Proof. apply foldl_setAdd_NoDup, NoDup_nil_2. Qed.

Lemma getNodeCategories_one nodeType assumptionType :
  ∃ c, getNodeCategories nodeType assumptionType = [c].
Proof.
  unfold getNodeCategories.
  repeat case_decide; subst; try done; simpl in *; eauto; try lia; try congruence.
Qed.

Section Tables.

Variable matchPosition : string → option (string * Z).
Variable analyzedFileName : string.

Local Abbreviation nodeStep := (Graph.nodeStep matchPosition analyzedFileName).
Local Abbreviation placesNode := (GraphTerms.placesNode matchPosition).
Local Abbreviation categoriesAt :=
  (λ (tb : NodeTables) (line : Z), default [] (nodeCategories tb !! line)).

Lemma nodeStep_ids tb parts id :
  (∃ file line, placesNode parts id file line
                ∧ nodeIdToLine (nodeStep tb parts) !! id = Some line
                ∧ nodeIdToFile (nodeStep tb parts) !! id = Some file) ∨
  ((∀ file line, ¬ placesNode parts id file line)
   ∧ nodeIdToLine (nodeStep tb parts) !! id = nodeIdToLine tb !! id
   ∧ nodeIdToFile (nodeStep tb parts) !! id = nodeIdToFile tb !! id).
Proof.
  unfold Graph.nodeStep, GraphTerms.placesNode. case_decide as Hlen.
  { right. split; [| done]. intros file line [? _]. lia. }
  destruct (matchPosition (field parts 6)) as [[file line] |] eqn:Em.
  - destruct (decide (field parts 0 = id)) as [<- | Hne].
    + left. exists file, line.
      case_decide; simpl; rewrite !lookup_insert_eq;
        (split_and!; [lia | done ..]).
    + right. split; [intros f l (_ & ? & _); done |].
      case_decide; simpl; by rewrite !lookup_insert_ne.
  - right. split; [| done]. intros file line (_ & _ & ?). done.
Qed.

Lemma nodeStep_categories tb parts line :
  NoDup (categoriesAt tb line) → nodeCategories tb !! line ≠ Some [] →
  NoDup (categoriesAt (nodeStep tb parts) line) ∧
  nodeCategories (nodeStep tb parts) !! line ≠ Some [] ∧
  (is_Some (nodeCategories (nodeStep tb parts) !! line) ↔
   is_Some (nodeCategories tb !! line)
   ∨ ∃ id, placesNode parts id analyzedFileName line) ∧
  ∀ c, c ∈ categoriesAt (nodeStep tb parts) line ↔
       c ∈ categoriesAt tb line
       ∨ ∃ id, placesNode parts id analyzedFileName line ∧ c ∈ rowCategories parts.
Proof.
  intros Hnd Hne.
  assert ((∀ id, ¬ placesNode parts id analyzedFileName line) →
          NoDup (categoriesAt tb line) ∧ nodeCategories tb !! line ≠ Some [] ∧
          (is_Some (nodeCategories tb !! line) ↔
           is_Some (nodeCategories tb !! line)
           ∨ ∃ id, placesNode parts id analyzedFileName line) ∧
          ∀ c, c ∈ categoriesAt tb line ↔
               c ∈ categoriesAt tb line
               ∨ ∃ id, placesNode parts id analyzedFileName line
                       ∧ c ∈ rowCategories parts) as Hsame.
  { intros Hno. split_and!; [done | done | |].
    - split; [by left |]. intros [? | [id ?]]; [done |]. by destruct (Hno id).
    - intros c. split; [by left |]. intros [? | (id & ? & _)]; [done |].
      by destruct (Hno id). }
  unfold Graph.nodeStep. case_decide as Hlen.
  { apply Hsame. intros id [? _]. lia. }
  destruct (matchPosition (field parts 6)) as [[file l] |] eqn:Em;
    [| apply Hsame; intros id (_ & _ & ?); congruence].
  case_decide as Hfile; simpl;
    [| apply Hsame; intros id (_ & _ & ?); congruence].
  subst file. destruct (decide (l = line)) as [-> | Hl].
  - rewrite lookup_insert_eq. simpl.
    assert (placesNode parts (field parts 0) analyzedFileName line) as Hp.
    { split_and!; [lia | done ..]. }
    destruct (getNodeCategories_one (field parts 1) (field parts 2)) as [c0 Hc0].
    destruct (nodeCategories tb !! line) as [existing |] eqn:Ee; simpl in *.
    + split_and!.
      * apply NoDup_setOfArray.
      * intros [= Hnil].
        assert (c0 ∈ setOfArray (existing ++ getNodeCategories (field parts 1)
                                                (field parts 2))) as Hin.
        { apply elem_of_setOfArray, elem_of_app. right. rewrite Hc0. left. }
        rewrite Hnil in Hin. by apply elem_of_nil in Hin.
      * split; [by left | by eexists].
      * intros c. rewrite elem_of_setOfArray, elem_of_app.
        unfold rowCategories. split.
        -- intros [? | ?]; [by left | right]. by exists (field parts 0).
        -- intros [? | (_ & _ & ?)]; [by left | by right].
    + split_and!.
      * rewrite Hc0. apply NoDup_singleton.
      * rewrite Hc0. done.
      * split; [right; by eexists | by eexists].
      * intros c. unfold rowCategories. rewrite elem_of_nil. split.
        -- intros ?. right. by exists (field parts 0).
        -- intros [[] | (_ & _ & ?)]. done.
  - rewrite lookup_insert_ne by done. apply Hsame.
    intros id (_ & _ & ?). congruence.
Qed.

Lemma foldl_nodeStep_categories rows tb line :
  NoDup (categoriesAt tb line) → nodeCategories tb !! line ≠ Some [] →
  let tb' := foldl nodeStep tb rows in
  NoDup (categoriesAt tb' line) ∧
  nodeCategories tb' !! line ≠ Some [] ∧
  (is_Some (nodeCategories tb' !! line) ↔
   is_Some (nodeCategories tb !! line)
   ∨ ∃ parts id, parts ∈ rows ∧ placesNode parts id analyzedFileName line) ∧
  ∀ c, c ∈ categoriesAt tb' line ↔
       c ∈ categoriesAt tb line
       ∨ ∃ parts id, parts ∈ rows ∧ placesNode parts id analyzedFileName line
                     ∧ c ∈ rowCategories parts.
Proof.
  revert tb. induction rows as [| parts rows IH]; intros tb Hnd Hne; simpl.
  - split_and!; [done | done | |].
    + split; [by left |]. intros [? | (? & ? & Hin & _)]; [done |].
      by apply elem_of_nil in Hin.
    + intros c. split; [by left |]. intros [? | (? & ? & Hin & _)]; [done |].
      by apply elem_of_nil in Hin.
  - destruct (nodeStep_categories tb parts line Hnd Hne)
      as (Hnd1 & Hne1 & Hsome1 & Hin1).
    destruct (IH _ Hnd1 Hne1) as (Hnd' & Hne' & Hsome & Hin).
    split_and!; [done | done | |].
    + rewrite Hsome, Hsome1. split.
      * intros [[? | [id ?]] | (parts' & id & ? & ?)].
        -- by left.
        -- right. exists parts, id. split; [left | done].
        -- right. exists parts', id. split; [by right | done].
      * intros [? | (parts' & id & Hin' & ?)]; [by left; left |].
        apply elem_of_cons in Hin' as [-> | ?].
        -- left. right. by exists id.
        -- right. by exists parts', id.
    + intros c. rewrite Hin, Hin1. split.
      * intros [[? | (id & ? & ?)] | (parts' & id & ? & ?)].
        -- by left.
        -- right. exists parts, id. split; [left | done].
        -- right. exists parts', id. split; [by right | done].
      * intros [? | (parts' & id & Hin' & ?)]; [by left; left |].
        apply elem_of_cons in Hin' as [-> | ?].
        -- left. right. by exists id.
        -- right. by exists parts', id.
Qed.

Lemma foldl_nodeStep_ids rows tb id :
  let tb' := foldl nodeStep tb rows in
  (nodeIdToLine tb' !! id = nodeIdToLine tb !! id
   ∧ nodeIdToFile tb' !! id = nodeIdToFile tb !! id
   ∧ ∀ parts file line, parts ∈ rows → ¬ placesNode parts id file line) ∨
  (∃ before parts after file line,
     rows = before ++ parts :: after ∧ placesNode parts id file line ∧
     (∀ later f l, later ∈ after → ¬ placesNode later id f l) ∧
     nodeIdToLine tb' !! id = Some line ∧ nodeIdToFile tb' !! id = Some file).
Proof.
  revert tb. induction rows as [| parts rows IH]; intros tb; simpl.
  - left. split_and!; [done | done |]. intros parts file line Hin.
    by apply elem_of_nil in Hin.
  - destruct (IH (nodeStep tb parts))
      as [(Hl & Hf & Hno) | (before & p & after & file & line & -> & Hp & Hlater & Hl & Hf)].
    + destruct (nodeStep_ids tb parts id)
        as [(file & line & Hp & Hl1 & Hf1) | (Hno1 & Hl1 & Hf1)].
      * right. exists [], parts, rows, file, line. simpl.
        split_and!; [done | done | | congruence | congruence].
        intros later f l Hin. by apply Hno.
      * left. split_and!; [congruence | congruence |].
        intros p file line [-> | Hin]%elem_of_cons; [apply Hno1 | by apply Hno].
    + right. exists (parts :: before), p, after, file, line. done.
Qed.

End Tables.

Section Loaded.

Variable matchPosition : string → option (string * Z).
Variable analyzedFileName : string.
Variable nodesRows : option (list (list string)).

Local Abbreviation tb := (loadNodes matchPosition analyzedFileName nodesRows).
Local Abbreviation placesNode := (GraphTerms.placesNode matchPosition).

Lemma loadNodes_fold :
  tb = foldl (Graph.nodeStep matchPosition analyzedFileName) emptyNodeTables
             (dataRows nodesRows).
Proof. unfold loadNodes, dataRows. by destruct nodesRows. Qed.

(** X4.  The category table.  The categories recorded for a line are,
    once each, the categories of all the rows of nodes.csv that place a
    node on that line of the analyzed file: a later row adds to the
    entry of the line and never replaces it.  A line has an entry
    exactly when some row places a node on it, and an entry is never
    empty. *)
Theorem categories_are_merged (line : Z) :
  NoDup (default [] (nodeCategories tb !! line)) ∧
  nodeCategories tb !! line ≠ Some [] ∧
  (is_Some (nodeCategories tb !! line) ↔
   ∃ parts id, parts ∈ dataRows nodesRows
               ∧ placesNode parts id analyzedFileName line) ∧
  ∀ c, c ∈ default [] (nodeCategories tb !! line) ↔
       ∃ parts id, parts ∈ dataRows nodesRows
                   ∧ placesNode parts id analyzedFileName line
                   ∧ c ∈ rowCategories parts.
Proof.
  rewrite loadNodes_fold.
  destruct (foldl_nodeStep_categories matchPosition analyzedFileName
              (dataRows nodesRows) emptyNodeTables line)
    as (Hnd & Hne & Hsome & Hin).
  - simpl. rewrite lookup_empty. apply NoDup_nil_2.
  - simpl. by rewrite lookup_empty.
  - split_and!; [done | done | |].
    + rewrite Hsome. simpl. rewrite lookup_empty. split.
      * intros [[? [=]] | ?]. done.
      * by right.
    + intros c. rewrite Hin. simpl. rewrite lookup_empty. simpl.
      rewrite elem_of_nil. tauto.
Qed.

(** X5.  The two id tables.  An id resolves to a line exactly when it
    resolves to a file, and exactly when some row of nodes.csv places
    it; the line and the file are then those of the last such row. *)
Theorem node_ids_resolve_by_last_row (id : string) :
  (is_Some (nodeIdToLine tb !! id) ↔ is_Some (nodeIdToFile tb !! id)) ∧
  (is_Some (nodeIdToLine tb !! id) ↔
   ∃ parts file line, parts ∈ dataRows nodesRows
                      ∧ placesNode parts id file line) ∧
  (∀ before parts after file line,
     dataRows nodesRows = before ++ parts :: after →
     placesNode parts id file line →
     (∀ later f l, later ∈ after → ¬ placesNode later id f l) →
     nodeIdToLine tb !! id = Some line ∧ nodeIdToFile tb !! id = Some file).
Proof.
  rewrite loadNodes_fold.
  destruct (foldl_nodeStep_ids matchPosition analyzedFileName
              (dataRows nodesRows) emptyNodeTables id)
    as [(Hl & Hf & Hno) | (before & p & after & file & line & Hrows & Hp & Hlater & Hl & Hf)];
    simpl in *.
  - rewrite Hl, Hf, !lookup_empty. split_and!.
    + split; intros [? [=]].
    + split; [intros [? [=]] |]. intros (parts & file & line & Hin & Hp).
      by destruct (Hno parts file line).
    + intros before parts after file line Hrows Hp _.
      destruct (Hno parts file line); [| done].
      rewrite Hrows. apply elem_of_app. right. left.
  - rewrite Hl, Hf. split_and!.
    + split; by eexists.
    + split; [| by eexists]. intros _. exists p, file, line.
      split; [| done]. rewrite Hrows. apply elem_of_app. right. left.
    + intros before' parts' after' file' line' Hrows' Hp' Hlater'.
      rewrite Hrows in Hrows'.
      assert (length before = length before' ∨ length before < length before'
              ∨ length before' < length before)%nat as [Heq | [Hlt | Hlt]] by lia.
      * apply app_inj_1 in Hrows' as [_ [= <- _]]; [| done].
        destruct Hp as (_ & _ & Hm), Hp' as (_ & _ & Hm').
        rewrite Hm in Hm'. by injection Hm' as -> ->.
      * exfalso. apply (Hlater parts' file' line'); [| done].
        apply (f_equal (λ l, l !! length before')) in Hrows'.
        rewrite (lookup_app_r before) in Hrows' by lia.
        rewrite (list_lookup_middle before' after') in Hrows' by done.
        destruct (length before' - length before)%nat as [| k] eqn:Ek; [lia |].
        simpl in Hrows'. by eapply list_elem_of_lookup_2.
      * exfalso. apply (Hlater' p file line); [| done].
        apply (f_equal (λ l, l !! length before)) in Hrows'.
        rewrite (lookup_app_r before') in Hrows' by lia.
        rewrite (list_lookup_middle before after) in Hrows' by done.
        destruct (length before - length before')%nat as [| k] eqn:Ek; [lia |].
        simpl in Hrows'. by eapply list_elem_of_lookup_2.
Qed.

End Loaded.

End NodeTableFacts.

(** ** The external dependencies of a vertex *)

Module ExternalFacts.

Import JS Graph GraphTerms GraphFacts.

Lemma StronglySorted_le_lt (l : list Z) :
  StronglySorted Z.le l → NoDup l → StronglySorted Z.lt l.
Proof.
  induction 1 as [| x l Hl IH Hx]; intros Hnd; constructor.
  - apply IH. by apply NoDup_cons in Hnd as [_ ?].
  - apply NoDup_cons in Hnd as [Hnx _].
    apply Forall_forall. intros y Hy.
    assert (x ≤ y) by (by eapply Forall_forall in Hx).
    assert (x ≠ y) by (intros ->; done). lia.
Qed.

Lemma merge_sort_strict (l : list Z) :
  NoDup l → StronglySorted Z.lt (merge_sort Z.le l).
Proof.
  intros Hnd. apply StronglySorted_le_lt.
  - apply StronglySorted_merge_sort; apply _.
  - by rewrite merge_sort_Permutation.
Qed.

Lemma listedLines_sorted (fileMap : gmap string (list Z)) :
  listedLines (merge_sort Z.le <$> fileMap) = listedLines fileMap.
Proof.
  unfold listedLines. rewrite map_fold_fmap, !map_fold_foldr.
  apply foldr_ext; [| done | done].
  intros [file lines] count. simpl.
  by rewrite (Permutation_length (merge_sort_Permutation Z.le lines)).
Qed.

Section External.

Variable analyzedFileName : string.
Variable tb : NodeTables.

Local Abbreviation trackExternal := (Graph.trackExternal analyzedFileName tb).
Local Abbreviation externalRow := (GraphTerms.externalRow analyzedFileName tb).
Local Abbreviation linesAt :=
  (λ (ext : gmap Z (gmap string (list Z))) (t : Z) (file : string),
     default [] (default ∅ (ext !! t) !! file)).

Lemma trackExternal_spec ext sourceId targetId t file :
  NoDup (linesAt ext t file) →
  NoDup (linesAt (trackExternal ext sourceId targetId) t file) ∧
  ∀ l, l ∈ linesAt (trackExternal ext sourceId targetId) t file ↔
       l ∈ linesAt ext t file ∨
       (nodeIdToLine tb !! targetId = Some t ∧
        nodeIdToFile tb !! targetId = Some analyzedFileName ∧
        nodeIdToFile tb !! sourceId = Some file ∧
        file ≠ "" ∧ file ≠ analyzedFileName ∧
        nodeIdToLine tb !! sourceId = Some l).
Proof.
  intros Hnd.
  assert (∀ X : Z → Prop,
            (∀ l, ¬ X l) →
            NoDup (linesAt ext t file) ∧
            ∀ l, l ∈ linesAt ext t file ↔ l ∈ linesAt ext t file ∨ X l) as Hsame.
  { intros X HX. split; [done |]. intros l. split; [by left |].
    intros [? | ?]; [done |]. by destruct (HX l). }
  unfold Graph.trackExternal.
  destruct (nodeIdToLine tb !! targetId) as [targetLine |] eqn:Etl;
    [| apply Hsame; intros l (? & _); done].
  destruct (nodeIdToFile tb !! sourceId) as [sourceFile |] eqn:Esf;
    [| apply Hsame; intros l (_ & _ & ? & _); done].
  case_decide as Hc; [| apply Hsame; intros l (_ & ? & [= <-] & ? & ? & _); tauto].
  destruct Hc as (Htf & Hne & Hna).
  destruct (decide (targetLine = t)) as [-> | Ht];
    [| rewrite lookup_insert_ne by done; apply Hsame;
       intros l ([= ?] & _); done].
  rewrite lookup_insert_eq. simpl.
  destruct (decide (sourceFile = file)) as [-> | Hf];
    [| rewrite lookup_insert_ne by done; apply Hsame;
       intros l (_ & _ & [= ?] & _); done].
  rewrite lookup_insert_eq. simpl.
  destruct (nodeIdToLine tb !! sourceId) as [sl |] eqn:Esl;
    [| apply Hsame; intros l (_ & _ & _ & _ & _ & ?); done].
  case_decide as Hin.
  - split; [done |]. intros l. split; [by left |].
    intros [? | (_ & _ & _ & _ & _ & [= <-])]; done.
  - split.
    + apply NoDup_app. split_and!; [done | | apply NoDup_singleton].
      intros x Hx ->%list_elem_of_singleton. done.
    + intros l. rewrite elem_of_app, list_elem_of_singleton. split.
      * intros [? | ->]; [by left | right]. done.
      * intros [? | (_ & _ & _ & _ & _ & [= <-])]; [by left | by right].
Qed.

Lemma edgeStep_external et parts t file :
  NoDup (linesAt (externalDependenciesByFile et) t file) →
  let et' := edgeStep analyzedFileName tb et parts in
  NoDup (linesAt (externalDependenciesByFile et') t file) ∧
  ∀ l, l ∈ linesAt (externalDependenciesByFile et') t file ↔
       l ∈ linesAt (externalDependenciesByFile et) t file
       ∨ externalRow parts t file l.
Proof.
  intros Hnd. unfold edgeStep, GraphTerms.externalRow. case_decide as Hlen.
  { split; [done |]. intros l. split; [by left |].
    intros [? | [? _]]; [done | lia]. }
  destruct (trackExternal_spec (externalDependenciesByFile et)
              (field parts 0) (field parts 1) t file Hnd) as [Hnd' Hin].
  assert (∀ l, l ∈ linesAt (trackExternal (externalDependenciesByFile et)
                              (field parts 0) (field parts 1)) t file ↔
               l ∈ linesAt (externalDependenciesByFile et) t file
               ∨ ((2 ≤ length parts)%nat ∧
                  nodeIdToLine tb !! field parts 1 = Some t ∧
                  nodeIdToFile tb !! field parts 1 = Some analyzedFileName ∧
                  nodeIdToFile tb !! field parts 0 = Some file ∧
                  file ≠ "" ∧ file ≠ analyzedFileName ∧
                  nodeIdToLine tb !! field parts 0 = Some l)) as Hin'.
  { intros l. rewrite Hin. split; (intros [? | ?]; [by left | right]);
      [split; [lia | done] | tauto]. }
  destruct (intraFileEdge _ _ _ _) as [[s t'] |]; [case_decide |]; done.
Qed.

Lemma foldl_edgeStep_external rows et t file :
  NoDup (linesAt (externalDependenciesByFile et) t file) →
  let et' := foldl (edgeStep analyzedFileName tb) et rows in
  NoDup (linesAt (externalDependenciesByFile et') t file) ∧
  ∀ l, l ∈ linesAt (externalDependenciesByFile et') t file ↔
       l ∈ linesAt (externalDependenciesByFile et) t file
       ∨ ∃ parts, parts ∈ rows ∧ externalRow parts t file l.
Proof.
  revert et. induction rows as [| parts rows IH]; intros et Hnd; simpl.
  - split; [done |]. intros l. split; [by left |].
    intros [? | (? & Hin & _)]; [done | by apply elem_of_nil in Hin].
  - destruct (edgeStep_external et parts t file Hnd) as [Hnd1 Hin1].
    destruct (IH _ Hnd1) as [Hnd' Hin].
    split; [done |]. intros l. rewrite Hin, Hin1. split.
    + intros [[? | ?] | (parts' & ? & ?)].
      * by left.
      * right. exists parts. split; [left | done].
      * right. exists parts'. split; [by right | done].
    + intros [? | (parts' & Hin' & ?)]; [by left; left |].
      apply elem_of_cons in Hin' as [-> | ?].
      * left. by right.
      * right. by exists parts'.
Qed.

Lemma loadEdges_external edgesRows t file :
  let ext := externalDependenciesByFile (loadEdges analyzedFileName tb edgesRows) in
  NoDup (linesAt ext t file) ∧
  ∀ l, l ∈ linesAt ext t file ↔
       ∃ parts, parts ∈ dataRows edgesRows ∧ externalRow parts t file l.
Proof.
  assert (NoDup (linesAt (externalDependenciesByFile emptyEdgeTables) t file))
    as H0.
  { simpl. rewrite lookup_empty. simpl. rewrite lookup_empty. apply NoDup_nil_2. }
  assert (∀ l, l ∉ linesAt (externalDependenciesByFile emptyEdgeTables) t file)
    as H1.
  { intros l. simpl. rewrite lookup_empty. simpl. rewrite lookup_empty.
    apply not_elem_of_nil. }
  destruct edgesRows as [rows |]; simpl.
  - destruct (foldl_edgeStep_external (drop 1 rows) emptyEdgeTables t file H0)
      as [Hnd Hin].
    split; [done |]. intros l. rewrite Hin. split; [| by right].
    intros [? | ?]; [by destruct (H1 l) | done].
  - split; [done |]. intros l. split; [intros ?; by destruct (H1 l) |].
    intros (? & Hin & _). by apply elem_of_nil in Hin.
Qed.

End External.

Section Built.

Variable matchPosition : string → option (string * Z).
Variable analyzedFileName : string.
Variables nodesRows edgesRows : option (list (list string)).

Local Abbreviation g :=
  (loadGraphFromCSV matchPosition analyzedFileName true nodesRows edgesRows).
Local Abbreviation tb := (nodeTablesOf matchPosition analyzedFileName nodesRows).
Local Abbreviation et := (loadEdges analyzedFileName tb edgesRows).
Local Abbreviation externalRow := (GraphTerms.externalRow analyzedFileName tb).

Lemma graphNodes_nodeData nd :
  nd ∈ graphNodes g → nd = nodeData tb et (Graph.lineNumber nd).
Proof.
  unfold loadGraphFromCSV. simpl.
  intros (id & -> & _)%list_elem_of_fmap. done.
Qed.

Lemma externalDependencies_lookup id file :
  default [] (externalDependencies (nodeData tb et id) !! file)
  = merge_sort Z.le
      (default [] (default ∅ (externalDependenciesByFile et !! id) !! file)).
Proof.
  unfold nodeData. simpl. rewrite lookup_fmap.
  by destruct (default ∅ (externalDependenciesByFile et !! id) !! file).
Qed.

(** X6.  The lists of external dependencies of every vertex are
    strictly increasing (sorted, no line twice), and the count shown
    for the vertex is the total number of lines in its lists. *)
Theorem external_lists_are_sorted :
  Forall (λ nd,
    externalDependencyCount nd = listedLines (externalDependencies nd) ∧
    ∀ file lines, externalDependencies nd !! file = Some lines →
                  StronglySorted Z.lt lines)
  (graphNodes g).
Proof.
  apply Forall_forall. intros nd Hnd. rewrite (graphNodes_nodeData nd Hnd).
  generalize (Graph.lineNumber nd). intros id. split.
  - unfold nodeData. simpl. by rewrite listedLines_sorted.
  - intros file lines Hl.
    pose proof (externalDependencies_lookup id file) as Heq.
    rewrite Hl in Heq. simpl in Heq. rewrite Heq.
    apply merge_sort_strict, (loadEdges_external analyzedFileName tb edgesRows).
Qed.

(** X7.  The external dependencies of every vertex, exactly.  A line
    of another file is listed for a vertex if and only if some data
    row of edges.csv has its target on the line of the vertex in the
    analyzed file and its source on that line of the other file; such
    a row gives no edge of the graph. *)
Theorem external_lists_exact :
  Forall (λ nd, ∀ file line,
    line ∈ default [] (externalDependencies nd !! file) ↔
    ∃ parts, parts ∈ dataRows edgesRows
             ∧ externalRow parts (Graph.lineNumber nd) file line)
  (graphNodes g) ∧
  (∀ parts t file line, externalRow parts t file line →
     intraFileEdge analyzedFileName tb (field parts 0) (field parts 1) = None).
Proof.
  split.
  - apply Forall_forall. intros nd Hnd. rewrite (graphNodes_nodeData nd Hnd).
    generalize (Graph.lineNumber nd). intros id file line.
    change (Graph.lineNumber (nodeData tb et id)) with id.
    rewrite externalDependencies_lookup, merge_sort_Permutation.
    apply (loadEdges_external analyzedFileName tb edgesRows).
  - intros parts t file line (_ & _ & _ & Hf & _ & Hne & _).
    destruct (intraFileEdge _ _ _ _) as [e |] eqn:Ei; [| done].
    apply intraFileEdge_Some in Ei as (_ & _ & ? & _). congruence.
Qed.

End Built.

End ExternalFacts.

(** ** What the graph view reports *)

Module ViewFacts.

Import Webview Controls WebviewFacts.

Lemma elem_of_addClass ids c0 (m : ClassMap) n c :
  c ∈ addClass ids c0 m n ↔ (n ∈ ids ∧ c = c0) ∨ c ∈ m n.
Proof.
  unfold addClass. case_decide; rewrite ?elem_of_union, ?elem_of_singleton;
    tauto.
Qed.

Lemma elem_of_removeClass ids c0 (m : ClassMap) n c :
  c ≠ c0 → c ∈ removeClass ids c0 m n ↔ c ∈ m n.
Proof.
  intros Hne. unfold removeClass.
  case_decide; rewrite ?elem_of_difference, ?elem_of_singleton; tauto.
Qed.

Lemma filtered_in_classes : "filtered" ∈ highlightClasses.
Proof. unfold highlightClasses. rewrite elem_of_list_to_set. set_solver. Qed.

Lemma applyFilters_cons node l fs (m : ClassMap) :
  applyFilters (node :: l) fs m
  = applyFilters l fs
      (λ n, if decide (n = node.1) then applyFiltersNode fs node.2 (m n)
            else m n).
Proof. reflexivity. Qed.

Lemma applyFilters_other cyNodes fs (m : ClassMap) n :
  n ∉ cyNodes.*1 → applyFilters cyNodes fs m n = m n.
Proof.
  revert m. induction cyNodes as [| node l IH]; intros m Hn; [done |].
  rewrite fmap_cons in Hn. apply not_elem_of_cons in Hn as [Hne Hn].
  rewrite applyFilters_cons, IH by done. by rewrite decide_False.
Qed.

Lemma applyFilters_at cyNodes fs (m : ClassMap) n categories :
  NoDup (cyNodes.*1) → (n, categories) ∈ cyNodes →
  applyFilters cyNodes fs m n = applyFiltersNode fs categories (m n).
Proof.
  revert m. induction cyNodes as [| node l IH]; intros m Hnd Hin.
  - by apply elem_of_nil in Hin.
  - rewrite fmap_cons in Hnd. apply NoDup_cons in Hnd as [Hfresh Hnd].
    rewrite applyFilters_cons.
    apply elem_of_cons in Hin as [<- | Hin].
    + rewrite applyFilters_other by done. simpl. by rewrite decide_True.
    + rewrite IH by done. rewrite decide_False; [done |].
      intros ->. apply Hfresh. apply list_elem_of_fmap.
      by exists (node.1, categories).
Qed.

Section Cy.

Variable cyNodes : list (Z * list string).
Variables incomers outgoers predecessors successors : Z → list Z.

Local Abbreviation highlight :=
  (highlightNodeAndDependencies cyNodes incomers outgoers predecessors
                                successors).
Local Abbreviation mark :=
  (markHighlight incomers outgoers predecessors successors).
Local Abbreviation related := (Webview.related incomers outgoers predecessors successors).
Local Abbreviation directRelated := (Webview.directRelated incomers outgoers).
Local Abbreviation handle :=
  (Controls.handle cyNodes incomers outgoers predecessors successors).
Local Abbreviation run :=
  (Controls.run cyNodes incomers outgoers predecessors successors).

(** The classes of a vertex after the first part of a highlight. *)
Lemma mark_classes (st : State) node n c :
  c ∈ highlightKinds ∨ c = "filtered" →
  c ∈ mark st node n ↔
  (n = node ∧ c = "selected") ∨
  (n ∈ directRelated st node
   ∧ c = if showDependents st then "direct-dependent" else "direct") ∨
  (showIndirect st = true
   ∧ n ∈ list_difference (related st node) (directRelated st node)
   ∧ c = if showDependents st then "indirect-dependent" else "indirect").
Proof.
  intros Hc. destruct (highlightKinds_classes c Hc) as [Hcls Hdim].
  unfold markHighlight. rewrite !elem_of_addClass, list_elem_of_singleton.
  assert (c ∉ removeClass (node :: related st node) "dimmed"
            (addClassEverywhere "dimmed"
               (removeClassEverywhere highlightClasses (classes st))) n) as H0.
  { rewrite elem_of_removeClass by done. unfold addClassEverywhere,
      removeClassEverywhere.
    rewrite elem_of_union, elem_of_singleton, elem_of_difference. tauto. }
  destruct (showIndirect st).
  - rewrite elem_of_addClass. split.
    + intros [? | [? | [? | Hm]]];
        [by left | by right; left | by right; right | by destruct H0].
    + intros [? | [? | (_ & ? & ?)]];
        [by left | by right; left | right; right; by left].
  - split.
    + intros [? | [? | Hm]]; [by left | by right; left | by destruct H0].
    + intros [? | [? | (? & _)]]; [by left | by right; left | done].
Qed.


Lemma kind_selected : "selected" ∈ highlightKinds ∨ "selected" = "filtered".
Proof. left. unfold highlightKinds. rewrite !elem_of_cons. tauto. Qed.

Lemma kind_direct : "direct" ∈ highlightKinds ∨ "direct" = "filtered".
Proof. left. unfold highlightKinds. rewrite !elem_of_cons. tauto. Qed.

Lemma kind_indirect : "indirect" ∈ highlightKinds ∨ "indirect" = "filtered".
Proof. left. unfold highlightKinds. rewrite !elem_of_cons. tauto. Qed.

Lemma kind_direct_dependent :
  "direct-dependent" ∈ highlightKinds ∨ "direct-dependent" = "filtered".
Proof. left. unfold highlightKinds. rewrite !elem_of_cons. tauto. Qed.

Lemma kind_indirect_dependent :
  "indirect-dependent" ∈ highlightKinds ∨ "indirect-dependent" = "filtered".
Proof. left. unfold highlightKinds. rewrite !elem_of_cons. tauto. Qed.

Lemma kind_filtered : "filtered" ∈ highlightKinds ∨ "filtered" = "filtered".
Proof. by right. Qed.

Lemma mark_selected (st : State) node n : "selected" ∈ mark st node n ↔ n = node.
Proof.
  rewrite (mark_classes st node n _ kind_selected).
  destruct (showDependents st); split;
    (intros [[? _] | [[_ ?] | (_ & _ & ?)]] || intros ?); try done; by left.
Qed.

Lemma mark_filtered (st : State) node n : "filtered" ∉ mark st node n.
Proof.
  rewrite (mark_classes st node n _ kind_filtered).
  destruct (showDependents st);
    intros [[_ ?] | [[_ ?] | (_ & _ & ?)]]; done.
Qed.

Lemma mark_highlighted (st : State) node n :
  "direct" ∈ mark st node n ∨ "indirect" ∈ mark st node n
  ∨ "direct-dependent" ∈ mark st node n ∨ "indirect-dependent" ∈ mark st node n ↔
  n ∈ directRelated st node
  ∨ (showIndirect st = true
     ∧ n ∈ list_difference (related st node) (directRelated st node)).
Proof.
  rewrite (mark_classes st node n _ kind_direct),
    (mark_classes st node n _ kind_indirect),
    (mark_classes st node n _ kind_direct_dependent),
    (mark_classes st node n _ kind_indirect_dependent).
  destruct (showDependents st); split.
  - intros [[[_ ?] | [[? _] | (? & ? & _)]] | [[[_ ?] | [[? _] | (? & ? & _)]]
           | [[[_ ?] | [[? _] | (? & ? & _)]] | [[_ ?] | [[? _] | (? & ? & _)]]]]];
      try done; tauto.
  - intros [? | [? ?]]; [right; right; left; right; by left |].
    right. right. right. right. right. done.
  - intros [[[_ ?] | [[? _] | (? & ? & _)]] | [[[_ ?] | [[? _] | (? & ? & _)]]
           | [[[_ ?] | [[? _] | (? & ? & _)]] | [[_ ?] | [[? _] | (? & ? & _)]]]]];
      try done; tauto.
  - intros [? | [? ?]]; [left; right; by left |].
    right. left. right. right. done.
Qed.

(** Whether a vertex other than the selected one carries the class
    filtered when the message is built. *)
Lemma filtered_after (st : State) node n categories :
  NoDup (cyNodes.*1) → (n, categories) ∈ cyNodes → n ≠ node →
  hasClass (applyFilters cyNodes (filterState st) (mark st node)) n "filtered"
  = false ↔
  ¬ (n ∈ directRelated st node
     ∨ (showIndirect st = true
        ∧ n ∈ list_difference (related st node) (directRelated st node)))
  ∨ enabledIn (filterState st) categories.
Proof.
  intros Hnd Hin Hne. unfold hasClass. rewrite bool_decide_eq_false.
  rewrite (applyFilters_at cyNodes _ _ n categories Hnd Hin).
  unfold applyFiltersNode.
  pose proof (mark_highlighted st node n) as Hh.
  pose proof (mark_selected st node n) as Hs.
  pose proof (mark_filtered st node n) as Hf.
  assert (existsb (λ category,
                     bool_decide (filterState st !! category = Some true))
                  categories = true ↔ enabledIn (filterState st) categories)
    as Hvis.
  { rewrite existsb_exists. unfold enabledIn. split.
    - intros (c & ? & He). exists c. split; [by apply list_elem_of_In |].
      by apply bool_decide_eq_true in He.
    - intros (c & ? & He). exists c. split; [by apply list_elem_of_In |].
      by apply bool_decide_eq_true. }
  case_decide as Hskip.
  - split; [| done]. intros _. destruct Hskip as [Hnh | Hsel].
    + left. intros H. apply Hnh, Hh, H.
    + apply Hs in Hsel. done.
  - destruct (existsb _ categories) eqn:Ev.
    + rewrite elem_of_difference. split; [| tauto].
      intros _. right. by apply Hvis.
    + rewrite elem_of_union, elem_of_singleton. split; [tauto |].
      intros [Hnh | Hen] _.
      * apply Hskip. left. intros H. apply Hnh, Hh, H.
      * apply Hvis in Hen. done.
Qed.

Lemma selected_not_filtered (st : State) node fs :
  hasClass (applyFilters cyNodes fs (mark st node)) node "filtered" = false.
Proof.
  unfold hasClass. rewrite bool_decide_eq_false.
  assert (∀ l (m : ClassMap),
            "selected" ∈ m node → "filtered" ∉ m node →
            "filtered" ∉ applyFilters l fs m node) as Hgen.
  { induction l as [| nd l IH]; intros m Hsel Hnf; [done |].
    rewrite applyFilters_cons. apply IH; case_decide; try done.
    - unfold applyFiltersNode. rewrite decide_True by tauto. done.
    - unfold applyFiltersNode. rewrite decide_True by tauto. done. }
  apply Hgen; [by apply mark_selected | apply mark_filtered].
Qed.

Lemma elem_of_unfiltered (m : ClassMap) ids n :
  n ∈ unfiltered m ids ↔ hasClass m n "filtered" = false ∧ n ∈ ids.
Proof. unfold unfiltered. by rewrite list_elem_of_filter. Qed.

(** X8.  What a highlight reports, exactly.  With one vertex per id, a
    vertex other than the selected one is reported as a direct
    neighbour if and only if it is one and the filter enables one of
    its categories; it is reported as an indirect neighbour if and only
    if the indirect mode is on, it is related but not directly, and
    the filter enables one of its categories.  The selected vertex is
    never filtered, and the message names its line. *)
Theorem reported_exactly (st : State) (node : Z) :
  NoDup (cyNodes.*1) →
  ∃ st' message,
    highlight st node true = (st', Some message) ∧
    lineNumber message = node ∧
    messageShowDependents message = showDependents st ∧
    (∀ n categories, (n, categories) ∈ cyNodes → n ≠ node →
       (n ∈ neighbors message ↔
        n ∈ directRelated st node ∧ enabledIn (filterState st) categories) ∧
       (n ∈ indirectNeighbors message ↔
        showIndirect st = true ∧ n ∈ related st node
        ∧ (n ∉ directRelated st node)
        ∧ enabledIn (filterState st) categories)) ∧
    (node ∈ neighbors message ↔ node ∈ directRelated st node).
Proof.
  intros Hnd. eexists _, _. split; [reflexivity |]. simpl.
  split; [done |]. split; [done |]. split.
  - intros n categories Hin Hne.
    pose proof (filtered_after st node n categories Hnd Hin Hne) as Hf.
    split.
    + rewrite elem_of_unfiltered, Hf. tauto.
    + destruct (showIndirect st) eqn:Ei.
      * rewrite elem_of_unfiltered, Hf, list_elem_of_difference. tauto.
      * rewrite elem_of_nil. split; [done | by intros [? _]].
  - rewrite elem_of_unfiltered, selected_not_filtered. tauto.
Qed.












Lemma unfiltered_agree (m m' : ClassMap) ids :
  (∀ n, agreeAt n m m') → unfiltered m ids = unfiltered m' ids.
Proof.
  intros Hag. unfold unfiltered. apply list_filter_iff. intros n.
  unfold hasClass. rewrite !bool_decide_eq_false.
  by rewrite (Hag n "filtered" (or_intror eq_refl)).
Qed.

Lemma disablesMore_refl fs : disablesMore fs fs.
Proof. by intros c. Qed.

Lemma applyFilters_agree fs (m m' : ClassMap) n :
  agreeAt n m m' →
  agreeAt n (applyFilters cyNodes fs m) (applyFilters cyNodes fs m').
Proof.
  intros Hag.
  assert (agreeAt n m' m) as Hag' by (intros c Hc; by rewrite (Hag c Hc)).
  destruct (applyFilters_mono cyNodes fs fs n m m' (disablesMore_refl fs)
              (agreeAt_filtersMoreAt n m m' Hag)) as [H1 H2].
  destruct (applyFilters_mono cyNodes fs fs n m' m (disablesMore_refl fs)
              (agreeAt_filtersMoreAt n m' m Hag')) as [H3 H4].
  intros c [Hc | ->]; [by apply H1 | tauto].
Qed.

Lemma message_ignores_classes (st st' : State) node :
  showIndirect st' = showIndirect st →
  showDependents st' = showDependents st →
  filterState st' = filterState st →
  (highlight st' node true).2 = (highlight st node true).2.
Proof.
  intros Hi Hd Hf. unfold highlightNodeAndDependencies. simpl.
  unfold Webview.related, Webview.directRelated. rewrite Hi, Hd, Hf.
  assert (∀ n, agreeAt n (applyFilters cyNodes (filterState st) (mark st' node))
                 (applyFilters cyNodes (filterState st) (mark st node))) as Hag.
  { intros n. apply applyFilters_agree. by apply markHighlight_agree. }
  rewrite !(unfiltered_agree _ _ _ Hag). done.
Qed.

Lemma onToggleDirection_selected (st : State) node :
  selectedNode st = Some node →
  let r := onToggleDirection cyNodes incomers outgoers predecessors successors
             st in
  r.2 = (highlight (mkState (showIndirect st) (negb (showDependents st))
                            (selectedNode st) (filterState st) (classes st))
                   node true).2 ∧
  showIndirect r.1 = showIndirect st ∧
  showDependents r.1 = negb (showDependents st) ∧
  selectedNode r.1 = Some node ∧
  filterState r.1 = filterState st.
Proof.
  intros Hsel. unfold onToggleDirection, rehighlight. rewrite Hsel. simpl.
  done.
Qed.

(** X10.  A report has no memory.  The message posted for a selected
    vertex is determined by the vertex, the two modes and the filter:
    the classes left on the view by earlier highlights and the earlier
    selection have no influence.  In particular the direction toggle
    pressed twice posts again the message of the first highlight. *)
Theorem report_has_no_memory (indirect dependents : bool)
    (filter : gmap string bool) (node : Z) :
  (∀ selection selection' (classes classes' : ClassMap),
     (highlight (mkState indirect dependents selection filter classes)
                node true).2
     = (highlight (mkState indirect dependents selection' filter classes')
                  node true).2) ∧
  (∀ classes : ClassMap,
     let st := mkState indirect dependents (Some node) filter classes in
     (onToggleDirection cyNodes incomers outgoers predecessors successors
        (onToggleDirection cyNodes incomers outgoers predecessors successors
           st).1).2
     = (highlight st node true).2).
Proof.
  split.
  - intros selection selection' classes classes'.
    by apply message_ignores_classes.
  - intros classes st.
    destruct (onToggleDirection_selected st node eq_refl)
      as (_ & Hi & Hd & Hs & Hf).
    destruct (onToggleDirection_selected _ node Hs) as (-> & _).
    apply message_ignores_classes; [by rewrite Hi | | by rewrite Hf].
    rewrite Hd. simpl. by destruct dependents.
Qed.

End Cy.

End ViewFacts.

(** ** The calls made by [highlightLines] and the decorations they leave *)

Module DecorationFacts.

Import JS Editor Decorations EditorFacts.

Lemma findEditor_sound window ext editor :
  findEditor window ext = Some editor →
  analyzedFileUri ext = Some (fsPath (document editor)) ∧
  (activeTextEditor window = Some editor ∨ editor ∈ visibleTextEditors window).
Proof.
  assert (∀ l, List.find (showsAnalyzedFile ext) l = Some editor →
               analyzedFileUri ext = Some (fsPath (document editor))
               ∧ editor ∈ l) as Hfind.
  { intros l [Hin Hs]%find_some. split; [| by apply list_elem_of_In].
    by apply bool_decide_eq_true in Hs. }
  unfold findEditor. destruct (activeTextEditor window) as [e |] eqn:Ea.
  - destruct (showsAnalyzedFile ext e) eqn:Es.
    + intros [= <-]. split; [| by left]. by apply bool_decide_eq_true in Es.
    + intros [? ?]%Hfind. split; [done | by right].
  - intros [? ?]%Hfind. split; [done | by right].
Qed.

Section Traces.

Variable window : Window.
Variable ext : Extension.

(** The three shapes of the trace of one run. *)
Lemma highlightLines_cases lineNumber ns ins sd :
  let events := (highlightLines window ext lineNumber ns ins sd).1 in
  (findEditor window ext = None ∧ events = [ResetUpdatingAfter 100]) ∨
  (∃ editor, findEditor window ext = Some editor ∧
     ((lineNumber < 0 ∨ lineNumber > lineCount (document editor)) ∧
      events = [ShowWarningMessage (outOfRangeMessage lineNumber);
                ResetUpdatingAfter 100]
      ∨ lineNumber = 0 ∧
        events = clearEditorDecorations editor ++ [ResetUpdatingAfter 100]
      ∨ 1 ≤ lineNumber ≤ lineCount (document editor) ∧
        ∃ selected directLines indirectLines,
          events =
            clearEditorDecorations editor ++
            [ SetDecorations editor
                (if sd then directDependantDecoration
                 else directDependencyDecoration) directLines;
              SetDecorations editor
                (if sd then indirectDependantDecoration
                 else indirectDependencyDecoration) indirectLines;
              SetDecorations editor selectedDecoration [selected];
              RevealRange editor selected;
              ResetUpdatingAfter 100 ] ∧
          linesOf [selected] = [lineNumber] ∧
          linesOf directLines =
            keptNeighbors (lineCount (document editor)) lineNumber ns ∧
          linesOf indirectLines =
            keptNeighbors (lineCount (document editor)) lineNumber ins)).
Proof.
  unfold highlightLines, highlightBody.
  destruct (findEditor window ext) as [editor |] eqn:Ed; [| by left].
  right. exists editor. split; [done |].
  case_decide as Hout; [by left |]. right.
  case_decide as Hzero; [by left |]. right.
  assert (1 ≤ lineNumber ≤ lineCount (document editor)) as Hin by lia.
  split; [done |].
  destruct (decorate_in_range editor true lineNumber ns ins sd Hin)
    as (selected & directLines & indirectLines & -> & Hsel & Hd & Hi).
  exists selected, directLines, indirectLines. split_and!; [done | | done ..].
  unfold linesOf. simpl. rewrite Hsel. f_equal. lia.
Qed.

(** X11.  The calls of one run of [highlightLines], whatever the
    request.  Decorations are set and a range is revealed only on an
    editor that shows the analyzed file and is the active editor or a
    visible one; the only warning is the one for the requested line; no
    error message is shown; the trace ends with the timer of 100 ms
    that resets the update flag, which is set on return; and without an
    editor of the analyzed file the timer is the only call. *)
Theorem highlight_calls lineNumber ns ins sd :
  let result := highlightLines window ext lineNumber ns ins sd in
  Forall (expectedEvent window ext lineNumber) result.1 ∧
  last result.1 = Some (ResetUpdatingAfter 100) ∧
  result.2 = mkExtension (analyzedFileUri ext) (highlightsEnabled ext) true ∧
  (findEditor window ext = None → result.1 = [ResetUpdatingAfter 100]).
Proof.
  pose proof (highlightLines_cases lineNumber ns ins sd) as Hcases.
  simpl in *. split_and!.
  - destruct Hcases as [[_ ->] | (editor & Hed & Hcases)];
      [apply Forall_cons_2; [reflexivity | apply Forall_nil_2] |].
    pose proof (findEditor_sound window ext editor Hed) as Hs.
    destruct Hcases as [[_ ->] | [[_ ->] | (_ & sel & dl & il & -> & _)]];
      unfold clearEditorDecorations; simpl;
      repeat (apply Forall_cons_2;
              [first [exact Hs | reflexivity] |]);
      apply Forall_nil_2.
  - destruct Hcases as [[_ ->] | (editor & Hed & Hcases)]; [done |].
    destruct Hcases as [[_ ->] | [[_ ->] | (_ & sel & dl & il & -> & _)]];
      done.
  - unfold highlightLines, tryCatchFinally.
    by destruct (highlightBody window ext lineNumber ns ins sd).
  - intros Hnone. destruct Hcases as [[_ ->] | (editor & Hed & _)];
      [done | congruence].
Qed.

Lemma shownAfter_clear editor shown d :
  shownAfter editor shown (clearEditorDecorations editor) d = [].
Proof.
  unfold shownAfter, clearEditorDecorations. simpl.
  destruct (decide (editor = editor)) as [_ | Hne]; [| done]. by destruct d.
Qed.

(** X12.  The decorations left by one run of [highlightLines] on the
    editor of the analyzed file.  A request for a line of the document
    replaces the ranges of all five decoration types: whatever was
    shown before, the selected type then shows the requested line, the
    two types of the requested direction show the neighbours kept, and
    the two types of the other direction show nothing.  A request for
    line 0 leaves all five types empty, and a request that is out of
    range leaves every type as it was. *)
Theorem highlight_replaces_decorations editor lineNumber ns ins sd :
  findEditor window ext = Some editor →
  let events := (highlightLines window ext lineNumber ns ins sd).1 in
  (1 ≤ lineNumber ≤ lineCount (document editor) →
   ∀ shown d,
     linesOf (shownAfter editor shown events d)
     = requestedLines (lineCount (document editor)) lineNumber ns ins sd d) ∧
  (lineNumber = 0 → ∀ shown d, shownAfter editor shown events d = []) ∧
  (lineNumber < 0 ∨ lineNumber > lineCount (document editor) →
   ∀ shown, shownAfter editor shown events = shown).
Proof.
  intros Hed.
  pose proof (highlightLines_cases lineNumber ns ins sd) as Hcases.
  cbv zeta in *.
  destruct Hcases as [[Hnone _] | (editor' & Hed' & Hcases)]; [congruence |].
  assert (editor' = editor) as -> by congruence.
  assert (0 ≤ lineCount (document editor)) by (unfold lineCount; lia).
  split_and!.
  - intros Hin shown d.
    destruct Hcases as [[? _] | [[? _] | (_ & sel & dl & il & -> & Hs & Hd & Hi)]];
      [lia | lia |].
    unfold shownAfter. rewrite foldl_app.
    fold (shownAfter editor shown (clearEditorDecorations editor)).
    simpl. destruct (decide (editor = editor)) as [_ | Hne]; [| done].
    unfold requestedLines.
    destruct sd, d; simpl;
      rewrite ?shownAfter_clear; try done.
  - intros -> shown d.
    destruct Hcases as [[? _] | [[_ ->] | (? & _)]]; [lia | | lia].
    unfold shownAfter. rewrite foldl_app. simpl.
    apply shownAfter_clear.
  - intros Hout shown.
    destruct Hcases as [[_ ->] | [[? _] | (? & _)]]; [done | lia | lia].
Qed.

End Traces.

End DecorationFacts.

(** ** The graph view and the editor together *)

Module RoundTripFacts.

Import JS Editor Decorations Webview Controls Listeners.
Import EditorFacts DecorationFacts ViewFacts.

Lemma kept_elem count lineNumber ns n :
  n ∈ keptNeighbors count lineNumber ns → n ∈ ns ∧ n ≠ lineNumber.
Proof.
  unfold keptNeighbors. rewrite list_elem_of_filter. tauto.
Qed.

(** One run of [highlightLines] on lists that share no line gives no
    line two decoration types. *)
Lemma highlightLines_oneColour window ext lineNumber ns ins sd :
  (∀ n, n ∈ ns → n ∉ ins) →
  oneColourPerLine (highlightLines window ext lineNumber ns ins sd).1.
Proof.
  intros Hdisj.
  pose proof (highlightLines_cases window ext lineNumber ns ins sd) as Hcases.
  cbv zeta in Hcases.
  set (count := λ editor : TextEditor, lineCount (document editor)) in *.
  assert (∃ editor : TextEditor,
            ∀ e d r, SetDecorations e d r ∈
                       (highlightLines window ext lineNumber ns ins sd).1 →
              r = [] ∨
              (d = (if sd then directDependantDecoration
                    else directDependencyDecoration)
               ∧ linesOf r = keptNeighbors (count editor) lineNumber ns) ∨
              (d = (if sd then indirectDependantDecoration
                    else indirectDependencyDecoration)
               ∧ linesOf r = keptNeighbors (count editor) lineNumber ins) ∨
              (d = selectedDecoration ∧ linesOf r = [lineNumber]))
    as [editor Hkinds].
  { destruct Hcases as [[_ ->] | (editor & _ & Hcases)].
    - exists (mkTextEditor (mkTextDocument "" [])). intros e d r Hin.
      apply list_elem_of_singleton in Hin. done.
    - exists editor.
      destruct Hcases as [[_ ->] | [[_ ->] | (_ & sel & dl & il & -> & ? & ? & ?)]];
        intros e d r; unfold clearEditorDecorations; simpl;
        rewrite !elem_of_cons, elem_of_nil;
        intros Hin;
        repeat (destruct Hin as [Heq | Hin];
                [try discriminate Heq; injection Heq as -> -> ->;
                 first [by left | by right; left | by right; right; left
                       | by right; right; right] |]);
        done. }
  intros e1 d1 r1 e2 d2 r2 line H1 H2 Hne Hl1 Hl2.
  apply Hkinds in H1, H2.
  destruct H1 as [-> | [[-> E1] | [[-> E1] | [-> E1]]]];
    [by apply elem_of_nil in Hl1 | ..];
    (destruct H2 as [-> | [[-> E2] | [[-> E2] | [-> E2]]]];
       [by apply elem_of_nil in Hl2 | ..]);
    try done;
    rewrite E1 in Hl1; rewrite E2 in Hl2;
    try apply kept_elem in Hl1 as [Hin1 Hn1];
    try apply kept_elem in Hl2 as [Hin2 Hn2];
    try apply list_elem_of_singleton in Hl1;
    try apply list_elem_of_singleton in Hl2;
    try done.
  - by apply (Hdisj line).
  - by apply (Hdisj line).
Qed.

Section Cy.

Variable cyNodes : list (Z * list string).
Variables incomers outgoers predecessors successors : Z → list Z.

Local Abbreviation highlight :=
  (highlightNodeAndDependencies cyNodes incomers outgoers predecessors
                                successors).
Local Abbreviation handle :=
  (Controls.handle cyNodes incomers outgoers predecessors successors).
Local Abbreviation run :=
  (Controls.run cyNodes incomers outgoers predecessors successors).
Local Abbreviation disjoint :=
  (λ message : Message,
     ∀ n, n ∈ neighbors message → n ∉ indirectNeighbors message).

Lemma highlight_disjoint (st : State) node sendMessage message :
  (highlight st node sendMessage).2 = Some message → disjoint message.
Proof.
  unfold highlightNodeAndDependencies. simpl.
  destruct sendMessage; [| done]. intros [= <-] n. simpl.
  rewrite elem_of_unfiltered. intros [_ Hd].
  destruct (showIndirect st); [| apply not_elem_of_nil].
  rewrite elem_of_unfiltered, list_elem_of_difference. tauto.
Qed.

Lemma rehighlight_disjoint (st : State) message :
  (rehighlight cyNodes incomers outgoers predecessors successors st).2
  = Some message → disjoint message.
Proof.
  unfold rehighlight. destruct (selectedNode st); [| done].
  apply highlight_disjoint.
Qed.

Lemma handle_disjoint (st : State) action message :
  (handle st action).2 = Some message → disjoint message.
Proof.
  destruct action as [node | category checked | | | | | line]; simpl.
  - case_decide; [| done]. unfold onTapNode. case_decide.
    + intros [= <-] n. simpl. intros Hin. by apply elem_of_nil in Hin.
    + apply highlight_disjoint.
  - case_decide; [| done]. apply rehighlight_disjoint.
  - apply rehighlight_disjoint.
  - apply rehighlight_disjoint.
  - unfold onToggleDirection. destruct (selectedNode st); [| done].
    apply rehighlight_disjoint.
  - unfold onToggleIndirect. destruct (selectedNode st); [| done].
    apply rehighlight_disjoint.
  - unfold onHighlightRequest. case_decide; [| done].
    apply highlight_disjoint.
Qed.

Lemma run_disjoint (st : State) actions :
  Forall disjoint (run st actions).2.
Proof.
  revert st. induction actions as [| action rest IH]; intros st; simpl;
    [constructor |].
  pose proof (handle_disjoint st action) as Hmsg.
  destruct (handle st action) as [st1 message]. simpl in *.
  specialize (IH st1). destruct (run st1 rest) as [st2 messages]. simpl in *.
  apply Forall_app. split; [| done].
  destruct message as [message |]; simpl; [| constructor].
  constructor; [by apply Hmsg | constructor].
Qed.

(** X13.  One colour per line.  Whatever the state of the view and
    whatever is done in it, the calls that the extension makes for a
    message of the view never give one line two decoration types: the
    direct and the indirect neighbours reported share no line, and the
    selected line is left out of both. *)
Theorem one_colour_per_line (st : State) (actions : list Action)
    (window : Window) (ext : Extension) :
  Forall (λ message, oneColourPerLine (onDidReceiveMessage window ext message).1)
         (run st actions).2.
Proof.
  eapply Forall_impl; [apply run_disjoint |]. intros message Hdisj. simpl.
  unfold onDidReceiveMessage. destruct (highlightsEnabled ext).
  - by apply highlightLines_oneColour.
  - intros e1 d1 r1 e2 d2 r2 line Hin. by apply elem_of_nil in Hin.
Qed.

End Cy.


Section Session.

Variable cyNodes : list (Z * list string).
Variables incomers outgoers predecessors successors : Z → list Z.
Variable window : Window.

(** X14.  From the cursor to the highlight.  With the panel open,
    highlights enabled and no update in progress, when the cursor is
    put on a line of the editor of the analyzed file that has a
    vertex: the listener posts that line, counted from 1, to the view;
    the view selects the vertex and answers with a message for the
    same line; the extension then decorates exactly that line as the
    selected one, without a warning; and the update flag it sets keeps
    the listener silent until the timer resets it. *)
Theorem cursor_round_trip (ss : Session) (st : State) (editor : TextEditor)
    (activeLine : Z) :
  panelOpen ss = true →
  highlightsEnabled (extension ss) = true →
  isUpdatingHighlights (extension ss) = false →
  findEditor window (extension ss) = Some editor →
  0 ≤ activeLine < lineCount (document editor) →
  activeLine + 1 ∈ cyNodes.*1 →
  ∃ st' message events ext' selected,
    onDidChangeTextEditorSelection ss editor activeLine = Some (activeLine + 1) ∧
    onHighlightRequest cyNodes incomers outgoers predecessors successors st
                       (activeLine + 1) = (st', Some message) ∧
    selectedNode st' = Some (activeLine + 1) ∧
    lineNumber message = activeLine + 1 ∧
    onDidReceiveMessage window (extension ss) message = (events, ext') ∧
    SetDecorations editor selectedDecoration [selected] ∈ events ∧
    startLine selected = activeLine ∧
    (∀ warning, ShowWarningMessage warning ∉ events) ∧
    onDidChangeTextEditorSelection (mkSession (panelOpen ss) ext') editor
                                   activeLine = None ∧
    onDidChangeTextEditorSelection (onTimer (mkSession (panelOpen ss) ext'))
                                   editor activeLine = Some (activeLine + 1).
Proof.
  intros Hopen Hen Hup Hed Hline Hnode.
  destruct (findEditor_sound window (extension ss) editor Hed) as [Hfile _].
  assert (showsAnalyzedFile (extension ss) editor = true) as Hshows
    by (by apply bool_decide_eq_true).
  assert (∃ st' message,
            onHighlightRequest cyNodes incomers outgoers predecessors successors
              st (activeLine + 1) = (st', Some message)
            ∧ selectedNode st' = Some (activeLine + 1)
            ∧ lineNumber message = activeLine + 1)
    as (st' & message & Hres & Hsel & Hmsg).
  { unfold onHighlightRequest. rewrite decide_True by done.
    eexists _, _. split; [reflexivity | by split]. }
  pose proof (highlightLines_cases window (extension ss) (lineNumber message)
                (neighbors message) (indirectNeighbors message)
                (messageShowDependents message)) as Hcases.
  cbv zeta in Hcases. rewrite Hmsg in Hcases.
  destruct Hcases as [[? _] | (e & He & Hcases)]; [congruence |].
  assert (e = editor) as -> by congruence.
  destruct Hcases as [[? _] | [[? _] | (_ & sel & dl & il & Hev & Hs & _)]];
    [lia | lia |].
  assert (onDidReceiveMessage window (extension ss) message
          = highlightLines window (extension ss) (activeLine + 1)
              (neighbors message) (indirectNeighbors message)
              (messageShowDependents message)) as Hrecv.
  { unfold onDidReceiveMessage. by rewrite Hen, Hmsg. }
  exists st', message,
    (highlightLines window (extension ss) (activeLine + 1)
       (neighbors message) (indirectNeighbors message)
       (messageShowDependents message)).1,
    (mkExtension (analyzedFileUri (extension ss))
       (highlightsEnabled (extension ss)) true),
    sel.
  split_and!.
  - unfold onDidChangeTextEditorSelection. by rewrite Hopen, Hen, Hup, Hshows.
  - done.
  - done.
  - done.
  - rewrite Hrecv. unfold highlightLines, tryCatchFinally.
    by destruct (highlightBody _ _ _ _ _ _).
  - rewrite Hev. unfold clearEditorDecorations. simpl.
    rewrite !elem_of_cons. tauto.
  - unfold linesOf in Hs. simpl in Hs. injection Hs as Hs. lia.
  - intros warning. rewrite Hev. unfold clearEditorDecorations. simpl.
    rewrite !elem_of_cons, elem_of_nil.
    intros Hin. repeat (destruct Hin as [Heq | Hin]; [discriminate Heq |]).
    done.
  - unfold onDidChangeTextEditorSelection. simpl. by rewrite Hopen, Hen.
  - unfold onDidChangeTextEditorSelection, onTimer, showsAnalyzedFile in *.
    simpl. by rewrite Hopen, Hen, Hshows.
Qed.

(** X15.  An edit switches the highlights off.  When the analyzed
    document changes in the active editor while the panel is open, the
    calls made are one [setDecorations] with no range for each of the
    five decoration types on the editor of the analyzed file, so every
    one of the five types shows nothing afterwards, whatever it showed
    before; and highlights are disabled: from then on a message of the
    view makes no call at all and a cursor move posts nothing.  A
    change of any other document does nothing. *)
Theorem edit_disables_highlights (ss : Session) (editor : TextEditor) :
  panelOpen ss = true →
  activeTextEditor window = Some editor →
  analyzedFileUri (extension ss) = Some (fsPath (document editor)) →
  let result := onDidChangeTextDocument window ss (document editor) in
  result.1 = [ SetDecorations editor directDependencyDecoration [];
               SetDecorations editor indirectDependencyDecoration [];
               SetDecorations editor directDependantDecoration [];
               SetDecorations editor indirectDependantDecoration [];
               SetDecorations editor selectedDecoration [] ] ∧
  (∀ shown decoration, shownAfter editor shown result.1 decoration = []) ∧
  highlightsEnabled (extension result.2) = false ∧
  (∀ window' message,
     onDidReceiveMessage window' (extension result.2) message
     = ([], extension result.2)) ∧
  (∀ anyEditor line,
     onDidChangeTextEditorSelection result.2 anyEditor line = None) ∧
  (∀ other, other ≠ document editor →
     onDidChangeTextDocument window ss other = ([], ss)).
Proof.
  intros Hopen Hactive Hfile.
  assert (findEditor window (extension ss) = Some editor) as Hed.
  { unfold findEditor. rewrite Hactive. unfold showsAnalyzedFile.
    by rewrite bool_decide_eq_true_2. }
  unfold onDidChangeTextDocument. rewrite Hopen, Hactive. simpl.
  rewrite decide_True by done. simpl.
  assert (clearHighlights window (extension ss)
          = [ SetDecorations editor directDependencyDecoration [];
              SetDecorations editor indirectDependencyDecoration [];
              SetDecorations editor directDependantDecoration [];
              SetDecorations editor indirectDependantDecoration [];
              SetDecorations editor selectedDecoration [] ]) as Hclear.
  { unfold clearHighlights. by rewrite Hed. }
  split_and!.
  - exact Hclear.
  - intros shown decoration. rewrite Hclear. unfold shownAfter. simpl.
    destruct (decide (editor = editor)) as [_ | Hne]; [| done].
    by destruct decoration.
  - done.
  - done.
  - intros anyEditor line. unfold onDidChangeTextEditorSelection. simpl.
    by destruct (panelOpen ss).
  - intros other Hne. rewrite decide_False; [done |]. by intros [? _].
Qed.

(** X19.  Leaving the analyzed file and closing the panel.  While the
    panel is open, making an editor of another file the active one
    empties the five decoration types on the editor that still shows
    the analyzed file; making an editor of the analyzed file active, or
    leaving no active editor, makes no call.  Closing the panel empties
    the five types as well, and nothing reacts afterwards: a message of
    the view, a cursor move, an edit and a change of the active editor
    all do nothing. *)
Theorem leaving_clears_decorations (ss : Session) (analyzed : string)
    (target : TextEditor) :
  panelOpen ss = true →
  analyzedFileUri (extension ss) = Some analyzed →
  findEditor window (extension ss) = Some target →
  (∀ e shown d, fsPath (document e) ≠ analyzed →
     shownAfter target shown (onDidChangeActiveTextEditor window ss (Some e)) d
     = []) ∧
  (∀ e, fsPath (document e) = analyzed →
     onDidChangeActiveTextEditor window ss (Some e) = []) ∧
  onDidChangeActiveTextEditor window ss None = [] ∧
  let closed := onDidDispose window ss in
  (∀ shown d, shownAfter target shown closed.1 d = []) ∧
  (∀ window' message,
     onDidReceiveMessage window' (extension closed.2) message
     = ([], extension closed.2)) ∧
  (∀ e line, onDidChangeTextEditorSelection closed.2 e line = None) ∧
  (∀ window' e, onDidChangeActiveTextEditor window' closed.2 e = []) ∧
  (∀ window' changed,
     onDidChangeTextDocument window' closed.2 changed = ([], closed.2)).
Proof.
  intros Hopen Hfile Hed.
  assert (∀ shown d,
            shownAfter target shown (clearHighlights window (extension ss)) d
            = []) as Hclear.
  { intros shown d. unfold clearHighlights. rewrite Hed.
    apply DecorationFacts.shownAfter_clear. }
  split_and!.
  - intros e shown d Hne. unfold onDidChangeActiveTextEditor.
    rewrite Hopen, Hfile. cbn [negb].
    destruct (decide (fsPath (document e) ≠ analyzed)); [apply Hclear | done].
  - intros e He. unfold onDidChangeActiveTextEditor.
    rewrite Hopen, Hfile. cbn [negb].
    by destruct (decide (fsPath (document e) ≠ analyzed)).
  - unfold onDidChangeActiveTextEditor. by rewrite Hopen.
  - intros closed. subst closed.
    split_and!; [intros shown d; apply Hclear | done ..].
Qed.

End Session.

End RoundTripFacts.

(** ** The labels of the vertices *)

Module LineTypeFacts.

Import JS LinesCsv LineType.

Lemma dropWhile_all {A} (f : A → bool) l :
  Forall (λ x, f x = true) l → dropWhile f l = [].
Proof. induction 1 as [| x l Hx _ IH]; simpl; [done |]. by rewrite Hx. Qed.

Lemma dropWhile_nil_all {A} (f : A → bool) l :
  dropWhile f l = [] → Forall (λ x, f x = true) l.
Proof.
  induction l as [| x l IH]; simpl; [constructor |].
  destruct (f x) eqn:E; [| done]. intros H. constructor; [done | by apply IH].
Qed.

Lemma dropWhile_split {A} (f : A → bool) l :
  ∃ pre, l = pre ++ dropWhile f l ∧ Forall (λ x, f x = true) pre.
Proof.
  induction l as [| x l (pre & IH & Hpre)]; simpl; [by exists [] |].
  destruct (f x) eqn:E.
  - exists (x :: pre). simpl. split; [by f_equal | by constructor].
  - by exists [].
Qed.

Lemma dropWhile_head {A} (f : A → bool) l x r :
  dropWhile f l = x :: r → f x = false.
Proof.
  induction l as [| y l IH]; simpl; [done |].
  destruct (f y) eqn:E; [done |]. by intros [= <- _].
Qed.

Lemma dropWhile_stop {A} (f : A → bool) x r :
  f x = false → dropWhile f (x :: r) = x :: r.
Proof. intros H. simpl. by rewrite H. Qed.

(** The shape of a trimmed text: the text is its trimmed text between
    two runs of white space, and a trimmed text that is not empty
    starts and ends with a character that is not white space. *)
Lemma trim_split s :
  ∃ lead trail, s = lead ++ trim s ++ trail ∧ blank lead ∧ blank trail.
Proof.
  destruct (dropWhile_split isWhiteSpace s) as (lead & Hs & Hlead).
  destruct (dropWhile_split isWhiteSpace (reverse (dropWhile isWhiteSpace s)))
    as (pre & Hr & Hpre).
  exists lead, (reverse pre). split_and!; [| done | by apply Forall_reverse].
  unfold trim. rewrite <- reverse_app, <- Hr, reverse_involutive. done.
Qed.

Lemma trim_blank s : blank s → trim s = [].
Proof. intros H. unfold trim. by rewrite (dropWhile_all _ _ H). Qed.

Lemma trim_nil_blank s : trim s = [] → blank s.
Proof.
  intros H. destruct (trim_split s) as (lead & trail & Hs & ? & ?).
  rewrite H in Hs. rewrite Hs. simpl. by apply Forall_app.
Qed.

Lemma trim_trim s : trim (trim s) = trim s.
Proof.
  unfold trim at 2 3.
  set (d := dropWhile isWhiteSpace s).
  destruct (dropWhile isWhiteSpace (reverse d)) as [| z e] eqn:Ee; [done |].
  pose proof (dropWhile_head _ _ _ _ Ee) as Hz.
  destruct (dropWhile_split isWhiteSpace (reverse d)) as (pre & Hr & Hpre).
  rewrite Ee in Hr.
  assert (∃ a mid, reverse (z :: e) = a :: mid ∧ isWhiteSpace a = false)
    as (a & mid & Hrev & Ha).
  { apply (f_equal reverse) in Hr. rewrite reverse_involutive, reverse_app in Hr.
    destruct d as [| a d'] eqn:Ed.
    - apply (f_equal length) in Hr. rewrite length_app, !length_reverse in Hr.
      simpl in Hr. lia.
    - pose proof (dropWhile_head isWhiteSpace s a d' Ed) as Ha.
      destruct (reverse (z :: e)) as [| a' mid] eqn:Ere.
      + apply (f_equal length) in Ere. rewrite length_reverse in Ere. done.
      + simpl in Hr. injection Hr as -> _. by exists a', mid. }
  unfold trim. rewrite Hrev, (dropWhile_stop _ _ _ Ha), <- Hrev.
  by rewrite reverse_involutive, (dropWhile_stop _ _ _ Hz).
Qed.

Lemma space_not_colon c : isWhiteSpace c = true → (c =? colon)%N = false.
Proof.
  intros H. destruct (N.eqb_spec c colon) as [-> | ?]; [done | done].
Qed.

Lemma space_not_equals c : isWhiteSpace c = true → (c =? equalsSign)%N = false.
Proof.
  intros H. destruct (N.eqb_spec c equalsSign) as [-> | ?]; [done | done].
Qed.

Lemma includesAssign_blank s : blank s → includesAssign s = false.
Proof.
  induction 1 as [| c r Hc _ IH]; [done |].
  simpl. destruct r; [done |]. by rewrite (space_not_colon c Hc).
Qed.

Lemma includesAssign_lead lead s :
  blank lead → includesAssign (lead ++ s) = includesAssign s.
Proof.
  induction 1 as [| c r Hc _ IH]; [done |].
  change ((c :: r) ++ s) with (c :: (r ++ s)).
  simpl. rewrite (space_not_colon c Hc). simpl.
  destruct (r ++ s) eqn:E; [| done].
  rewrite <- IH. done.
Qed.

Lemma includesAssign_trail s trail :
  blank trail → includesAssign (s ++ trail) = includesAssign s.
Proof.
  intros Htrail. induction s as [| c1 s IH]; simpl.
  - by apply includesAssign_blank.
  - destruct s as [| c2 s']; simpl in *.
    + destruct trail as [| c2 trail']; [done |].
      apply Forall_cons in Htrail as [Hc2 Ht].
      rewrite (space_not_equals c2 Hc2), andb_false_r. simpl.
      change (includesAssign (c2 :: trail') = false).
      apply includesAssign_blank. by constructor.
    + by rewrite IH.
Qed.

Lemma includesAssign_trim s : includesAssign (trim s) = includesAssign s.
Proof.
  destruct (trim_split s) as (lead & trail & Hs & Hlead & Htrail).
  rewrite Hs at 2.
  by rewrite includesAssign_lead, includesAssign_trail.
Qed.

Lemma shortened_length (l : Text) limit :
  (0 < limit)%nat →
  (length (if decide (limit < length l)%nat
           then take (limit - 1) l ++ [ellipsis] else l) ≤ limit)%nat.
Proof.
  intros Hl. case_decide; [| lia].
  rewrite length_app, length_take. simpl. lia.
Qed.

(** X16.  The label of a vertex.  The line type has at most 10
    characters and the assigned variable at most 11; a blank line has
    line type other and no variable; a line with an assignment sign has
    line type assignment, and a line without one has no variable; and
    the label does not depend on the white space around the line, so
    that it is the same for a line and for its trimmed text. *)
Theorem labels_are_bounded (lineContent : Text) :
  (length (lineType (getLineType lineContent)) ≤ 10)%nat ∧
  (length (assignmentVariable (getLineType lineContent)) ≤ 11)%nat ∧
  (blank lineContent →
   getLineType lineContent = mkLineInfo (codeUnits "other") []) ∧
  (includesAssign lineContent = true →
   lineType (getLineType lineContent) = codeUnits "assignment") ∧
  (includesAssign lineContent = false →
   assignmentVariable (getLineType lineContent) = []) ∧
  getLineType (trim lineContent) = getLineType lineContent.
Proof.
  split_and!.
  - unfold getLineType. destruct (trim lineContent) as [| a t] eqn:Et;
      [simpl; lia |].
    destruct (includesAssign lineContent);
      [simpl; lia | apply (shortened_length _ 10); lia].
  - unfold getLineType. destruct (trim lineContent) as [| a t] eqn:Et;
      [simpl; lia |].
    destruct (includesAssign lineContent); [| simpl; lia].
    apply (shortened_length _ 11). lia.
  - intros Hb. unfold getLineType. by rewrite (trim_blank _ Hb).
  - intros Hin. unfold getLineType.
    destruct (trim lineContent) as [| a t] eqn:Et.
    + apply trim_nil_blank, includesAssign_blank in Et. congruence.
    + by rewrite Hin.
  - intros Hin. unfold getLineType.
    destruct (trim lineContent) as [| a t] eqn:Et; [done |]. by rewrite Hin.
  - unfold getLineType. by rewrite trim_trim, includesAssign_trim.
Qed.

End LineTypeFacts.

(** ** The entries read from lines.csv *)

Module LinesFileFacts.

Import JS LinesCsv LinesCsvFacts.

Lemma foldl_lineStep_origin records (m : gmap Z Text) k content :
  foldl lineStep m records !! k = Some content →
  m !! k = Some content
  ∨ ∃ record, record ∈ records ∧ decodeLine record = Some (k, content).
Proof.
  revert m. induction records as [| record records IH]; intros m; simpl;
    [by left |].
  intros [Hm | (r & Hin & Hdec)]%IH.
  - unfold lineStep in Hm.
    destruct (decodeLine record) as [[n c] |] eqn:Ed; [| by left].
    destruct (decide (n = k)) as [-> | Hne].
    + rewrite lookup_insert_eq in Hm. injection Hm as ->.
      right. exists record. split; [left | done].
    + rewrite lookup_insert_ne in Hm by done. by left.
  - right. exists r. split; [by right | done].
Qed.

(** X17.  The entries read back from lines.csv belong to lines of the
    file.  After the export of a file, every entry of the map read
    from lines.csv has the number of a line of the file, between 1 and
    the number of lines, and holds what the reader extracts from the
    record written for that line; a missing lines.csv gives the empty
    map. *)
Theorem stored_lines_exist (fileContent : Text) (k : Z) (content : Text) :
  loadLineContents (Some (exportLinesToCSV fileContent)) !! k = Some content →
  (∃ i line, splitLines fileContent !! i = Some line ∧
             k = (Z.of_nat i + 1)%Z ∧
             decodeLine (encodeLine i line) = Some (k, content)) ∧
  (1 ≤ k ≤ Z.of_nat (length (splitLines fileContent)))%Z ∧
  loadLineContents None = ∅.
Proof.
  unfold loadLineContents at 1. rewrite exportLinesToCSV_split.
  intros [Hm | (r & Hin & Hdec)]%foldl_lineStep_origin; [done |].
  apply elem_of_lookup_imap in Hin as (i & line & -> & Hi).
  pose proof (decodeLine_number _ _ _ _ Hdec) as ->.
  split; [by exists i, line |]. split; [| done].
  apply lookup_lt_Some in Hi. lia.
Qed.

End LinesFileFacts.

(** ** The graph of the earlier revisions *)

Module LegacyFacts.

Import JS LinesCsv LegacyGraph LinesCsvFacts LineTypeFacts.

Local Open Scope Z_scope.

(** *** Numerals *)

Lemma codeUnits_app a b : codeUnits (a +:+ b) = codeUnits a ++ codeUnits b.
Proof.
  induction a as [| x a IH]; rewrite ?GraphFacts.append_cons,
    ?GraphFacts.append_nil; simpl; [done |]. by rewrite IH.
Qed.

Lemma digit_not_comma c : isDigit c = true → (c =? comma)%N = false.
Proof.
  unfold isDigit, comma. intros [H1 H2]%andb_prop. apply N.leb_le in H1.
  apply N.eqb_neq. lia.
Qed.

Lemma digitValue_digit c :
  isDigit c = true → digitValue 10 c = Some (Z.of_N c - 48).
Proof.
  intros Hd. unfold digitValue. rewrite Hd.
  unfold isDigit in Hd. apply andb_prop in Hd as [H1 H2].
  apply N.leb_le in H1, H2. rewrite decide_True by lia. done.
Qed.

Lemma digitsIn_digits ds :
  Forall (λ c, isDigit c = true) ds →
  digitsIn 10 ds = (λ c, Z.of_N c - 48) <$> ds.
Proof.
  induction 1 as [| c ds Hc _ IH]; simpl; [done |].
  by rewrite (digitValue_digit c Hc), IH.
Qed.

Lemma foldl_digits (ds : list N) acc :
  foldl (λ acc d, acc * 10 + d) acc ((λ c, Z.of_N c - 48) <$> ds)
  = foldl (λ acc c, acc * 10 + (Z.of_N c - 48)) acc ds.
Proof. revert acc. induction ds as [| c ds IH]; intros acc; simpl; [done |]. apply IH. Qed.

(** [parseInt] on a run of digits that is the whole text, with or
    without a minus sign in front. *)
Lemma parseInt_digits (sign : bool) ds :
  Forall (λ c, isDigit c = true) ds → ds ≠ [] →
  LegacyGraph.parseInt ((if sign then [minusSign] else []) ++ ds)
  = Some ((if sign then -1 else 1) * LinesCsv.parseInt ds).
Proof.
  intros Hds Hne. destruct ds as [| d ds']; [done |].
  pose proof Hds as Hall. apply Forall_cons in Hds as [Hd Hds'].
  destruct (digit_facts d Hd) as [_ Hws].
  assert ((d =? minusSign)%N = false ∧ (d =? plusSign)%N = false) as [Hm Hp].
  { unfold isDigit in Hd. apply andb_prop in Hd as [H1 _].
    apply N.leb_le in H1. unfold minusSign, plusSign.
    split; apply N.eqb_neq; lia. }
  assert (∀ sgn : Z,
            match
              (let '(radix, s) :=
                 match d :: ds' with
                 | c1 :: c2 :: r =>
                   if ((c1 =? zeroDigit) && ((c2 =? lowerX) || (c2 =? upperX)))%N
                   then (16, r) else (10, d :: ds')
                 | _ => (10, d :: ds')
                 end in
               match digitsIn radix s with
               | [] => None
               | digits => Some (sgn * foldl (λ acc x, acc * radix + x) 0 digits)
               end)
            with
            | Some v => Some v
            | None => None
            end = Some (sgn * LinesCsv.parseInt (d :: ds'))) as Hcore.
  { intros sgn.
    assert (match d :: ds' with
            | c1 :: c2 :: r =>
              if ((c1 =? zeroDigit) && ((c2 =? lowerX) || (c2 =? upperX)))%N
              then (16, r) else (10, d :: ds')
            | _ => (10, d :: ds')
            end = (10, d :: ds')) as ->.
    { destruct ds' as [| d2 ds'']; [done |].
      apply Forall_cons in Hds' as [Hd2 _].
      assert (((d2 =? lowerX) || (d2 =? upperX))%N = false) as ->.
      { unfold isDigit in Hd2. apply andb_prop in Hd2 as [_ H2].
        apply N.leb_le in H2. unfold lowerX, upperX.
        apply orb_false_intro; apply N.eqb_neq; lia. }
      by rewrite andb_false_r. }
    rewrite (digitsIn_digits _ Hall). simpl.
    rewrite foldl_digits. unfold LinesCsv.parseInt. simpl. done. }
  unfold LegacyGraph.parseInt. destruct sign; simpl.
  - change (45 =? minusSign)%N with true. cbv iota.
    specialize (Hcore (-1)).
    destruct (let '(radix, s) := _ in _) as [v |] eqn:E; [| done].
    exact Hcore.
  - rewrite Hws, Hm, Hp. specialize (Hcore 1).
    destruct (let '(radix, s) := _ in _) as [v |] eqn:E; [| done].
    exact Hcore.
Qed.

(** The numeral of an integer: an optional minus sign and a run of
    digits that [parseInt] of the line records reads back. *)
Lemma numeral_shape z :
  ∃ (sign : bool) ds,
    codeUnits (showZ z) = (if sign then [minusSign] else []) ++ ds ∧
    Forall (λ c, isDigit c = true) ds ∧ ds ≠ [] ∧
    (if sign then -1 else 1) * LinesCsv.parseInt ds = z.
Proof.
  assert (∀ p, NilZero.string_of_uint (Pos.to_uint p)
               = NilEmpty.string_of_uint (Pos.to_uint p)) as Hnz.
  { intros p. pose proof (DecimalPos.Unsigned.to_uint_nonnil p).
    unfold NilZero.string_of_uint. by destruct (Pos.to_uint p). }
  assert (∀ p, codeUnits (NilEmpty.string_of_uint (Pos.to_uint p)) ≠ []) as Hne.
  { intros p. pose proof (DecimalPos.Unsigned.to_uint_nonnil p).
    by destruct (Pos.to_uint p). }
  unfold showZ. destruct z as [| p | p]; simpl.
  - exists false, [48%N]. split_and!; [done | by repeat constructor | done | done].
  - exists false, (codeUnits (NilEmpty.string_of_uint (Pos.to_uint p))).
    rewrite Hnz. split_and!; [done | apply digits_uint | apply Hne |].
    rewrite parse_uint, DecimalPos.Unsigned.of_to. simpl. lia.
  - exists true, (codeUnits (NilEmpty.string_of_uint (Pos.to_uint p))).
    rewrite Hnz. split_and!; [done | apply digits_uint | apply Hne |].
    rewrite parse_uint, DecimalPos.Unsigned.of_to. simpl. lia.
Qed.

Lemma numeral_plain z :
  codeUnits (showZ z) ≠ [] ∧
  Forall (λ c, (c =? comma)%N = false ∧ (c =? newline)%N = false
               ∧ isWhiteSpace c = false) (codeUnits (showZ z)).
Proof.
  destruct (numeral_shape z) as (sign & ds & -> & Hds & Hne & _).
  split; [by destruct sign, ds |].
  apply Forall_app. split.
  - destruct sign; repeat constructor; done.
  - eapply Forall_impl; [exact Hds |]. intros c Hc. simpl.
    destruct (digit_facts c Hc). split; [by apply digit_not_comma | done].
Qed.

Lemma dropWhile_none {A} (f : A → bool) l :
  Forall (λ x, f x = false) l → dropWhile f l = l.
Proof. intros [| x r Hx _]; simpl; [done |]. by rewrite Hx. Qed.

Lemma trim_plain s : Forall (λ c, isWhiteSpace c = false) s → trim s = s.
Proof.
  intros H. unfold trim. rewrite (dropWhile_none _ _ H).
  rewrite dropWhile_none by (by apply Forall_reverse).
  apply reverse_involutive.
Qed.

Lemma numeral_parse z :
  LegacyGraph.parseInt (trim (codeUnits (showZ z))) = Some z.
Proof.
  rewrite trim_plain.
  - destruct (numeral_shape z) as (sign & ds & -> & Hds & Hne & Hz).
    by rewrite parseInt_digits, Hz.
  - eapply Forall_impl; [apply numeral_plain |]. simpl. tauto.
Qed.

(** *** Splitting a row *)

Lemma splitAt_nonempty separator s : splitAt separator s ≠ [].
Proof.
  destruct s as [| c r]; simpl; [done |].
  destruct (c =? separator)%N; [done |]. by destruct (splitAt separator r).
Qed.

Lemma splitAt_app_separator separator a r :
  Forall (λ c, (c =? separator)%N = false) a →
  splitAt separator (a ++ separator :: r) = a :: splitAt separator r.
Proof.
  induction 1 as [| c a' Hc _ IH]; simpl.
  - by rewrite N.eqb_refl.
  - by rewrite Hc, IH.
Qed.

(** A line that starts with the numerals of two integers, each followed
    by a comma, adds the edge between them. *)
Lemma rowStep_numerals st s t rest :
  rowStep st (codeUnits (showZ s) ++ comma :: codeUnits (showZ t) ++ comma :: rest)
  = mkLoaded (setAdd t (setAdd s (nodes st))) (edges st ++ [(s, t)]).
Proof.
  assert (∀ z, Forall (λ c, (c =? comma)%N = false) (codeUnits (showZ z)))
    as Hplain.
  { intros z. eapply Forall_impl; [apply numeral_plain |]. simpl. tauto. }
  unfold rowStep.
  rewrite (splitAt_app_separator _ _ _ (Hplain s)),
    (splitAt_app_separator _ _ _ (Hplain t)).
  pose proof (splitAt_nonempty comma rest) as Hne.
  destruct (splitAt comma rest) as [| f fs]; [done |]. simpl.
  by rewrite !numeral_parse.
Qed.

(** *** Margins *)

Local Abbreviation blank := (Forall (λ c, isWhiteSpace c = true)).
Local Abbreviation dropEnd s :=
  (reverse (dropWhile isWhiteSpace (reverse s))).

Lemma withoutMargins_refl s : withoutMargins s s.
Proof. exists [], []. by rewrite app_nil_r. Qed.

Lemma withoutMargins_noNewline outer inner :
  withoutMargins outer inner → noNewline outer → noNewline inner.
Proof.
  intros (lead & trail & -> & _) H. unfold noNewline in *.
  rewrite !Forall_app in H. tauto.
Qed.

Lemma dropWhile_app_ink (a b : Text) :
  hasInk a →
  dropWhile isWhiteSpace (a ++ b) = dropWhile isWhiteSpace a ++ b.
Proof.
  induction 1 as [c a' Hc | c a' _ IH]; simpl.
  - by rewrite Hc.
  - destruct (isWhiteSpace c); [exact IH | done].
Qed.

Lemma dropEnd_app_ink (a b : Text) :
  hasInk b → dropEnd (a ++ b) = a ++ dropEnd b.
Proof.
  intros Hb. rewrite reverse_app, dropWhile_app_ink.
  - by rewrite reverse_app, reverse_involutive.
  - unfold hasInk in *. apply Exists_exists in Hb as (c & Hin & Hc).
    apply Exists_exists. exists c. split; [by apply elem_of_reverse | done].
Qed.

Lemma dropWhile_margins s : withoutMargins s (dropWhile isWhiteSpace s).
Proof.
  destruct (dropWhile_split isWhiteSpace s) as (pre & Hs & Hpre).
  exists pre, []. rewrite app_nil_r. done.
Qed.

Lemma dropEnd_margins s : withoutMargins s (dropEnd s).
Proof.
  destruct (dropWhile_split isWhiteSpace (reverse s)) as (pre & Hs & Hpre).
  exists [], (reverse pre). simpl. split_and!; [| done | by apply Forall_reverse].
  rewrite <- reverse_app, <- Hs. by rewrite reverse_involutive.
Qed.

Lemma joinLines_snoc (lines : list Text) x :
  lines ≠ [] → joinLines (lines ++ [x]) = joinLines lines ++ newline :: x.
Proof.
  induction lines as [| l ls IH]; [done |]. intros _.
  destruct ls as [| l2 ls']; [done |].
  change (joinLines ((l :: l2 :: ls') ++ [x]))
    with (l ++ newline :: joinLines ((l2 :: ls') ++ [x])).
  rewrite IH by done.
  change (joinLines (l :: l2 :: ls')) with (l ++ newline :: joinLines (l2 :: ls')).
  by rewrite <- app_assoc.
Qed.

Lemma joinLines_cons_app (lines : list Text) :
  ∃ rest, ∀ y, joinLines (y :: lines) = y ++ rest.
Proof.
  destruct lines as [| l ls].
  - exists []. intros y. simpl. by rewrite app_nil_r.
  - exists (newline :: joinLines (l :: ls)). done.
Qed.

Lemma snoc_split {A} (l : list A) : l ≠ [] → ∃ init last, l = init ++ [last].
Proof.
  induction l as [| x l IH] using rev_ind; [done |]. intros _. by exists l, x.
Qed.

(** The trimmed content of a file whose first and last line have ink:
    the same lines, the first without its leading and the last without
    its trailing white space. *)
Lemma trim_file h (rows : list Text) :
  hasInk h → Forall hasInk rows →
  ∃ h' rows',
    trim (joinLines (h :: rows)) = joinLines (h' :: rows') ∧
    withoutMargins h h' ∧ Forall2 withoutMargins rows rows'.
Proof.
  intros Hh Hrows.
  assert (dropWhile isWhiteSpace (joinLines (h :: rows))
          = joinLines (dropWhile isWhiteSpace h :: rows)) as Hlead.
  { destruct (joinLines_cons_app rows) as (rest & Hrest).
    by rewrite !Hrest, dropWhile_app_ink. }
  unfold trim. rewrite Hlead.
  destruct (decide (rows = [])) as [-> | Hne].
  - exists (trim h), []. split_and!; [done | | constructor].
    destruct (trim_split h) as (lead & trail & ? & ? & ?). by exists lead, trail.
  - destruct (snoc_split rows Hne) as (init & last & ->).
    apply Forall_app in Hrows as [_ Hlast].
    apply Forall_cons in Hlast as [Hlast _].
    exists (dropWhile isWhiteSpace h), (init ++ [dropEnd last]).
    split_and!.
    + change (dropWhile isWhiteSpace h :: init ++ [last])
        with ((dropWhile isWhiteSpace h :: init) ++ [last]).
      change (dropWhile isWhiteSpace h :: init ++ [dropEnd last])
        with ((dropWhile isWhiteSpace h :: init) ++ [dropEnd last]).
      generalize (dropWhile isWhiteSpace h :: init) (@nil_cons _
        (dropWhile isWhiteSpace h) init).
      intros L HL. rewrite !joinLines_snoc by done.
      change (joinLines L ++ newline :: last)
        with (joinLines L ++ [newline] ++ last).
      rewrite app_assoc, dropEnd_app_ink by done.
      by rewrite <- app_assoc.
    + apply dropWhile_margins.
    + apply Forall2_app.
      * apply Forall_Forall2_diag, Forall_forall. intros x _.
        apply withoutMargins_refl.
      * constructor; [apply dropEnd_margins | constructor].
Qed.

(** *** The header *)

Lemma startsWith_blank needle c r :
  isWhiteSpace c = true → Forall (λ x, isWhiteSpace x = false) needle →
  needle ≠ [] → startsWith needle (c :: r) = false.
Proof.
  intros Hc Hn Hne. destruct needle as [| p ps]; [done |].
  apply Forall_cons in Hn as [Hp _]. simpl.
  destruct (N.eqb_spec p c) as [-> | _]; [congruence | done].
Qed.

Lemma includes_blank needle s :
  Forall (λ x, isWhiteSpace x = false) needle → needle ≠ [] →
  blank s → includes needle s = false.
Proof.
  intros Hn Hne. induction 1 as [| c r Hc _ IH]; simpl.
  - by destruct needle.
  - by rewrite startsWith_blank, IH.
Qed.

Lemma includes_lead needle lead s :
  Forall (λ x, isWhiteSpace x = false) needle → needle ≠ [] →
  blank lead → includes needle (lead ++ s) = includes needle s.
Proof.
  intros Hn Hne. induction 1 as [| c r Hc _ IH]; [done |].
  change ((c :: r) ++ s) with (c :: (r ++ s)). simpl includes.
  by rewrite startsWith_blank, IH.
Qed.

Lemma startsWith_trail needle x trail :
  Forall (λ x, isWhiteSpace x = false) needle → blank trail →
  startsWith needle (x ++ trail) = startsWith needle x.
Proof.
  intros Hn Ht. revert x. induction Hn as [| p ps Hp _ IH]; intros x; [done |].
  destruct x as [| c x']; simpl.
  - destruct Ht as [| c r Hc _]; [done |].
    destruct (N.eqb_spec p c) as [-> | _]; [congruence | done].
  - by rewrite IH.
Qed.

Lemma includes_trail needle s trail :
  Forall (λ x, isWhiteSpace x = false) needle → needle ≠ [] →
  blank trail → includes needle (s ++ trail) = includes needle s.
Proof.
  intros Hn Hne Ht. induction s as [| c s' IH].
  - simpl app. rewrite includes_blank by done. by destruct needle.
  - change ((c :: s') ++ trail) with (c :: (s' ++ trail)). simpl includes.
    rewrite IH.
    change (c :: s' ++ trail) with ((c :: s') ++ trail).
    by rewrite startsWith_trail.
Qed.

Lemma includes_margins needle outer inner :
  Forall (λ x, isWhiteSpace x = false) needle → needle ≠ [] →
  withoutMargins outer inner → includes needle inner = includes needle outer.
Proof.
  intros Hn Hne (lead & trail & -> & Hl & Ht).
  by rewrite includes_lead, includes_trail.
Qed.

Lemma includes_ink needle s :
  Forall (λ x, isWhiteSpace x = false) needle → needle ≠ [] →
  includes needle s = true → hasInk s.
Proof.
  intros Hn Hne Hin. unfold hasInk.
  destruct (decide (blank s)) as [Hb | Hnb].
  - rewrite includes_blank in Hin; done.
  - apply not_Forall_Exists in Hnb; [| apply _].
    eapply Exists_impl; [exact Hnb |]. intros c Hc. simpl in Hc.
    by destruct (isWhiteSpace c).
Qed.

Lemma source_word :
  Forall (λ x, isWhiteSpace x = false) (codeUnits "source")
  ∧ codeUnits "source" ≠ [].
Proof. split; [by repeat constructor | done]. Qed.

(** *** The rows *)

Lemma rowOf_units (triple : Triple) :
  codeUnits (rowOf triple)
  = codeUnits (showZ triple.1.1) ++ comma
    :: codeUnits (showZ triple.1.2) ++ comma :: codeUnits triple.2.
Proof.
  unfold rowOf, Translate.edgeKey. rewrite !codeUnits_app. done.
Qed.

Lemma rowOf_ink (triple : Triple) : hasInk (codeUnits (rowOf triple)).
Proof.
  rewrite rowOf_units. destruct (numeral_plain triple.1.1) as [Hne Hall].
  destruct (codeUnits (showZ triple.1.1)) as [| c r]; [done |].
  apply Forall_cons in Hall as [(_ & _ & Hc) _]. by left.
Qed.

Lemma rowOf_noNewline (triple : Triple) :
  noNewline (codeUnits triple.2) → noNewline (codeUnits (rowOf triple)).
Proof.
  intros Hl. rewrite rowOf_units. unfold noNewline.
  assert (∀ z, Forall (λ c, (c =? newline)%N = false) (codeUnits (showZ z)))
    as Hnum.
  { intros z. eapply Forall_impl; [apply numeral_plain |]. simpl. tauto. }
  apply Forall_app. split; [apply Hnum |]. constructor; [done |].
  apply Forall_app. split; [apply Hnum |]. by constructor.
Qed.

(** A row of the derived file adds its edge, also when white space at
    its end has been trimmed away. *)
Lemma rowStep_row st (triple : Triple) line :
  withoutMargins (codeUnits (rowOf triple)) line →
  rowStep st line
  = mkLoaded (Graph.addEndpoints (nodes st) (pairOf triple))
             (edges st ++ [pairOf triple]).
Proof.
  destruct triple as [[s t] label]. unfold pairOf, Graph.addEndpoints. simpl.
  intros (lead & trail & Heq & Hlead & Htrail).
  rewrite rowOf_units in Heq. simpl in Heq.
  destruct (numeral_plain s) as [Hne Hs].
  assert (lead = []) as ->.
  { destruct lead as [| c lead']; [done |].
    destruct (codeUnits (showZ s)) as [| d ds]; [done |].
    apply Forall_cons in Hs as [(_ & _ & Hd) _].
    apply Forall_cons in Hlead as [Hc _].
    simpl in Heq. injection Heq as -> _. congruence. }
  simpl in Heq.
  set (A := codeUnits (showZ s) ++ comma :: codeUnits (showZ t) ++ [comma]).
  assert (A ++ codeUnits label = line ++ trail) as Heq'.
  { unfold A. rewrite <- Heq, <- !app_assoc. simpl. by rewrite <- app_assoc. }
  assert (∃ rest, line = A ++ rest) as [rest ->].
  { apply app_eq_inv in Heq' as [(k & HA & Htr) | (k & Hline & _)];
      [| by exists k].
    destruct k as [| c k' _] using rev_ind.
    - exists []. by rewrite app_nil_r in HA |- *.
    - exfalso.
      assert (c = comma) as ->.
      { unfold A in HA.
        change (codeUnits (showZ s) ++ comma :: codeUnits (showZ t) ++ [comma])
          with (codeUnits (showZ s) ++ (comma :: codeUnits (showZ t)) ++ [comma])
          in HA.
        rewrite !app_assoc in HA. by apply app_inj_tail in HA as [_ <-]. }
      assert (comma ∈ trail) as Hin.
      { rewrite Htr, !elem_of_app, list_elem_of_singleton. tauto. }
      eapply Forall_forall in Htrail; [| exact Hin]. done. }
  unfold A. rewrite <- !app_assoc. simpl. rewrite <- app_assoc. simpl.
  apply rowStep_numerals.
Qed.

Lemma foldl_rowStep_rows st (triples : list Triple) (lines : list Text) :
  Forall2 (λ triple line, withoutMargins (codeUnits (rowOf triple)) line)
          triples lines →
  foldl rowStep st lines
  = mkLoaded (foldl Graph.addEndpoints (nodes st) (pairOf <$> triples))
             (edges st ++ (pairOf <$> triples)).
Proof.
  intros H. revert st. induction H as [| triple line triples lines Hrow _ IH];
    intros st; simpl.
  - rewrite app_nil_r. by destruct st.
  - rewrite (rowStep_row st triple line Hrow), IH. simpl.
    by rewrite <- app_assoc.
Qed.

(** Reading back a file made of a header line with the word source and
    of rows of the derived file. *)
Lemma loadEdges_file headerLine (triples : list Triple) :
  noNewline headerLine →
  includes (codeUnits "source") headerLine = true →
  Forall (λ triple : Triple, noNewline (codeUnits triple.2)) triples →
  loadEdges (translatedFile headerLine (rowOf <$> triples))
  = mkLoaded (foldl Graph.addEndpoints [] (pairOf <$> triples))
             (pairOf <$> triples).
Proof.
  intros Hnl Hsrc Hlabels. destruct source_word as [Hw Hwne].
  unfold loadEdges, translatedFile.
  destruct (trim_file headerLine (codeUnits <$> (rowOf <$> triples)))
    as (h' & rows' & -> & Hh & Hrows).
  { by eapply includes_ink. }
  { apply Forall_fmap, Forall_fmap, Forall_forall. intros triple _.
    apply rowOf_ink. }
  rewrite !Forall2_fmap_l in Hrows.
  assert (Forall noNewline rows') as Hrows'.
  { clear Hh. revert Hlabels.
    induction Hrows as [| tr line trs lines Hm _ IH]; intros Hlabels;
      [constructor |].
    apply Forall_cons in Hlabels as [Hl Hls]. constructor; [| by apply IH].
    eapply withoutMargins_noNewline; [exact Hm |]. by apply rowOf_noNewline. }
  rewrite splitLines_joinLines; [| done |].
  - cbn [head default id]. rewrite (includes_margins _ _ _ Hw Hwne Hh), Hsrc.
    cbn [drop]. by rewrite (foldl_rowStep_rows _ triples rows' Hrows).
  - constructor; [| done]. by eapply withoutMargins_noNewline.
Qed.

Lemma rows_triples (P : Triple → Prop) (rows : list string) :
  Forall (λ k, ∃ triple, k = rowOf triple ∧ P triple) rows →
  ∃ triples, rows = rowOf <$> triples ∧ Forall P triples.
Proof.
  induction 1 as [| k rows (triple & -> & HP) _ (triples & -> & Hall)].
  - by exists [].
  - exists (triple :: triples). split; [done | by constructor].
Qed.

(** Every line number of the id-to-line map of the earlier revisions is
    what the pattern extracts from the position of a data row. *)
Lemma buildNodeToLine_origin (matchLine : string → option Z)
    (nrows : list (list string)) (id : string) (n : Z) :
  LegacyGraph.buildNodeToLine matchLine nrows !! id = Some n →
  ∃ parts, parts ∈ drop 1 nrows ∧ matchLine (field parts 5) = Some n.
Proof.
  unfold LegacyGraph.buildNodeToLine.
  assert (∀ rows (m : gmap string Z),
            (∀ id n, m !! id = Some n →
                     ∃ parts, parts ∈ drop 1 nrows
                              ∧ matchLine (field parts 5) = Some n) →
            (∀ parts, parts ∈ rows → parts ∈ drop 1 nrows) →
            ∀ id n, foldl (LegacyGraph.nodeStep matchLine) m rows !! id = Some n →
                    ∃ parts, parts ∈ drop 1 nrows
                             ∧ matchLine (field parts 5) = Some n) as Hfold.
  { induction rows as [| parts rows IH]; intros m Hm Hsub id' n'; simpl.
    - apply Hm.
    - apply IH.
      + intros id'' n''. unfold LegacyGraph.nodeStep.
        case_decide; [apply Hm |].
        destruct (matchLine (field parts 5)) as [l |] eqn:El; [| apply Hm].
        destruct (decide (id'' = field parts 0)) as [-> | Hne].
        * rewrite lookup_insert_eq. intros [= <-]. exists parts.
          split; [apply Hsub; left | done].
        * rewrite lookup_insert_ne by done. apply Hm.
      + intros parts' Hin. apply Hsub. by right. }
  apply Hfold; [| done]. intros id' n'. by rewrite lookup_empty.
Qed.

(** X18.  The graph of the two earlier revisions, which is read back
    from the derived edge file.  When the line numbers that the pattern
    extracts from the positions of nodes.csv are safe integers (so that
    the text written for a number is its decimal numeral), the header
    line holds the word source and the labels hold no newline: for the
    file that [translateEdgesToLineNumbers] writes, the edges read are
    the pairs of lines of the rows, one edge per row and in the order
    of the rows, so that rows that differ only in the label give the
    same edge more than once; no edge is a self-edge and every endpoint
    is a safe integer; and the vertices are the endpoints of the rows
    in the order in which they are first met. *)
Theorem legacy_graph_reads_back (matchLine : string → option Z)
    (nodesRows edgesRows : option (list (list string)))
    (out : Translate.Translated) (headerLine : Text) :
  LegacyGraph.translateEdgesToLineNumbers matchLine nodesRows edgesRows
  = Some out →
  (∀ parts n, parts ∈ GraphTerms.dataRows nodesRows →
              matchLine (field parts 5) = Some n → isSafeInteger n) →
  noNewline headerLine →
  includes (codeUnits "source") headerLine = true →
  (∀ parts, parts ∈ GraphTerms.dataRows edgesRows →
            noNewline (codeUnits (field parts 2))) →
  ∃ triples : list Triple,
    Translate.translatedRows out = rowOf <$> triples ∧
    loadEdges (translatedFile headerLine (Translate.translatedRows out))
    = mkLoaded (foldl Graph.addEndpoints [] (pairOf <$> triples))
               (pairOf <$> triples) ∧
    Forall (λ edge, edge.1 ≠ edge.2
                    ∧ isSafeInteger edge.1 ∧ isSafeInteger edge.2)
           (pairOf <$> triples).
Proof.
  intros Hout Hsafe Hnl Hsrc Hlabels.
  destruct nodesRows as [nrows |], edgesRows as [erows |];
    try discriminate Hout.
  injection Hout as <-. simpl.
  destruct (TranslateFacts.foldl_translate_edgeStep
              (LegacyGraph.buildNodeToLine matchLine nrows) (drop 1 erows)
              (Translate.mkRows [] ∅)) as (_ & _ & Hrows).
  { intros k. simpl. rewrite elem_of_empty, elem_of_nil. done. }
  { apply NoDup_nil_2. }
  assert (∀ id n, LegacyGraph.buildNodeToLine matchLine nrows !! id = Some n →
                  isSafeInteger n) as Hmap.
  { intros id n Hid.
    apply buildNodeToLine_origin in Hid as (parts & Hin & Hm).
    by apply (Hsafe parts n). }
  destruct (rows_triples
              (λ triple, triple.1.1 ≠ triple.1.2
                         ∧ (isSafeInteger triple.1.1 ∧ isSafeInteger triple.1.2)
                         ∧ noNewline (codeUnits triple.2))
              (Translate.translatedEdges
                 (foldl (Translate.edgeStep
                           (LegacyGraph.buildNodeToLine matchLine nrows))
                        (Translate.mkRows [] ∅) (drop 1 erows))))
    as (triples & Heq & Hall).
  { apply Forall_forall. intros k Hk.
    apply Hrows in Hk as [Hk | (parts & Hin & _ & s & t & Hs & Ht & Hne & ->)];
      [by apply elem_of_nil in Hk |].
    exists (s, t, field parts 2). split_and!; [done | done | | |].
    - by apply (Hmap _ _ Hs).
    - by apply (Hmap _ _ Ht).
    - simpl. by apply Hlabels. }
  exists triples. split_and!; [done | |].
  - rewrite Heq. apply loadEdges_file; [done | done |].
    eapply Forall_impl; [exact Hall |]. simpl. tauto.
  - apply Forall_fmap. eapply Forall_impl; [exact Hall |].
    intros [[s t] label]. simpl. tauto.
Qed.

End LegacyFacts.

(** ** Further statements on concrete inputs *)

Module MoreChecks.

Import JS Examples MoreExamples.

(** *** Graph construction *)

(** In the bypass example the resolution of line 5 looks through it to
    line 2, and the vertices are the three lines with a raw edge. *)
Lemma bypass_example_resolution :
  Graph.realSourcesOf
    (Graph.nodeCategories (Graph.nodeTablesOf matchPosition "a.vpr" bypassNodes))
    [(2, 5); (5, 7)] 5 = [2] ∧
  Graph.lineNumber <$>
    Graph.graphNodes
      (Graph.loadGraphFromCSV matchPosition "a.vpr" true bypassNodes bypassEdges)
  = [2; 5; 7].
Proof. split; vm_compute; reflexivity. Qed.

(** The external dependencies of line 7: the lines of b.vpr are listed
    in increasing order and once each, and the count adds up the two
    files. *)
Lemma external_example :
  ∃ nd,
    Graph.graphNodes
      (Graph.loadGraphFromCSV matchExternal "a.vpr" true externalNodes
         externalEdges) !! 1%nat = Some nd ∧
    Graph.lineNumber nd = 7 ∧
    Graph.externalDependencies nd !! "b.vpr" = Some [4; 9] ∧
    Graph.externalDependencies nd !! "c.vpr" = Some [2] ∧
    Graph.externalDependencyCount nd = 3%nat.
Proof. eexists. split; [reflexivity |]. vm_compute. done. Qed.

(** *** The graph view *)

Lemma chain_ids_NoDup : NoDup (chainNodes.*1).
Proof. apply (bool_decide_unpack _). vm_compute. exact I. Defined.

Lemma reported_exactly_witness :
  NoDup (chainNodes.*1) ∧
  ∃ st' message,
    chainHighlight chainState 3 true = (st', Some message) ∧
    Webview.lineNumber message = 3 ∧
    (2 ∈ Webview.neighbors message ↔
     2 ∈ Webview.directRelated (Webview.incomersOf chainEdges)
           (Webview.outgoersOf chainEdges) chainState 3
     ∧ Controls.enabledIn (Webview.filterState chainState)
         ["ExplicitAssumption"]).
Proof.
  split; [apply chain_ids_NoDup |].
  destruct (ViewFacts.reported_exactly chainNodes
              (Webview.incomersOf chainEdges) (Webview.outgoersOf chainEdges)
              (Webview.predecessorsOf chainEdges)
              (Webview.successorsOf chainEdges) chainState 3 chain_ids_NoDup)
    as (st' & message & Hm & Hl & _ & Hall & _).
  exists st', message. split; [exact Hm |]. split; [exact Hl |].
  apply (Hall 2 ["ExplicitAssumption"]); [| done].
  unfold chainNodes. rewrite !elem_of_cons. tauto.
Defined.


(** Line 3 is tapped, a checkbox is cleared and Select All is pressed:
    each time line 1 is reported and line 4, a direct dependency that
    is only a postcondition, is not. *)
Lemma postcondition_is_not_reported :
  (postconditionRun Webview.initialState
     [Controls.Tap 3; Controls.Check "ImplicitAssertion" false;
      Controls.SelectAll]).2
  = [ Webview.mkMessage 3 [1] [] false; Webview.mkMessage 3 [1] [] false;
      Webview.mkMessage 3 [1] [] false ] ∧
  Webview.incomersOf postconditionEdges 3 = [1; 4].
Proof. split; vm_compute; reflexivity. Qed.


(** *** The editor *)

(** A range of the dependency colour left by an earlier highlight is
    gone after a request in the dependents direction, and the
    dependents colour shows the neighbours kept. *)
Lemma highlight_replaces_decorations_witness :
  Editor.findEditor window3 extension3 = Some editor3 ∧
  1 ≤ 2 ≤ Editor.lineCount (Editor.document editor3) ∧
  Editor.linesOf
    (Decorations.shownAfter editor3 (λ _, [staleRange])
       (Editor.highlightLines window3 extension3 2 [1; 2; 3; 7; 0] [9; 3] true).1
       Editor.directDependencyDecoration) = [] ∧
  Editor.linesOf
    (Decorations.shownAfter editor3 (λ _, [staleRange])
       (Editor.highlightLines window3 extension3 2 [1; 2; 3; 7; 0] [9; 3] true).1
       Editor.directDependantDecoration) = [1; 3].
Proof.
  assert (1 ≤ 2 ≤ Editor.lineCount (Editor.document editor3)) as Hin
    by (vm_compute; split; discriminate).
  split; [reflexivity |]. split; [exact Hin |].
  destruct (DecorationFacts.highlight_replaces_decorations window3 extension3
              editor3 2 [1; 2; 3; 7; 0] [9; 3] true eq_refl) as (H & _).
  split; apply (H Hin).
Defined.

Lemma cursor_round_trip_witness :
  ∃ st' message events ext' selected,
    Listeners.onDidChangeTextEditorSelection session3 editor3 1 = Some (1 + 1) ∧
    Webview.onHighlightRequest chainNodes
      (Webview.incomersOf chainEdges) (Webview.outgoersOf chainEdges)
      (Webview.predecessorsOf chainEdges) (Webview.successorsOf chainEdges)
      chainState (1 + 1) = (st', Some message) ∧
    Webview.selectedNode st' = Some (1 + 1) ∧
    Webview.lineNumber message = 1 + 1 ∧
    Webview.onDidReceiveMessage window3 (Listeners.extension session3) message
    = (events, ext') ∧
    Editor.SetDecorations editor3 Editor.selectedDecoration [selected] ∈ events ∧
    Editor.startLine selected = 1 ∧
    (∀ warning, Editor.ShowWarningMessage warning ∉ events) ∧
    Listeners.onDidChangeTextEditorSelection
      (Listeners.mkSession (Listeners.panelOpen session3) ext') editor3 1 = None ∧
    Listeners.onDidChangeTextEditorSelection
      (Listeners.onTimer (Listeners.mkSession (Listeners.panelOpen session3) ext'))
      editor3 1 = Some (1 + 1).
Proof.
  apply (RoundTripFacts.cursor_round_trip chainNodes
           (Webview.incomersOf chainEdges) (Webview.outgoersOf chainEdges)
           (Webview.predecessorsOf chainEdges) (Webview.successorsOf chainEdges)
           window3 session3 chainState editor3 1 eq_refl eq_refl eq_refl eq_refl).
  - vm_compute. split; [discriminate | reflexivity].
  - apply (bool_decide_unpack _). vm_compute. exact I.
Defined.

Lemma edit_disables_highlights_witness :
  (Listeners.onDidChangeTextDocument window3 session3
     (Editor.document editor3)).1
  = [ Editor.SetDecorations editor3 Editor.directDependencyDecoration [];
      Editor.SetDecorations editor3 Editor.indirectDependencyDecoration [];
      Editor.SetDecorations editor3 Editor.directDependantDecoration [];
      Editor.SetDecorations editor3 Editor.indirectDependantDecoration [];
      Editor.SetDecorations editor3 Editor.selectedDecoration [] ] ∧
  Decorations.shownAfter editor3 (λ _, [staleRange])
    (Listeners.onDidChangeTextDocument window3 session3
       (Editor.document editor3)).1
    Editor.directDependantDecoration
  = [] ∧
  Webview.onDidReceiveMessage window3
    (Listeners.extension
       (Listeners.onDidChangeTextDocument window3 session3
          (Editor.document editor3)).2)
    (Webview.mkMessage 2 [1] [] false)
  = ([],
     Listeners.extension
       (Listeners.onDidChangeTextDocument window3 session3
          (Editor.document editor3)).2).
Proof.
  destruct (RoundTripFacts.edit_disables_highlights window3 session3 editor3
              eq_refl eq_refl eq_refl) as (H1 & H2 & _ & H3 & _).
  split_and!; [exact H1 | apply H2 | apply H3].
Defined.

Lemma leaving_clears_decorations_witness :
  Decorations.shownAfter editor3 (λ _, [staleRange])
    (Listeners.onDidChangeActiveTextEditor splitWindow session3
       (Some otherEditor))
    Editor.selectedDecoration = [] ∧
  Decorations.shownAfter editor3 (λ _, [staleRange])
    (Listeners.onDidDispose splitWindow session3).1
    Editor.directDependencyDecoration = [].
Proof.
  destruct (RoundTripFacts.leaving_clears_decorations splitWindow session3
              "/w/a.vpr" editor3 eq_refl eq_refl eq_refl)
    as (H1 & _ & _ & H2 & _).
  split; [apply H1; discriminate | apply H2].
Defined.

(** *** The line-content records and the labels *)

Lemma two_lines_are_stored :
  LinesCsv.loadLineContents (Some (LinesCsv.exportLinesToCSV twoLines)) !! 2
  = Some [121%N].
Proof. vm_compute. reflexivity. Defined.

Lemma stored_lines_exist_witness :
  1 ≤ 2 ≤ Z.of_nat (length (LinesCsv.splitLines twoLines)).
Proof.
  apply (LinesFileFacts.stored_lines_exist twoLines 2 [121%N]
           two_lines_are_stored).
Defined.

(** The label of a declaration with an assignment is the variable, and
    a long first word is cut to nine characters and an ellipsis. *)
Lemma label_examples :
  LineType.getLineType declarationLine
  = LineType.mkLineInfo (codeUnits "assignment") (codeUnits "x") ∧
  LineType.getLineType longWordLine
  = LineType.mkLineInfo (codeUnits "ensuresSo" ++ [LineType.ellipsis]) [] ∧
  LineType.getLineType [] = LineType.mkLineInfo (codeUnits "other") [].
Proof. split_and!; vm_compute; reflexivity. Qed.

(** *** The earlier revisions *)

(** The two rows between lines 1 and 2 are read back as two edges
    between the same vertices. *)
Lemma legacy_graph_repeats_edges :
  LegacyGraph.translateEdgesToLineNumbers matchLine legacyLabelNodes labelEdges
  = Some (Translate.mkTranslated edgesHeader labelRows) ∧
  LegacyGraph.loadEdges (LegacyGraph.translatedFile headerLine labelRows)
  = LegacyGraph.mkLoaded [1; 2] [(1, 2); (1, 2)].
Proof. split; vm_compute; reflexivity. Defined.

Lemma legacy_graph_reads_back_witness :
  ∃ triples : list LegacyGraph.Triple,
    labelRows = LegacyGraph.rowOf <$> triples ∧
    LegacyGraph.loadEdges (LegacyGraph.translatedFile headerLine labelRows)
    = LegacyGraph.mkLoaded
        (foldl Graph.addEndpoints [] (LegacyGraph.pairOf <$> triples))
        (LegacyGraph.pairOf <$> triples) ∧
    Forall (λ edge, edge.1 ≠ edge.2
                    ∧ isSafeInteger edge.1 ∧ isSafeInteger edge.2)
           (LegacyGraph.pairOf <$> triples).
Proof.
  apply (LegacyFacts.legacy_graph_reads_back matchLine legacyLabelNodes
           labelEdges
           (Translate.mkTranslated edgesHeader labelRows) headerLine
           (proj1 legacy_graph_repeats_edges)).
  - intros parts n Hin. unfold GraphTerms.dataRows, legacyLabelNodes in Hin.
    simpl in Hin. rewrite !elem_of_cons, elem_of_nil in Hin.
    destruct Hin as [-> | [-> | []]]; intros [= <-];
      unfold isSafeInteger, maxSafeInteger; lia.
  - by repeat constructor.
  - vm_compute. reflexivity.
  - intros parts Hin. unfold GraphTerms.dataRows, labelEdges in Hin.
    simpl in Hin. rewrite !elem_of_cons, elem_of_nil in Hin.
    destruct Hin as [-> | [-> | []]]; by repeat constructor.
Defined.

End MoreChecks.
